(** * download.py: exporting a Notion page as a static site

    A shallow embedding of [download.py] and a verification of its
    specification.

    Conventions of the embedding.
    - A Python [str] is a [string] holding the UTF-8 bytes of the text.  Every
      pattern the program searches for ([".html"], the output of
      [urllib.parse.quote], ["-"], ["urn:"], ["uuid:"]) is ASCII, and an ASCII
      pattern occurs in a UTF-8 text at the same places, whether one counts in
      bytes or in code points.  The encoding of the locale is taken to be
      UTF-8, and the system to be POSIX.
    - A Python exception is a value of [exn]; a function that can raise returns
      a [result], and one that also changes state is a state transformer
      returning the state reached next to the result, since a Python exception
      does not undo what was done before it.
    - The file system is a tree of named nodes; a directory is the list of its
      entries in listing order, and a file holds its bytes.  [read_text]
      decodes them, which fails on bytes that are no UTF-8, and reads every
      line ending as a line feed; [write_text] encodes a text, which on POSIX
      leaves its line feeds as they are.  Symbolic links, permissions and time
      stamps are not modelled.
    - What lies outside the program is the [world]: the environment variable,
      the parsed configuration file, the lines typed by the operator, the
      responses of the service in the order of the requests, the clock, the
      temporary directory and the deployment directory.  The [trace] of the
      world records what the program does to the outside: requests, prints,
      prompts and sleeps. *)

From Stdlib Require Import String Ascii List ZArith Lia Bool Arith Permutation.
From Equations Require Import Equations.
From Equations.Prop Require Import Logic.
Import ListNotations.

Local Open Scope list_scope.
Local Open Scope string_scope.
Set Warnings "-register-all".

(** ** Exceptions and the state-and-exception monad *)

(** The subclasses of [OSError] the file operations raise; [EINVAL] and
    [ENOTEMPTY] stand for a plain [OSError] with that [errno]. *)
Inductive os_error : Type :=
| FileNotFoundError
| FileExistsError
| IsADirectoryError
| NotADirectoryError
| ENOTEMPTY
| EINVAL.

Inductive exn : Type :=
| AssertionError
| IndexError
| KeyError (key : string)
| TypeError
| AttributeError
| ValueError
| HTTPError
| ConnectionError
| JSONDecodeError
| EOFError
| BadZipFile
| MissingSchema
| InvalidSchema
| InvalidURL
| UnicodeDecodeError
| UnicodeEncodeError
| OSError (e : os_error)
(* [shutil.Error]: the source paths that could not be copied, and why *)
| ShutilError (errors : list (list string * os_error)).

Inductive result (A : Type) : Type :=
| Ok (a : A)
| Raise (e : exn).
Arguments Ok {A} a.
Arguments Raise {A} e.

(** A computation over a state [S]: the result and the state it leaves. *)
Definition M (S A : Type) : Type := S -> result A * S.

Definition ret {S A} (a : A) : M S A := fun s => (Ok a, s).

Definition bind {S A B} (c : M S A) (k : A -> M S B) : M S B :=
  fun s => match c s with
           | (Ok a, s') => k a s'
           | (Raise e, s') => (Raise e, s')
           end.

Definition raise {S A} (e : exn) : M S A := fun s => (Raise e, s).

Definition get {S} : M S S := fun s => (Ok s, s).

Definition put {S} (s : S) : M S unit := fun _ => (Ok tt, s).

Definition lift_result {S A} (r : result A) : M S A := fun s => (r, s).

(** [assert cond], assertions being on (the script is not run with [-O]). *)
Definition assert {S} (cond : bool) : M S unit :=
  if cond then ret tt else raise AssertionError.

Declare Scope py_scope.
Delimit Scope py_scope with py.
Notation "x <- c ;; k" := (bind c (fun x => k))
  (at level 100, c at next level, right associativity) : py_scope.
Notation "c ;;; k" := (bind c (fun _ => k))
  (at level 100, right associativity) : py_scope.
Local Open Scope py_scope.

(** ** Characters *)

Definition in_range (lo hi : nat) (c : ascii) : bool :=
  Nat.leb lo (nat_of_ascii c) && Nat.leb (nat_of_ascii c) hi.

Fixpoint all_chars (p : ascii -> bool) (s : string) : bool :=
  match s with
  | EmptyString => true
  | String c s' => p c && all_chars p s'
  end.

(** [s.lower()], on the ASCII letters. *)
Definition lower_char (c : ascii) : ascii :=
  if in_range 65 90 c then ascii_of_nat (nat_of_ascii c + 32) else c.

Fixpoint lower (s : string) : string :=
  match s with
  | EmptyString => EmptyString
  | String c s' => String (lower_char c) (lower s')
  end.

(** ** Python strings *)

Module Str.

(** [s[n:]] *)
Fixpoint drop (n : nat) (s : string) : string :=
  match n, s with
  | O, _ => s
  | S _, EmptyString => EmptyString
  | S n', String _ s' => drop n' s'
  end.

(** [s[:n]] *)
Fixpoint take (n : nat) (s : string) : string :=
  match n, s with
  | O, _ => EmptyString
  | S _, EmptyString => EmptyString
  | S n', String c s' => String c (take n' s')
  end.

(** [s[:-n]] for [n > 0]: all but the last [n] characters. *)
Definition slice_to_minus (n : nat) (s : string) : string :=
  take (String.length s - n) s.

(** [s.startswith(p)] *)
Fixpoint startswith (p s : string) : bool :=
  match p, s with
  | EmptyString, _ => true
  | String _ _, EmptyString => false
  | String a p', String b s' => Ascii.eqb a b && startswith p' s'
  end.

(** [s.endswith(p)] *)
Definition endswith (p s : string) : bool :=
  Nat.leb (String.length p) (String.length s)
  && String.eqb (drop (String.length s - String.length p) s) p.

(** [s.replace("", new)]: [new] goes before every character and at the end.
    A character of a UTF-8 text begins at each byte that is no continuation
    byte.  (The program reaches this case only for a page called [.html],
    whose name is empty.) *)
Fixpoint intersperse (new s : string) : string :=
  match s with
  | EmptyString => new
  | String c s' =>
      (if in_range 128 191 c then String c EmptyString else new ++ String c EmptyString)
      ++ intersperse new s'
  end.

(** [s.replace(old, new)] for a non-empty [old = String o old']: the leftmost
    occurrence is replaced and the search resumes after it. *)
Equations? replace_nonempty (o : ascii) (old' new s : string) : string
  by wf (String.length s) lt :=
  replace_nonempty o old' new EmptyString := EmptyString;
  replace_nonempty o old' new (String c s') with startswith (String o old') (String c s') := {
    | true => new ++ replace_nonempty o old' new (drop (String.length old') s')
    | false => String c (replace_nonempty o old' new s') }.
Proof.
  clear. generalize (String.length old').
  induction s' as [|a s' IH]; intros [|n]; simpl; try lia.
  specialize (IH n). lia.
Qed.

(** [s.replace(old, new)] *)
Definition replace (old new s : string) : string :=
  match old with
  | EmptyString => intersperse new s
  | String o old' => replace_nonempty o old' new s
  end.

(** [old in s] *)
Fixpoint contains (old s : string) : bool :=
  startswith old s
  || match s with
     | EmptyString => false
     | String _ s' => contains old s'
     end.

(** [s.lstrip(chars)] and [s.strip(chars)] *)
Fixpoint lstrip (chars : ascii -> bool) (s : string) : string :=
  match s with
  | EmptyString => EmptyString
  | String c s' => if chars c then lstrip chars s' else s
  end.

Fixpoint rstrip (chars : ascii -> bool) (s : string) : string :=
  match s with
  | EmptyString => EmptyString
  | String c s' =>
      match rstrip chars s' with
      | EmptyString => if chars c then EmptyString else String c EmptyString
      | r => String c r
      end
  end.

Definition strip (chars : ascii -> bool) (s : string) : string :=
  rstrip chars (lstrip chars s).

(** What a file opened in text mode hands over: [\r\n] and a lone [\r] are
    read as [\n] (universal newlines, the default). *)
Fixpoint newlines_from (after_cr : bool) (s : string) : string :=
  match s with
  | EmptyString => EmptyString
  | String c s' =>
      if Ascii.eqb c "013" then String "010" (newlines_from true s')
      else if Ascii.eqb c "010" && after_cr then newlines_from false s'
      else String c (newlines_from false s')
  end.

Definition universal_newlines (s : string) : string := newlines_from false s.

End Str.

(** ** UTF-8

    The strict decoder: the well-formed byte sequences of the Unicode
    standard, without overlong forms, surrogates, or code points above
    [U+10FFFF]. *)

Module Utf8.

(** What the decoder is in the middle of: nothing ([Start]); one, two or
    three continuation bytes to come; or the byte after a lead byte that
    narrows its range. *)
Inductive state : Type :=
| Start
| One
| Two
| Three
| AfterE0
| AfterED
| AfterF0
| AfterF4.

Definition step (st : state) (c : ascii) : option state :=
  match st with
  | Start =>
      if in_range 0 127 c then Some Start
      else if in_range 194 223 c then Some One
      else if in_range 224 224 c then Some AfterE0
      else if in_range 225 236 c || in_range 238 239 c then Some Two
      else if in_range 237 237 c then Some AfterED
      else if in_range 240 240 c then Some AfterF0
      else if in_range 241 243 c then Some Three
      else if in_range 244 244 c then Some AfterF4
      else None
  | One => if in_range 128 191 c then Some Start else None
  | Two => if in_range 128 191 c then Some One else None
  | Three => if in_range 128 191 c then Some Two else None
  | AfterE0 => if in_range 160 191 c then Some One else None
  | AfterED => if in_range 128 159 c then Some One else None
  | AfterF0 => if in_range 144 191 c then Some Two else None
  | AfterF4 => if in_range 128 143 c then Some Two else None
  end.

Fixpoint run (st : state) (s : string) : option state :=
  match s with
  | EmptyString => Some st
  | String c s' =>
      match step st c with
      | Some st' => run st' s'
      | None => None
      end
  end.

(** The bytes decode: [bytes.decode("utf-8")] does not raise. *)
Definition valid (s : string) : bool :=
  match run Start s with
  | Some Start => true
  | _ => false
  end.

End Utf8.

(** ** urllib.parse.quote *)

(** [_ALWAYS_SAFE]: the ASCII letters and digits and the four marks [_.-~]. *)
Definition always_safe (c : ascii) : bool :=
  in_range 65 90 c || in_range 97 122 c || in_range 48 57 c
  || Ascii.eqb c "_" || Ascii.eqb c "." || Ascii.eqb c "-" || Ascii.eqb c "~".

Definition hex_digit_upper (n : nat) : ascii :=
  if Nat.ltb n 10 then ascii_of_nat (48 + n) else ascii_of_nat (55 + n).

(** ['%{:02X}'.format(b)] *)
Definition percent_encode (c : ascii) : string :=
  String "%" (String (hex_digit_upper (nat_of_ascii c / 16))
             (String (hex_digit_upper (nat_of_ascii c mod 16)) EmptyString)).

(** [quote(string)] with the default [safe='/']: each byte of the UTF-8 text is
    kept when it is always safe or a slash, and written [%XX] otherwise. *)
Fixpoint quote (s : string) : string :=
  match s with
  | EmptyString => EmptyString
  | String c s' =>
      (if always_safe c || Ascii.eqb c "/" then String c EmptyString
       else percent_encode c) ++ quote s'
  end.

(** ** The file system *)

Inductive node : Type :=
| File (text : string)
| Dir (entries : list (string * node)).

Definition directory : Type := list (string * node).

Module Fs.

Fixpoint lookup (name : string) (d : directory) : option node :=
  match d with
  | [] => None
  | (n, x) :: d' => if String.eqb n name then Some x else lookup name d'
  end.

Fixpoint remove (name : string) (d : directory) : directory :=
  match d with
  | [] => []
  | (n, x) :: d' =>
      if String.eqb n name then remove name d' else (n, x) :: remove name d'
  end.

(** Bind [name] to [x]: in place when the name is listed, as a new last entry
    otherwise. *)
Fixpoint set (name : string) (x : node) (d : directory) : directory :=
  match d with
  | [] => [(name, x)]
  | (n, y) :: d' =>
      if String.eqb n name then (n, x) :: d' else (n, y) :: set name x d'
  end.

Definition names (d : directory) : list string := map fst d.

(** [output_dir.glob("*.html")]: the entries, files or directories, dot files
    included, whose name ends in [.html] (POSIX: case matters). *)
Definition glob_html : M directory (list string) :=
  d <- get ;;
  ret (filter (Str.endswith ".html") (names d)).

(** [l[0]] *)
Definition item0 {S A} (l : list A) : M S A :=
  match l with
  | [] => raise IndexError
  | a :: _ => ret a
  end.

(** [path.read_text()]: the file is opened in text mode, so its bytes are
    decoded, and the line endings are read as line feeds. *)
Definition read_text (name : string) : M directory string :=
  d <- get ;;
  match lookup name d with
  | Some (File bytes) =>
      if Utf8.valid bytes then ret (Str.universal_newlines bytes)
      else raise UnicodeDecodeError
  | Some (Dir _) => raise (OSError IsADirectoryError)
  | None => raise (OSError FileNotFoundError)
  end.

(** [path.write_text(data)]: the text is encoded; on POSIX a line feed is
    written as it is. *)
Definition write_text (name data : string) : M directory unit :=
  d <- get ;;
  match lookup name d with
  | Some (Dir _) => raise (OSError IsADirectoryError)
  | _ => put (set name (File data) d)
  end.

(** [open(path, "wb")] and the writes that follow, for the bytes [data]. *)
Definition write_bytes (name data : string) : M directory unit :=
  d <- get ;;
  match lookup name d with
  | Some (Dir _) => raise (OSError IsADirectoryError)
  | _ => put (set name (File data) d)
  end.

(** [parent / name] is [parent] itself, or above it, for these names. *)
Definition dot_name (name : string) : bool :=
  String.eqb name "" || String.eqb name "." || String.eqb name "..".

(** What a directory can list: not a dot name, no slash. *)
Definition valid_name (name : string) : bool :=
  negb (dot_name name) && negb (Str.contains "/" name).

(** A text that names one entry of a directory when it is joined to the
    directory's path: a name a directory can list, without a NUL, and no
    longer than the 255 bytes POSIX file systems allow.  Any other text
    joined to a path is a path of several components, or no path at all. *)
Definition entry_name (name : string) : bool :=
  valid_name name
  && all_chars (fun c => negb (Ascii.eqb c "000")) name
  && Nat.leb (String.length name) 255.

(** [(parent / src).rename(parent / dst)], that is [os.rename] on POSIX: a
    file replaces a file, a directory replaces an empty directory, a path
    renamed to itself stays, and a directory cannot move beneath itself. *)
Definition rename (src dst : string) : M directory unit :=
  d <- get ;;
  if dot_name src then raise (OSError EINVAL)
  else
    match lookup src d with
    | None => raise (OSError FileNotFoundError)
    | Some x =>
        if String.eqb src dst then ret tt
        else
          match x, lookup dst d with
          | File _, Some (Dir _) => raise (OSError IsADirectoryError)
          | Dir _, Some (File _) => raise (OSError NotADirectoryError)
          | Dir _, Some (Dir (_ :: _)) => raise (OSError ENOTEMPTY)
          | _, _ => put (set dst x (remove src d))
          end
    end.

End Fs.

(** ** rewrite_html *)

Definition nl : string := String "010"%char EmptyString.
Definition dq : string := String "034"%char EmptyString.
Definition quoted (s : string) : string := dq ++ s ++ dq.

Definition stylesheet_tag : string :=
  nl ++ "<link rel=" ++ quoted "stylesheet" ++ " href=" ++ quoted "styles.css" ++ " />".

Definition favicon_tags : string :=
  nl ++ nl ++ nl
  ++ "    <link rel=" ++ quoted "apple-touch-icon" ++ " sizes=" ++ quoted "180x180"
  ++ " href=" ++ quoted "/favicon/apple-touch-icon.png" ++ ">" ++ nl
  ++ "    <link rel=" ++ quoted "icon" ++ " type=" ++ quoted "image/png"
  ++ " sizes=" ++ quoted "32x32"
  ++ " href=" ++ quoted "/favicon/favicon-32x32.png" ++ ">" ++ nl
  ++ "    <link rel=" ++ quoted "icon" ++ " type=" ++ quoted "image/png"
  ++ " sizes=" ++ quoted "16x16"
  ++ " href=" ++ quoted "/favicon/favicon-16x16.png" ++ ">" ++ nl
  ++ "    <link rel=" ++ quoted "manifest"
  ++ " href=" ++ quoted "/favicon/site.webmanifest" ++ ">" ++ nl
  ++ "    <link rel=" ++ quoted "mask-icon" ++ " href=" ++ quoted "/favicon/safari-pinned-tab.svg"
  ++ " color=" ++ quoted "#5bbad5" ++ ">" ++ nl
  ++ "    <link rel=" ++ quoted "shortcut icon"
  ++ " href=" ++ quoted "/favicon/favicon.ico" ++ ">" ++ nl
  ++ "    <meta name=" ++ quoted "msapplication-TileColor"
  ++ " content=" ++ quoted "#da532c" ++ ">" ++ nl
  ++ "    <meta name=" ++ quoted "msapplication-config"
  ++ " content=" ++ quoted "/favicon/browserconfig.xml" ++ ">" ++ nl
  ++ "    <meta name=" ++ quoted "theme-color" ++ " content=" ++ quoted "#ffffff" ++ ">" ++ nl
  ++ "    ".

(** The text [rewrite_html] writes back for the page [name].html. *)
Definition rewritten_text (name html_data : string) : string :=
  let url_encoded_name := quote name in
  let html_data := Str.replace url_encoded_name "assets" html_data in
  let html_data := html_data ++ stylesheet_tag in
  html_data ++ favicon_tags.

(** [urllib.parse.quote] encodes its argument first, and a file name with
    bytes that are no UTF-8 (which Python holds as lone surrogates) cannot be
    encoded. *)
Definition encodable (name : string) : M directory unit :=
  if Utf8.valid name then ret tt else raise UnicodeEncodeError.

Definition rewrite_html : M directory unit :=
  matches <- Fs.glob_html ;;
  assert (Nat.eqb (List.length matches) 1) ;;;
  html_path <- Fs.item0 matches ;;
  let name := Str.slice_to_minus 5 html_path in
  html_data <- Fs.read_text html_path ;;
  encodable name ;;;
  let html_data := rewritten_text name html_data in
  Fs.write_text html_path html_data ;;;
  Fs.rename html_path "index.html" ;;;
  Fs.rename name "assets".

(** ** What the specification says of the rewriting

    "Every occurrence of the percent-encoded name is replaced by [assets]":
    the text is read from the left; up to the first occurrence of [old] it is
    kept, the occurrence becomes [new], and the same holds of what follows the
    occurrence.  ([p ++ old] less its last character holds no occurrence
    exactly when no occurrence starts within [p].) *)
Inductive replaced_all (old new : string) : string -> string -> Prop :=
| replaced_none s :
    Str.contains old s = false ->
    replaced_all old new s s
| replaced_next p rest rest' :
    Str.contains old (p ++ Str.slice_to_minus 1 old) = false ->
    replaced_all old new rest rest' ->
    replaced_all old new (p ++ old ++ rest) (p ++ new ++ rest').

(** ** JSON values, as [response.json()] and [json.loads] build them

    A [dict] is the list of its members in insertion order, a key listed
    once.  Numbers are integers: the program never computes with one. *)

Inductive JSON : Type :=
| JNull
| JBool (b : bool)
| JNum (n : Z)
| JStr (s : string)
| JArr (items : list JSON)
| JObj (members : list (string * JSON)).

Module Json.

Fixpoint lookup (key : string) (members : list (string * JSON)) : option JSON :=
  match members with
  | [] => None
  | (k, v) :: rest => if String.eqb k key then Some v else lookup key rest
  end.

(** [d[key] = v] on a dict: an existing key keeps its place. *)
Fixpoint update (key : string) (v : JSON) (members : list (string * JSON))
  : list (string * JSON) :=
  match members with
  | [] => [(key, v)]
  | (k, x) :: rest =>
      if String.eqb k key then (k, v) :: rest else (k, x) :: update key v rest
  end.

(** [a == b].  [True == 1] and [False == 0] hold in Python; two dicts are
    equal when they have as many members and every member of the first is a
    member of the second. *)
Fixpoint py_eq (a b : JSON) {struct a} : bool :=
  match a, b with
  | JNull, JNull => true
  | JBool x, JBool y => Bool.eqb x y
  | JBool x, JNum n => Z.eqb (if x then 1 else 0) n
  | JNum n, JBool y => Z.eqb n (if y then 1 else 0)
  | JNum n, JNum m => Z.eqb n m
  | JStr s, JStr t => String.eqb s t
  | JArr xs, JArr ys =>
      (fix all2 (xs : list JSON) (ys : list JSON) {struct xs} : bool :=
         match xs, ys with
         | [], [] => true
         | x :: xs', y :: ys' => py_eq x y && all2 xs' ys'
         | _, _ => false
         end) xs ys
  | JObj ms, JObj ns =>
      Nat.eqb (List.length ms) (List.length ns)
      && (fix all (ms : list (string * JSON)) {struct ms} : bool :=
            match ms with
            | [] => true
            | (k, v) :: ms' =>
                match lookup k ns with
                | Some v' => py_eq v v'
                | None => false
                end && all ms'
            end) ms
  | _, _ => false
  end.

(** [v[key]] for a string key: only a dict can be indexed by one. *)
Definition getitem {S} (v : JSON) (key : string) : M S JSON :=
  match v with
  | JObj members =>
      match lookup key members with
      | Some x => ret x
      | None => raise (KeyError key)
      end
  | _ => raise TypeError
  end.

Definition chars (s : string) : list JSON :=
  map (fun c => JStr (String c EmptyString)) (list_ascii_of_string s).

(** [key in v] for a string key. *)
Definition contains {S} (key : string) (v : JSON) : M S bool :=
  match v with
  | JObj members => ret (existsb (fun m => String.eqb (fst m) key) members)
  | JArr items => ret (existsb (fun x => py_eq x (JStr key)) items)
  | JStr s => ret (Str.contains key s)
  | _ => raise TypeError
  end.

(** [iter(v)]: a list yields its items, a dict its keys, a string its
    characters; nothing else can be iterated. *)
Definition iter {S} (v : JSON) : M S (list JSON) :=
  match v with
  | JArr items => ret items
  | JObj members => ret (map (fun m => JStr (fst m)) members)
  | JStr s => ret (chars s)
  | _ => raise TypeError
  end.

(** [list(filter(f, items))], where [f] may raise. *)
Fixpoint filter {S} (f : JSON -> M S bool) (items : list JSON) : M S (list JSON) :=
  match items with
  | [] => ret []
  | x :: rest =>
      keep <- f x ;;
      kept <- filter f rest ;;
      ret (if keep then x :: kept else kept)
  end.

End Json.

(** ** The world the script runs in *)

(** An HTTP response: whether [raise_for_status] passes, the body read as
    JSON (when it is JSON), the cookies set, the raw body, and the tree the
    body unpacks to (when it is a zip archive). *)
Record response : Type := {
  ok : bool;
  json : option JSON;
  cookies : list (string * string);
  content : string;
  archive : option directory
}.

(** What the script does to the outside, in order. *)
Inductive event : Type :=
| Post (url : string) (body : JSON) (sent_cookies : list (string * string))
| Get (url : string)
| Print (text : string) (values : list JSON)
| Input (prompt : string)
| Sleep (seconds : Z).

Record world : Type := {
  NOTION_TOKEN : option string;      (* [os.getenv("NOTION_TOKEN")] *)
  notion_config : result JSON;       (* [json.loads(config_file.read_text())] *)
  stdin : list string;               (* the lines the operator will type *)
  network : list response;           (* the responses the service will give, in order *)
  clock : string;                    (* [datetime.now().strftime(...)] *)
  tmp : directory;                   (* [tempfile.gettempdir()] *)
  repo : directory;                  (* [Path(__file__).parent] *)
  trace : list event
}.

Definition with_network (n : list response) (w : world) : world :=
  {| NOTION_TOKEN := NOTION_TOKEN w; notion_config := notion_config w; stdin := stdin w;
     network := n; clock := clock w; tmp := tmp w; repo := repo w; trace := trace w |}.

Definition with_stdin (l : list string) (w : world) : world :=
  {| NOTION_TOKEN := NOTION_TOKEN w; notion_config := notion_config w; stdin := l;
     network := network w; clock := clock w; tmp := tmp w; repo := repo w; trace := trace w |}.

Definition with_tmp (d : directory) (w : world) : world :=
  {| NOTION_TOKEN := NOTION_TOKEN w; notion_config := notion_config w; stdin := stdin w;
     network := network w; clock := clock w; tmp := d; repo := repo w; trace := trace w |}.

Definition with_repo (d : directory) (w : world) : world :=
  {| NOTION_TOKEN := NOTION_TOKEN w; notion_config := notion_config w; stdin := stdin w;
     network := network w; clock := clock w; tmp := tmp w; repo := d; trace := trace w |}.

Definition with_trace (t : list event) (w : world) : world :=
  {| NOTION_TOKEN := NOTION_TOKEN w; notion_config := notion_config w; stdin := stdin w;
     network := network w; clock := clock w; tmp := tmp w; repo := repo w; trace := t |}.

Definition log (e : event) : M world unit :=
  fun w => (Ok tt, with_trace (trace w ++ [e])%list w).

Definition print (text : string) (values : list JSON) : M world unit :=
  log (Print text values).

Definition sleep (seconds : Z) : M world unit := log (Sleep seconds).

(** The next response of the service; the connection fails once the service
    has no more to say. *)
Definition next_response : M world response :=
  fun w => match network w with
           | [] => (Raise ConnectionError, w)
           | r :: rest => (Ok r, with_network rest w)
           end.

(** [requests.request("POST", url, json=body, cookies=sent)] *)
Definition requests_post (url : string) (body : JSON) (sent : list (string * string))
  : M world response :=
  log (Post url body sent) ;;; next_response.

(** [response.raise_for_status()] *)
Definition raise_for_status (r : response) : M world unit :=
  if ok r then ret tt else raise HTTPError.

(** [response.json()] *)
Definition response_json (r : response) : M world JSON :=
  match json r with
  | Some v => ret v
  | None => raise JSONDecodeError
  end.

(** [response.cookies[name]], for a jar with one cookie of a name at most.
    The [KeyError] of the jar names the cookie with its domain and path; the
    names the program asks for are written in single quotes by [repr]. *)
Fixpoint cookie (name : string) (jar : list (string * string)) : M world string :=
  match jar with
  | [] => raise (KeyError ("name='" ++ name ++ "', domain=None, path=None"))
  | (k, v) :: rest => if String.eqb k name then ret v else cookie name rest
  end.

(** ** NotionClient *)

Definition NOTION_API_ROOT : string := "https://www.notion.so/api/v3".

(** The dict [ask_otp] returns. *)
Record csrf_values : Type := {
  csrf_state : JSON;
  csrf_cookie : string
}.

Definition ask_otp (email : JSON) : M world csrf_values :=
  response <- requests_post (NOTION_API_ROOT ++ "/sendTemporaryPassword")
                (JObj [("email", email); ("disableLoginLink", JBool false);
                       ("native", JBool false); ("isSignup", JBool false)])
                [] ;;
  raise_for_status response ;;;
  json_response <- response_json response ;;
  state <- Json.getitem json_response "csrfState" ;;
  csrf <- cookie "csrf" (cookies response) ;;
  ret {| csrf_state := state; csrf_cookie := csrf |}.

Definition get_token (values : csrf_values) (otp : string) : M world string :=
  response <- requests_post (NOTION_API_ROOT ++ "/loginWithEmail")
                (JObj [("state", csrf_state values); ("password", JStr otp)])
                [("csrf", csrf_cookie values)] ;;
  raise_for_status response ;;;
  cookie "token_v2" (cookies response).

Definition _send_post_request (token path : string) (body : JSON) : M world JSON :=
  response <- requests_post (NOTION_API_ROOT ++ "/" ++ path) body [("token_v2", token)] ;;
  print "{response.request.body}" [body] ;;;
  raise_for_status response ;;;
  response_json response.

Definition launch_export_block_task (token space_id block_id : string) : M world JSON :=
  r <- _send_post_request token "enqueueTask"
         (JObj [("task",
            JObj [("eventName", JStr "exportBlock");
                  ("request",
                   JObj [("block", JObj [("id", JStr block_id); ("spaceId", JStr space_id)]);
                         ("recursive", JBool false);
                         ("exportOptions",
                          JObj [("exportType", JStr "html");
                                ("timeZone", JStr "America/New_York");
                                ("locale", JStr "en")])])])]) ;;
  Json.getitem r "taskId".

(** [lambda task_status: task_status["id"] == task_id] *)
Definition has_id (task_id : JSON) (task_status : JSON) : M world bool :=
  id <- Json.getitem task_status "id" ;;
  ret (Json.py_eq id task_id).

Definition get_user_task_status (token : string) (task_id : JSON) : M world JSON :=
  r <- _send_post_request token "getTasks" (JObj [("taskIds", JArr [task_id])]) ;;
  task_statuses <- Json.getitem r "results" ;;
  print "{task_statuses}" [task_statuses] ;;;
  items <- Json.iter task_statuses ;;
  matching <- Json.filter (has_id task_id) items ;;
  Fs.item0 matching.

Definition wait_time : Z := 3.

(** ["status" in task_status and task_status["status"]["type"] == "complete"] *)
Definition is_complete (task_status : JSON) : M world bool :=
  has_status <- Json.contains "status" task_status ;;
  if has_status then
    status <- Json.getitem task_status "status" ;;
    type <- Json.getitem status "type" ;;
    ret (Json.py_eq type (JStr "complete"))
  else ret false.

(** One turn of the [while True] loop of [download_page]: the task status on
    [break], nothing when the loop goes round again. *)
Definition poll_once (token : string) (task_id : JSON) : M world (option JSON) :=
  task_status <- get_user_task_status token task_id ;;
  complete <- is_complete task_status ;;
  if complete then ret (Some task_status)
  else
    print "...Export still in progress, waiting for {wait_time} seconds" [JNum wait_time] ;;;
    sleep wait_time ;;;
    ret None.

(** *** The loop ends

    Every turn takes one response off the network, so the loop ends when the
    task is complete, when something raises, or, at the latest, when the
    service stops answering. *)

Definition keeps_network {A} (c : M world A) : Prop :=
  forall w, network (snd (c w)) = network w.

Definition takes_response {A} (c : M world A) : Prop :=
  forall w a w', c w = (Ok a, w') -> S (List.length (network w')) = List.length (network w).

Create HintDb net discriminated.

Lemma keeps_ret {A} (a : A) : keeps_network (ret a).
Proof. intros w. reflexivity. Qed.

Lemma keeps_raise {A} (e : exn) : keeps_network (@raise world A e).
Proof. intros w. reflexivity. Qed.

Lemma keeps_log (e : event) : keeps_network (log e).
Proof. intros w. reflexivity. Qed.

Lemma keeps_bind {A B} (c : M world A) (k : A -> M world B) :
  keeps_network c -> (forall a, keeps_network (k a)) -> keeps_network (bind c k).
Proof.
  intros Hc Hk w. unfold bind. specialize (Hc w).
  destruct (c w) as [[a|e] w1]; cbn [snd] in *; [|exact Hc].
  rewrite (Hk a w1). exact Hc.
Qed.

Lemma keeps_if {A} (b : bool) (c1 c2 : M world A) :
  keeps_network c1 -> keeps_network c2 -> keeps_network (if b then c1 else c2).
Proof. destruct b; auto. Qed.

Lemma keeps_getitem (v : JSON) (key : string) : keeps_network (Json.getitem v key).
Proof.
  intros w. destruct v; try reflexivity.
  cbn. destruct (Json.lookup key members); reflexivity.
Qed.

Lemma keeps_contains (key : string) (v : JSON) : keeps_network (Json.contains key v).
Proof. intros w. destruct v; reflexivity. Qed.

Lemma keeps_iter (v : JSON) : keeps_network (Json.iter v).
Proof. intros w. destruct v; reflexivity. Qed.

Lemma keeps_item0 {A} (l : list A) : keeps_network (Fs.item0 l).
Proof. intros w. destruct l; reflexivity. Qed.

Lemma keeps_raise_for_status (r : response) : keeps_network (raise_for_status r).
Proof. intros w. unfold raise_for_status. destruct (ok r); reflexivity. Qed.

Lemma keeps_response_json (r : response) : keeps_network (response_json r).
Proof. intros w. unfold response_json. destruct (json r); reflexivity. Qed.

#[export] Hint Resolve keeps_ret keeps_raise keeps_log keeps_bind keeps_if keeps_getitem
  keeps_contains keeps_iter keeps_item0 keeps_raise_for_status keeps_response_json : net.

Lemma keeps_filter (f : JSON -> M world bool) (items : list JSON) :
  (forall x, keeps_network (f x)) -> keeps_network (Json.filter f items).
Proof.
  intros Hf. induction items as [|x rest IH]; cbn [Json.filter]; auto 6 with net.
Qed.

Lemma keeps_has_id (task_id x : JSON) : keeps_network (has_id task_id x).
Proof. unfold has_id. auto with net. Qed.

Lemma keeps_is_complete (task_status : JSON) : keeps_network (is_complete task_status).
Proof. unfold is_complete. auto 8 with net. Qed.

#[export] Hint Resolve keeps_filter keeps_has_id keeps_is_complete : net.

Lemma takes_requests_post (url : string) (body : JSON) (sent : list (string * string)) :
  takes_response (requests_post url body sent).
Proof.
  intros w a w'. unfold requests_post, bind, log, next_response. cbn [network with_trace].
  destruct (network w) as [|r rest]; [discriminate|].
  intros H. inversion H. reflexivity.
Qed.

Lemma takes_bind {A B} (c : M world A) (k : A -> M world B) :
  takes_response c -> (forall a, keeps_network (k a)) -> takes_response (bind c k).
Proof.
  intros Hc Hk w b w'. unfold bind.
  destruct (c w) as [[a|e] w1] eqn:E; [|discriminate].
  intros H. rewrite <- (Hc w a w1 E). f_equal.
  specialize (Hk a w1). rewrite H in Hk. cbn [snd] in Hk. now rewrite Hk.
Qed.

Lemma takes_poll_once (token : string) (task_id : JSON) :
  takes_response (poll_once token task_id).
Proof.
  unfold poll_once, get_user_task_status, _send_post_request, print, sleep.
  do 3 (apply takes_bind; [|intros; auto 8 with net]).
  apply takes_requests_post.
Qed.

(** The [while True] loop of [download_page], up to its [break]. *)
Equations? wait_until_complete (token : string) (task_id : JSON) (w : world)
  : result JSON * world by wf (List.length (network w)) lt :=
  wait_until_complete token task_id w with inspect (poll_once token task_id w) := {
    | exist _ (Ok (Some task_status), w') _ => (Ok task_status, w')
    | exist _ (Ok None, w') _ => wait_until_complete token task_id w'
    | exist _ (Raise e, w') _ => (Raise e, w') }.
Proof.
  match goal with H : poll_once _ _ _ = _ |- _ => apply takes_poll_once in H end.
  lia.
Qed.

(** Lines 114 to 124 of [download_page], the specification's
    [waitForCompletion]: the loop, and the link of the export it ends with. *)
Definition wait_for_completion (token : string) (task_id : JSON) : M world JSON :=
  task_status <- wait_until_complete token task_id ;;
  print "Export task is finished" [] ;;;
  print "{task_status}" [task_status] ;;;
  status <- Json.getitem task_status "status" ;;
  Json.getitem status "exportURL".

(** *** download_page *)

(** Run a computation on the temporary directory, or on the repository. *)
Definition in_tmp {A} (c : M directory A) : M world A :=
  fun w => let (r, d) := c (tmp w) in (r, with_tmp d w).

Definition in_repo {A} (c : M directory A) : M world A :=
  fun w => let (r, d) := c (repo w) in (r, with_repo d w).

(** Run a computation inside the subdirectory [name]. *)
Definition in_subdir {A} (name : string) (c : M directory A) : M directory A :=
  fun d => match Fs.lookup name d with
           | Some (Dir inner) =>
               let (r, inner') := c inner in (r, Fs.set name (Dir inner') d)
           | Some (File _) => (Raise (OSError NotADirectoryError), d)
           | None => (Raise (OSError FileNotFoundError), d)
           end.

(** [path.mkdir()] *)
Definition mkdir (name : string) : M directory unit :=
  d <- get ;;
  match Fs.lookup name d with
  | Some _ => raise (OSError FileExistsError)
  | None => put (Fs.set name (Dir []) d)
  end.

(** *** What [requests] makes of a URL

    Before anything is sent, [requests] prepares the URL and looks for a
    connection adapter.  A text with a colon that does not begin with [http]
    is left as it is, and finds no adapter.  Any other text is parsed: it
    needs a scheme (a letter, then letters, digits, [+] or [-], up to a
    colon) and, after [//], a host; and only the schemes [http] and [https]
    have an adapter.

    What the parser of [urllib3] rejects besides (an authority that is all
    user information or port, a port that is no number, a bracketed address
    that is no IPv6 address, a name that cannot be encoded for the DNS) is
    not modelled, nor are leading blanks other than the ASCII ones.  The
    theorems that need a request to be sent are stated for the URLs that are
    [plain], which have none of this; the others hold whether or not the
    request is sent. *)

Module Url.

Definition blank (c : ascii) : bool :=
  in_range 9 13 c || in_range 28 31 c || Ascii.eqb c " ".

Definition is_alpha (c : ascii) : bool := in_range 65 90 c || in_range 97 122 c.

Definition is_digit (c : ascii) : bool := in_range 48 57 c.

Definition scheme_char (c : ascii) : bool :=
  is_alpha c || is_digit c || Ascii.eqb c "+" || Ascii.eqb c "-".

(** The longest prefix of characters that satisfy [p], and the rest. *)
Fixpoint span (p : ascii -> bool) (s : string) : string * string :=
  match s with
  | EmptyString => (EmptyString, EmptyString)
  | String c s' =>
      if p c then let (a, b) := span p s' in (String c a, b)
      else (EmptyString, s)
  end.

(** The scheme of a URL and what follows its colon. *)
Definition scheme (u : string) : option (string * string) :=
  match u with
  | EmptyString => None
  | String c _ =>
      if is_alpha c then
        match span scheme_char u with
        | (s, String ":" rest) => Some (s, rest)
        | _ => None
        end
      else None
  end.

(** What ends the authority: a slash, a backslash, [?] or [#]. *)
Definition ends_authority (c : ascii) : bool :=
  Ascii.eqb c "/" || Ascii.eqb c "092" || Ascii.eqb c "?" || Ascii.eqb c "#".

(** After the colon of the scheme: [//], then an authority that is not
    empty and begins with neither [*] nor a dot. *)
Definition has_host (rest : string) : bool :=
  Str.startswith "//" rest
  && match fst (span (fun c => negb (ends_authority c)) (Str.drop 2 rest)) with
     | EmptyString => false
     | String c _ => negb (Ascii.eqb c "*" || Ascii.eqb c ".")
     end.

(** [Ok] when the request is sent. *)
Definition prepare (u : string) : result unit :=
  let u := Str.lstrip blank u in
  if Str.contains ":" u && negb (Str.startswith "http" (lower u)) then Raise InvalidSchema
  else
    match scheme u with
    | None => Raise MissingSchema
    | Some (s, rest) =>
        if negb (has_host rest) then Raise InvalidURL
        else if String.eqb (lower s) "http" || String.eqb (lower s) "https" then Ok tt
        else Raise InvalidSchema
    end.

(** Whether [str(v)] has a colon, for a value that is no string: the text
    of a dict with a member has one after each key. *)
Fixpoint repr_has_colon (v : JSON) : bool :=
  match v with
  | JStr s => Str.contains ":" s
  | JArr items =>
      (fix any (items : list JSON) : bool :=
         match items with
         | [] => false
         | x :: rest => repr_has_colon x || any rest
         end) items
  | JObj (_ :: _) => true
  | _ => false
  end.

(** What is not a string is made one with [str] first: [None], a number,
    [True] and [{}] have no scheme; a list or a dict with a colon in its
    text finds no adapter; a list without one has a bracket where the host
    should be. *)
Definition refusal (v : JSON) : exn :=
  match v with
  | JArr _ => if repr_has_colon v then InvalidSchema else InvalidURL
  | JObj (_ :: _) => InvalidSchema
  | _ => MissingSchema
  end.

(** The URLs that are sent whatever the version of the libraries: [http://]
    or [https://] in lower case, a host of lower-case letters, digits,
    hyphens and dots that begins with a letter or a digit, has no empty
    label and at most 63 characters, and then nothing, or a slash followed
    by letters, digits and the marks [-._~/%?=&+]. *)
Definition host_char (c : ascii) : bool :=
  in_range 97 122 c || is_digit c || Ascii.eqb c "-" || Ascii.eqb c ".".

Definition path_char (c : ascii) : bool :=
  is_alpha c || is_digit c
  || Ascii.eqb c "-" || Ascii.eqb c "." || Ascii.eqb c "_" || Ascii.eqb c "~"
  || Ascii.eqb c "/" || Ascii.eqb c "%" || Ascii.eqb c "?" || Ascii.eqb c "="
  || Ascii.eqb c "&" || Ascii.eqb c "+".

Definition plain_host (host : string) : bool :=
  match host with
  | EmptyString => false
  | String c _ => in_range 97 122 c || is_digit c
  end
  && negb (Str.contains ".." host)
  && negb (Str.endswith "." host)
  && Nat.leb (String.length host) 63.

Definition plain_rest (r : string) : bool :=
  let (host, path) := span host_char r in
  plain_host host
  && match path with
     | EmptyString => true
     | String c _ => Ascii.eqb c "/" && all_chars path_char path
     end.

Definition plain (u : string) : bool :=
  if Str.startswith "https://" u then plain_rest (Str.drop 8 u)
  else if Str.startswith "http://" u then plain_rest (Str.drop 7 u)
  else false.

End Url.

(** [requests.get(url, stream=True, allow_redirects=True)]: one [Get] event
    stands for the request and the redirections it follows. *)
Definition requests_get (url : JSON) : M world response :=
  match url with
  | JStr u =>
      match Url.prepare u with
      | Ok _ => log (Get u) ;;; next_response
      | Raise e => raise e
      end
  | _ => raise (Url.refusal url)
  end.

(** [ZipFile(export_file_name).extractall(zip_extract_dir)]: the members are
    written beneath the directory, which an archive without members does not
    create. *)
Definition extractall (r : response) (into : string) : M directory unit :=
  match archive r with
  | None => raise BadZipFile
  | Some [] => ret tt
  | Some members => d <- get ;; put (Fs.set into (Dir members) d)
  end.

(** Returns the name of the run's directory beneath the temporary directory;
    the extracted tree is its subdirectory [zip_extract].

    The name [export_<block_id>_<time>] is taken as the name of one entry of
    the temporary directory, which it is when it is an [Fs.entry_name]: for
    the block id [main] passes, the text of a UUID, and the time of the
    clock, digits and hyphens.  A block id with a slash or a NUL in it would
    make the name a path of several components, or no path; what becomes of
    the file system then is outside this model, and the theorems about the
    run's directory are stated for an [Fs.entry_name]. *)
Definition download_page (token space_id block_id : string) : M world string :=
  task_id <- launch_export_block_task token space_id block_id ;;
  export_link <- wait_for_completion token task_id ;;
  print "Downloading zip export from {export_link}" [export_link] ;;;
  w <- get ;;
  let tmp_dir := "export_" ++ block_id ++ "_" ++ clock w in
  in_tmp (mkdir tmp_dir) ;;;
  print "Downloading to: {export_file_name}" [JStr (tmp_dir ++ "/output.zip")] ;;;
  response <- requests_get export_link ;;
  in_tmp (in_subdir tmp_dir (Fs.write_bytes "output.zip" (content response))) ;;;
  in_tmp (in_subdir tmp_dir (extractall response "zip_extract")) ;;;
  ret tmp_dir.

(** ** uuid.UUID and load_notion_config *)

Module Uuid.

(** [_PyLong_DigitValue], for the digits below sixteen. *)
Definition hex_value (c : ascii) : option Z :=
  let n := Z.of_nat (nat_of_ascii c) in
  if in_range 48 57 c then Some (n - 48)%Z
  else if in_range 97 102 c then Some (n - 87)%Z
  else if in_range 65 70 c then Some (n - 55)%Z
  else None.

(** White space, as [int] skips it: the ASCII blanks and the four separators
    [\x1c] to [\x1f].  (A text with other Unicode blanks or digits is outside
    this model.) *)
Definition isspace (c : ascii) : bool :=
  in_range 9 13 c || in_range 28 31 c || Ascii.eqb c " ".

(** The digits of [long_from_binary_base]: digits and underscores, no two
    underscores in a row and none at the end.  Returns the value, the number
    of digits, and what follows them. *)
Fixpoint scan_digits (prev_underscore : bool) (acc : Z) (digits : nat) (s : string)
  : option (Z * nat * string) :=
  match s with
  | EmptyString => if prev_underscore then None else Some (acc, digits, s)
  | String c s' =>
      if Ascii.eqb c "_" then
        if prev_underscore then None else scan_digits true acc digits s'
      else
        match hex_value c with
        | Some v => scan_digits false (16 * acc + v)%Z (S digits) s'
        | None => if prev_underscore then None else Some (acc, digits, s)
        end
  end.

(** [int(s, 16)] *)
Definition int16 (s : string) : result Z :=
  let s := Str.lstrip isspace s in
  let negative := Str.startswith "-" s in
  let s := if Str.startswith "+" s || Str.startswith "-" s then Str.drop 1 s else s in
  let s :=
    if Str.startswith "0x" s || Str.startswith "0X" s then
      let s' := Str.drop 2 s in
      if Str.startswith "_" s' then Str.drop 1 s' else s'
    else s in
  if Str.startswith "_" s then Raise ValueError
  else
    match scan_digits false 0%Z 0 s with
    | None => Raise ValueError
    | Some (_, O, _) => Raise ValueError
    | Some (v, S _, rest) =>
        match Str.lstrip isspace rest with
        | EmptyString => Ok (if negative then (- v)%Z else v)
        | _ => Raise ValueError
        end
    end.

Definition brace (c : ascii) : bool := Ascii.eqb c "{" || Ascii.eqb c "}".

(** [uuid.UUID(hex)]: the 128-bit number. *)
Definition UUID (hex : string) : result Z :=
  let hex := Str.replace "uuid:" "" (Str.replace "urn:" "" hex) in
  let hex := Str.replace "-" "" (Str.strip brace hex) in
  if negb (Nat.eqb (String.length hex) 32) then Raise ValueError
  else
    match int16 hex with
    | Raise e => Raise e
    | Ok int =>
        if ((0 <=? int) && (int <? 2 ^ 128))%Z then Ok int else Raise ValueError
    end.

Definition hex_digit_lower (v : Z) : ascii :=
  if (v <? 10)%Z then ascii_of_nat (48 + Z.to_nat v) else ascii_of_nat (87 + Z.to_nat v).

(** The [n] low hexadecimal digits of [v], the highest first. *)
Fixpoint hex_digits (n : nat) (v : Z) : string :=
  match n with
  | O => EmptyString
  | S n' => hex_digits n' (v / 16)%Z ++ String (hex_digit_lower (v mod 16)%Z) EmptyString
  end.

(** How many hexadecimal digits a number from zero up takes. *)
Definition hex_width (v : Z) : nat :=
  if (v <=? 0)%Z then 1 else S (Z.to_nat (Z.log2 v / 4)).

(** ['%032x' % v] *)
Definition format_032x (v : Z) : string :=
  hex_digits (Nat.max 32 (hex_width v)) v.

(** [hex[:8]-hex[8:12]-hex[12:16]-hex[16:20]-hex[20:]] *)
Definition hyphenate (hex : string) : string :=
  Str.take 8 hex ++ "-" ++ Str.take 4 (Str.drop 8 hex) ++ "-"
  ++ Str.take 4 (Str.drop 12 hex) ++ "-" ++ Str.take 4 (Str.drop 16 hex) ++ "-"
  ++ Str.drop 20 hex.

(** [str(u)] *)
Definition str (int : Z) : string := hyphenate (format_032x int).

End Uuid.

(** [str(uuid.UUID(v))] for a value of the configuration: [UUID(None)] has no
    argument to build from, and what is no string has no [replace]. *)
Definition canonical_uuid (v : JSON) : M world string :=
  match v with
  | JStr hex =>
      match Uuid.UUID hex with
      | Ok int => ret (Uuid.str int)
      | Raise e => raise e
      end
  | JNull => raise TypeError
  | _ => raise AttributeError
  end.

(** [data[key] = v] *)
Definition setitem (data : JSON) (key : string) (v : JSON) : M world JSON :=
  match data with
  | JObj members => ret (JObj (Json.update key v members))
  | _ => raise TypeError
  end.

Definition load_notion_config : M world JSON :=
  w <- get ;;
  data <- lift_result (notion_config w) ;;
  space_id <- Json.getitem data "space_id" ;;
  space_id <- canonical_uuid space_id ;;
  data <- setitem data "space_id" (JStr space_id) ;;
  block_id <- Json.getitem data "block_id" ;;
  block_id <- canonical_uuid block_id ;;
  setitem data "block_id" (JStr block_id).

(** ** shutil.copytree(src, dst, dirs_exist_ok=True) *)

Module Shutil.

Definition failure : Type := (list string * os_error)%type.

Definition beneath (name : string) (f : failure) : failure :=
  (name :: fst f, snd f).

(** One entry of the source copied into the listing [dst] of the destination
    directory; the failures are collected and the copy goes on.
    - A file goes through [copy2]: onto the file of that name, or as a new
      file, or, when the destination of that name is a directory, into that
      directory under the same name.
    - A directory goes through [copytree]: [os.makedirs(exist_ok=True)]
      accepts a directory that exists and fails on a file, and the entries
      are copied in turn. *)
Fixpoint copy_entry (name : string) (x : node) (dst : directory) {struct x}
  : directory * list failure :=
  match x with
  | File text =>
      match Fs.lookup name dst with
      | Some (Dir inner) =>
          match Fs.lookup name inner with
          | Some (Dir _) => (dst, [([name], IsADirectoryError)])
          | _ => (Fs.set name (Dir (Fs.set name (File text) inner)) dst, [])
          end
      | _ => (Fs.set name (File text) dst, [])
      end
  | Dir entries =>
      let copy_entries :=
        fix copy_entries (entries : directory) (dst : directory) {struct entries}
          : directory * list failure :=
          match entries with
          | [] => (dst, [])
          | (n, y) :: rest =>
              let (dst1, errors1) := copy_entry n y dst in
              let (dst2, errors2) := copy_entries rest dst1 in
              (dst2, (errors1 ++ errors2)%list)
          end in
      match Fs.lookup name dst with
      | Some (File _) => (dst, [([name], FileExistsError)])
      | Some (Dir inner) =>
          let (inner', errors) := copy_entries entries inner in
          (Fs.set name (Dir inner') dst, map (beneath name) errors)
      | None =>
          let (inner', errors) := copy_entries entries [] in
          (Fs.set name (Dir inner') dst, map (beneath name) errors)
      end
  end.

(** The loop of [copytree] over the entries of the source. *)
Fixpoint copy_entries (entries : directory) (dst : directory) : directory * list failure :=
  match entries with
  | [] => (dst, [])
  | (n, y) :: rest =>
      let (dst1, errors1) := copy_entry n y dst in
      let (dst2, errors2) := copy_entries rest dst1 in
      (dst2, (errors1 ++ errors2)%list)
  end.

(** [copytree] onto a destination that exists: everything that can be copied
    is copied, and [shutil.Error] is raised at the end when something could
    not. *)
Definition copytree (src : directory) : M directory unit :=
  fun dst =>
    match copy_entries src dst with
    | (dst', []) => (Ok tt, dst')
    | (dst', errors) => (Raise (ShutilError errors), dst')
    end.

End Shutil.

(** ** main *)

(** [output_dir] as [main] holds it: the directory [zip_extract] of the run's
    temporary directory.  A directory that does not exist lists nothing. *)
Definition output_listing (tmp_dir : string) (w : world) : option directory :=
  match Fs.lookup tmp_dir (tmp w) with
  | Some (Dir run) =>
      match Fs.lookup "zip_extract" run with
      | Some (Dir d) => Some d
      | _ => None
      end
  | _ => None
  end.

(** [rewrite_html(output_dir)] *)
Definition rewrite_output (tmp_dir : string) : M world unit :=
  w <- get ;;
  match output_listing tmp_dir w with
  | Some _ => in_tmp (in_subdir tmp_dir (in_subdir "zip_extract" rewrite_html))
  | None => lift_result (fst (rewrite_html []))
  end.

(** [shutil.copytree(src=output_dir, dst=Path(__file__).parent, dirs_exist_ok=True)] *)
Definition publish (tmp_dir : string) : M world unit :=
  w <- get ;;
  match output_listing tmp_dir w with
  | Some src => in_repo (Shutil.copytree src)
  | None => raise (OSError FileNotFoundError)
  end.

(** [input(prompt)] *)
Definition input (prompt : string) : M world string :=
  log (Input prompt) ;;;
  fun w => match stdin w with
           | [] => (Raise EOFError, w)
           | line :: rest => (Ok line, with_stdin rest w)
           end.

(** [not token] for [token = os.getenv("NOTION_TOKEN")] *)
Definition not_token (token : option string) : bool :=
  match token with
  | None => true
  | Some t => String.eqb t ""
  end.

(** The values of the configuration that [main] passes on as strings: both
    ids are strings once [load_notion_config] has returned. *)
Definition as_str (v : JSON) : string :=
  match v with
  | JStr s => s
  | _ => ""
  end.

(** Lines 210 to 215 of [main]: without a token, log in and tell the operator
    to keep the token. *)
Definition obtain_token (config : JSON) : M world unit :=
  email <- Json.getitem config "email" ;;
  csrf_values <- ask_otp email ;;
  email <- Json.getitem config "email" ;;
  print "A one temporary password has been sent to your email address {config['email']}"
    [email] ;;;
  otp <- input "Temporary password: " ;;
  token <- get_token csrf_values otp ;;
  print ("Save this token as NOTION_TOKEN and re-run:" ++ nl
         ++ "export NOTION_TOKEN=" ++ quoted "{token}") [JStr token] ;;;
  ret tt.

(** Lines 217 to 226 of [main]: download, rewrite, publish. *)
Definition download_and_publish (config : JSON) (token : string) : M world unit :=
  space_id <- Json.getitem config "space_id" ;;
  block_id <- Json.getitem config "block_id" ;;
  output_dir <- download_page token (as_str space_id) (as_str block_id) ;;
  rewrite_output output_dir ;;;
  publish output_dir.

Definition main : M world unit :=
  config <- load_notion_config ;;
  w <- get ;;
  let token := NOTION_TOKEN w in
  if not_token token then obtain_token config
  else download_and_publish config (match token with Some t => t | None => "" end).

(** ** The vocabulary of the specification *)

(** A status response: it passes [raise_for_status] and its body is a dict
    whose [results] is the list [entries]. *)
Definition answers_with (r : response) (entries : list JSON) : Prop :=
  ok r = true
  /\ exists members, json r = Some (JObj members)
                     /\ Json.lookup "results" members = Some (JArr entries).

(** Whether an entry of a status response carries the id [task_id]; [None]
    for what carries no id at all. *)
Definition carries_id (task_id entry : JSON) : option bool :=
  match entry with
  | JObj members =>
      match Json.lookup "id" members with
      | Some id => Some (Json.py_eq id task_id)
      | None => None
      end
  | _ => None
  end.

(** [entry] is the first of [entries] that carries the id [task_id], in a
    batch where every entry carries an id. *)
Definition first_with_id (task_id : JSON) (entries : list JSON) (entry : JSON) : Prop :=
  exists before after,
    entries = (before ++ entry :: after)%list
    /\ Forall (fun e => carries_id task_id e = Some false) before
    /\ carries_id task_id entry = Some true
    /\ Forall (fun e => carries_id task_id e <> None) after.

(** [entry] is the first of [entries] that carries the id [task_id], as the
    specification speaks of it: nothing is asked of the other entries. *)
Definition first_match (task_id : JSON) (entries : list JSON) (entry : JSON) : Prop :=
  exists before after,
    entries = (before ++ entry :: after)%list
    /\ Forall (fun e => carries_id task_id e <> Some true) before
    /\ carries_id task_id entry = Some true.

(** The status type of an entry, when it has one. *)
Definition status_type (entry : JSON) (type : JSON) : Prop :=
  exists members status,
    entry = JObj members
    /\ Json.lookup "status" members = Some (JObj status)
    /\ Json.lookup "type" status = Some type.

(** The entry has no [status] key. *)
Definition lacks_status (entry : JSON) : Prop :=
  exists members, entry = JObj members /\ Json.lookup "status" members = None.

(** The export URL of an entry, when it has one. *)
Definition export_url (entry : JSON) (url : JSON) : Prop :=
  exists members status,
    entry = JObj members
    /\ Json.lookup "status" members = Some (JObj status)
    /\ Json.lookup "exportURL" status = Some url.

(** What one status poll does to the outside: the request, and the two
    prints of [_send_post_request] and [get_user_task_status]. *)
Definition poll_events (token : string) (task_id : JSON) (entries : list JSON) : list event :=
  [Post (NOTION_API_ROOT ++ "/" ++ "getTasks") (JObj [("taskIds", JArr [task_id])])
     [("token_v2", token)];
   Print "{response.request.body}" [JObj [("taskIds", JArr [task_id])]];
   Print "{task_statuses}" [JArr entries]].

Definition wait_events : list event :=
  [Print "...Export still in progress, waiting for {wait_time} seconds" [JNum wait_time];
   Sleep wait_time].

(** The sleeps of a trace, and the number of its status polls. *)
Definition sleeps (t : list event) : list Z :=
  flat_map (fun e => match e with Sleep s => [s] | _ => [] end) t.

Definition is_poll (e : event) : bool :=
  match e with
  | Post url _ _ => String.eqb url (NOTION_API_ROOT ++ "/" ++ "getTasks")
  | _ => false
  end.

Definition polls (t : list event) : nat := List.length (List.filter is_poll t).

(** The world once [events] have happened and the network has [rest] left. *)
Definition after (events : list event) (rest : list response) (w : world) : world :=
  with_network rest (with_trace (trace w ++ events)%list w).

(** *** The textual forms of a UUID

    Thirty-two hexadecimal digits, in either case, written with hyphens or
    without, bare, in braces, or after [urn:uuid:]. *)

Definition is_hex (c : ascii) : bool :=
  in_range 48 57 c || in_range 97 102 c || in_range 65 70 c.

Definition hex32 (h : string) : Prop :=
  String.length h = 32 /\ all_chars is_hex h = true.

(** [hyphenated h s]: [s] is [h] with hyphens put in. *)
Inductive hyphenated : string -> string -> Prop :=
| hyphenated_end : hyphenated "" ""
| hyphenated_digit c h s : hyphenated h s -> hyphenated (String c h) (String c s)
| hyphenated_hyphen h s : hyphenated h s -> hyphenated h (String "-" s).

Inductive uuid_form (h : string) : string -> Prop :=
| form_bare s : hyphenated h s -> uuid_form h s
| form_braces s : hyphenated h s -> uuid_form h ("{" ++ s ++ "}")
| form_urn s : hyphenated h s -> uuid_form h ("urn:uuid:" ++ s).

(** The canonical text of the UUID with the digits [h], as the
    specification has it: the digits in lower case, in groups of 8, 4, 4, 4
    and 12 with a hyphen between one group and the next. *)
Definition canonical (h : string) : string :=
  let digits := lower h in
  substring 0 8 digits ++ "-" ++ substring 8 4 digits ++ "-" ++ substring 12 4 digits
  ++ "-" ++ substring 16 4 digits ++ "-" ++ substring 20 12 digits.

(** The number the digits [h] denote, after [acc]. *)
Fixpoint hex_number (acc : Z) (h : string) : Z :=
  match h with
  | EmptyString => acc
  | String c h' =>
      hex_number (16 * acc + match Uuid.hex_value c with Some v => v | None => 0 end)%Z h'
  end.

(** *** Trees, for the publish step *)

(** The HTML files at the top of a directory, as the specification counts
    them: the files, not the directories, whose name ends in [.html]. *)
Definition html_files (d : directory) : list string :=
  map fst (filter (fun e => match snd e with
                            | File _ => Str.endswith ".html" (fst e)
                            | Dir _ => false
                            end) d).

(** The text of the file at a path, when the path leads to a file. *)
Fixpoint file_at (path : list string) (d : directory) : option string :=
  match path with
  | [] => None
  | name :: rest =>
      match Fs.lookup name d with
      | Some (File text) => match rest with [] => Some text | _ => None end
      | Some (Dir inner) => file_at rest inner
      | None => None
      end
  end.

(** The files of [upper] laid over those of [lower]. *)
Definition overlay (upper lower : option string) : option string :=
  match upper with
  | Some text => Some text
  | None => lower
  end.

(** The names a tree uses, at any depth. *)
Fixpoint names_in (x : node) : list string :=
  match x with
  | File _ => []
  | Dir entries =>
      (fix all (entries : directory) : list string :=
         match entries with
         | [] => []
         | (n, y) :: rest => n :: (names_in y ++ all rest)%list
         end) entries
  end.

Fixpoint all_names (entries : directory) : list string :=
  match entries with
  | [] => []
  | (n, y) :: rest => n :: (names_in y ++ all_names rest)%list
  end.

(** The name of the file a path leads to. *)
Definition basename (path : list string) : string := last path "".

Fixpoint distinct (names : list string) : bool :=
  match names with
  | [] => true
  | name :: rest => negb (existsb (String.eqb name) rest) && distinct rest
  end.

(** A tree as a file system holds it: no directory lists a name twice. *)
Fixpoint wf_node (x : node) : bool :=
  match x with
  | File _ => true
  | Dir entries =>
      distinct (Fs.names entries)
      && (fix all (entries : directory) : bool :=
            match entries with
            | [] => true
            | (_, y) :: rest => wf_node y && all rest
            end) entries
  end.

Fixpoint wf_entries (entries : directory) : bool :=
  match entries with
  | [] => true
  | (_, y) :: rest => wf_node y && wf_entries rest
  end.

Definition well_formed (d : directory) : bool := distinct (Fs.names d) && wf_entries d.

(** The destination holds no directory where the source has a file, and no
    file where the source has a directory. *)
Fixpoint compatible_node (name : string) (x : node) (dst : directory) {struct x} : bool :=
  match x with
  | File _ =>
      match Fs.lookup name dst with
      | Some (Dir _) => false
      | _ => true
      end
  | Dir entries =>
      match Fs.lookup name dst with
      | Some (File _) => false
      | Some (Dir inner) =>
          (fix all (entries : directory) : bool :=
             match entries with
             | [] => true
             | (n, y) :: rest => compatible_node n y inner && all rest
             end) entries
      | None => true
      end
  end.

Fixpoint compatible (entries dst : directory) : bool :=
  match entries with
  | [] => true
  | (n, y) :: rest => compatible_node n y dst && compatible rest dst
  end.

(** *** Events

    What the log-in may do to the outside: its two requests, prints, and the
    prompt.  The export requests ([enqueueTask], [getTasks]), the download
    and the sleeps of the polling loop are not among them. *)
Definition credential_event (e : event) : bool :=
  match e with
  | Post url _ _ =>
      String.eqb url (NOTION_API_ROOT ++ "/sendTemporaryPassword")
      || String.eqb url (NOTION_API_ROOT ++ "/loginWithEmail")
  | Print _ _ => true
  | Input _ => true
  | Get _ => false
  | Sleep _ => false
  end.

(** * Properties *)

(** ** The monad *)

Lemma bind_ok {S A B} (c : M S A) (k : A -> M S B) s a s' :
  c s = (Ok a, s') -> bind c k s = k a s'.
Proof. unfold bind. intros ->. reflexivity. Qed.

Lemma bind_raise {S A B} (c : M S A) (k : A -> M S B) s e s' :
  c s = (Raise e, s') -> bind c k s = (Raise e, s').
Proof. unfold bind. intros ->. reflexivity. Qed.

(** ** Strings *)

Module StrFacts.
Import Str.

Lemma length_append (a b : string) :
  String.length (a ++ b) = String.length a + String.length b.
Proof. induction a; simpl; congruence. Qed.

Lemma append_nil_r (a : string) : a ++ "" = a.
Proof. induction a; simpl; congruence. Qed.

Lemma append_assoc (a b c : string) : (a ++ b) ++ c = a ++ b ++ c.
Proof. induction a; simpl; congruence. Qed.

Lemma drop_append (a b : string) : drop (String.length a) (a ++ b) = b.
Proof. induction a; simpl; auto. Qed.

Lemma take_append (a b : string) : take (String.length a) (a ++ b) = a.
Proof. induction a; simpl; congruence. Qed.

Lemma startswith_append (p s : string) : startswith p (p ++ s) = true.
Proof.
  induction p as [|c p IH]; simpl; [reflexivity|].
  rewrite Ascii.eqb_refl. exact IH.
Qed.

Lemma startswith_split (p s : string) :
  startswith p s = true -> s = p ++ drop (String.length p) s.
Proof.
  revert s. induction p as [|c p IH]; intros [|b s]; simpl; try easy.
  intros H. apply andb_true_iff in H as [Hc Hp].
  apply Ascii.eqb_eq in Hc. subst b. f_equal. apply IH, Hp.
Qed.

(** A prefix of a text is a prefix of every extension of it. *)
Lemma startswith_extend (p a b : string) :
  startswith p a = true -> startswith p (a ++ b) = true.
Proof.
  revert a. induction p as [|c p IH]; intros [|x a]; simpl; try easy.
  intros H. apply andb_true_iff in H as [-> Hp]. simpl. apply IH, Hp.
Qed.

Lemma startswith_short (p s : string) :
  String.length s < String.length p -> startswith p s = false.
Proof.
  revert s. induction p as [|c p IH]; intros [|x s]; simpl; try lia; auto.
  intros H. rewrite IH by lia. apply andb_false_r.
Qed.

Lemma contains_short (p s : string) :
  String.length s < String.length p -> contains p s = false.
Proof.
  induction s as [|x s IH]; intros H.
  - simpl. rewrite startswith_short by exact H. destruct p; reflexivity.
  - cbn [contains]. rewrite startswith_short by exact H.
    simpl in H. rewrite IH by lia. reflexivity.
Qed.

Lemma init_last (s : string) :
  s <> "" -> exists c, s = slice_to_minus 1 s ++ String c "".
Proof.
  unfold slice_to_minus.
  induction s as [|x s IH]; [easy|]. intros _.
  destruct s as [|y s].
  - exists x. reflexivity.
  - destruct IH as [c Hc]; [easy|]. exists c.
    simpl in *. rewrite Nat.sub_0_r in Hc. rewrite <- Hc. reflexivity.
Qed.

Lemma length_init (s : string) :
  s <> "" -> String.length (slice_to_minus 1 s) < String.length s.
Proof.
  intros H. destruct (init_last s H) as [c Hc].
  rewrite Hc at 2. rewrite length_append. simpl. lia.
Qed.

(** [replace] meets the specification's reading of "every occurrence". *)
Lemma replace_nonempty_spec (o : ascii) (old' new s : string) :
  replaced_all (String o old') new s (replace_nonempty o old' new s).
Proof.
  funelim (replace_nonempty o old' new s).
  - apply replaced_none. reflexivity.
  - (* an occurrence starts here *)
    pose proof (startswith_split _ _ Heq) as Hs.
    change (drop (String.length (String o old')) (String c s'))
      with (drop (String.length old') s') in Hs.
    rewrite Hs at 1.
    apply (replaced_next (String o old') new "").
    + apply contains_short. apply length_init. easy.
    + assumption.
  - (* no occurrence starts here *)
    remember (replace_nonempty o old' new s') as r eqn:Hr.
    match goal with
    | IH : replaced_all _ _ _ r |- _ => destruct IH as [s Hn | p rest rest' Hp Hrest]
    end.
    + apply replaced_none. cbn [contains]. rewrite Heq, Hn. reflexivity.
    + apply (replaced_next (String o old') new (String c p)); [|assumption].
      change (String c p ++ slice_to_minus 1 (String o old'))
        with (String c (p ++ slice_to_minus 1 (String o old'))).
      cbn [contains]. rewrite Hp, orb_false_r.
      destruct (startswith (String o old') (String c (p ++ slice_to_minus 1 (String o old'))))
        eqn:Hsw; [|reflexivity].
      destruct (init_last (String o old')) as [z Hz]; [easy|].
      apply (startswith_extend _ _ (String z rest)) in Hsw.
      change (String c (p ++ slice_to_minus 1 (String o old')) ++ String z rest)
        with (String c ((p ++ slice_to_minus 1 (String o old')) ++ String z rest)) in Hsw.
      rewrite append_assoc in Hsw.
      change (slice_to_minus 1 (String o old') ++ String z rest)
        with (slice_to_minus 1 (String o old') ++ String z "" ++ rest) in Hsw.
      rewrite <- (append_assoc (slice_to_minus 1 (String o old'))), <- Hz in Hsw.
      exact (eq_trans (eq_sym Hsw) Heq).
Qed.

Lemma replace_spec (old new s : string) :
  old <> "" -> replaced_all old new s (replace old new s).
Proof.
  destruct old as [|o old']; [easy|]. intros _. apply replace_nonempty_spec.
Qed.

End StrFacts.

(** ** rewrite_html *)

Module RewriteFacts.
Import Str StrFacts.

Lemma endswith_append (s p : string) : endswith p (s ++ p) = true.
Proof.
  unfold endswith. rewrite length_append.
  replace (String.length s + String.length p - String.length p)
    with (String.length s) by lia.
  rewrite drop_append, String.eqb_refl.
  apply andb_true_iff. split; [apply Nat.leb_le; lia | reflexivity].
Qed.

Lemma slice_to_minus_append (s p : string) :
  slice_to_minus (String.length p) (s ++ p) = s.
Proof.
  unfold slice_to_minus. rewrite length_append.
  replace (String.length s + String.length p - String.length p)
    with (String.length s) by lia.
  apply take_append.
Qed.

Lemma eqb_append_self (s p : string) : p <> "" -> String.eqb (s ++ p) s = false.
Proof.
  intros Hp. apply String.eqb_neq. intros H.
  apply (f_equal String.length) in H. rewrite length_append in H.
  destruct p; [easy | simpl in H; lia].
Qed.

Lemma quote_nonempty (s : string) : s <> "" -> quote s <> "".
Proof.
  destruct s as [|c s]; [easy|]. intros _. simpl.
  destruct (always_safe c || Ascii.eqb c "/"); discriminate.
Qed.

Lemma append_inj_r (s a b : string) : s ++ a = s ++ b -> a = b.
Proof. induction s; simpl; intros H; [assumption | injection H; auto]. Qed.

Lemma append_inj_l (a b p : string) : a ++ p = b ++ p -> a = b.
Proof.
  intros H.
  rewrite <- (slice_to_minus_append a p), <- (slice_to_minus_append b p).
  congruence.
Qed.

End RewriteFacts.

(** C5, as the code has it.  What [rewrite_html] counts are the entries
    whose name matches [*.html], directories as well as files: when the
    directory lists no such entry, or two or more, [rewrite_html] raises at
    its assertion (the specification's [LayoutError]) and the directory is
    left as it was: nothing is rewritten or renamed. *)
Theorem rewrite_html_layout_error (d : directory) :
  List.length (filter (Str.endswith ".html") (Fs.names d)) <> 1 ->
  rewrite_html d = (Raise AssertionError, d).
Proof.
  intros H. unfold rewrite_html, Fs.glob_html, bind, get, ret. cbn beta iota.
  destruct (Nat.eqb_spec (List.length (filter (Str.endswith ".html") (Fs.names d))) 1)
    as [E|E]; [contradiction | reflexivity].
Qed.

Lemma rewrite_html_layout_error_witness :
  rewrite_html [("a.html", File "a"); ("b.html", File "b"); ("a", Dir [])]
  = (Raise AssertionError, [("a.html", File "a"); ("b.html", File "b"); ("a", Dir [])])
  /\ rewrite_html [("notes.txt", File "n")] = (Raise AssertionError, [("notes.txt", File "n")]).
Proof.
  split; apply rewrite_html_layout_error; simpl; lia.
Defined.

(** C5, as the specification states it, fails for a directory whose one
    entry matching [*.html] is itself a directory: it holds no HTML file,
    the assertion passes all the same, and what is raised is the
    [IsADirectoryError] of reading a directory, not the [LayoutError]. *)
Lemma rewrite_html_directory_called_html :
  let d := [("a.html", Dir []); ("a", Dir [])] in
  List.length (html_files d) = 0
  /\ rewrite_html d = (Raise (OSError IsADirectoryError), d)
  /\ fst (rewrite_html d) <> Raise AssertionError.
Proof.
  cbv zeta. split; [reflexivity|]. split; [reflexivity|]. discriminate.
Qed.

Section RewritePristine.
Import Str StrFacts RewriteFacts.

Variables (name text : string) (sub : directory).
Hypothesis Hvalid : Fs.valid_name name = true.
Hypothesis Hname : Utf8.valid name = true.
Hypothesis Htext : Utf8.valid text = true.
Hypothesis Hnohtml : endswith ".html" name = false.

Let page := name ++ ".html".

Lemma page_ends : endswith ".html" page = true.
Proof. apply endswith_append. Qed.

Lemma page_name : slice_to_minus 5 page = name.
Proof. apply (slice_to_minus_append name ".html"). Qed.

Lemma page_neq_name : String.eqb page name = false.
Proof. apply eqb_append_self. discriminate. Qed.

Lemma name_neq_page : String.eqb name page = false.
Proof. rewrite String.eqb_sym. apply page_neq_name. Qed.

Lemma name_not_dot : Fs.dot_name name = false.
Proof.
  unfold Fs.valid_name in Hvalid. apply andb_true_iff in Hvalid as [H _].
  now apply negb_true_iff in H.
Qed.

Lemma page_not_dot : Fs.dot_name page = false.
Proof.
  unfold Fs.dot_name.
  destruct (String.eqb_spec page "") as [E|_];
    [apply (f_equal (endswith ".html")) in E; rewrite page_ends in E; discriminate|].
  destruct (String.eqb_spec page ".") as [E|_];
    [apply (f_equal (endswith ".html")) in E; rewrite page_ends in E; discriminate|].
  destruct (String.eqb_spec page "..") as [E|_];
    [apply (f_equal (endswith ".html")) in E; rewrite page_ends in E; discriminate|].
  reflexivity.
Qed.

Lemma name_neq_index_html : String.eqb name "index.html" = false.
Proof.
  apply String.eqb_neq. intros E. rewrite E in Hnohtml. discriminate.
Qed.

Lemma page_neq_assets : String.eqb page "assets" = false.
Proof.
  apply String.eqb_neq. intros E.
  apply (f_equal (endswith ".html")) in E. rewrite page_ends in E. discriminate.
Qed.

Lemma page_eq_index : String.eqb page "index.html" = String.eqb name "index".
Proof.
  destruct (String.eqb_spec name "index") as [E|E].
  - unfold page. rewrite E. reflexivity.
  - apply String.eqb_neq. intros H. apply E.
    apply (append_inj_l name "index" ".html"). exact H.
Qed.

Lemma index_html_neq_name : String.eqb "index.html" name = false.
Proof. rewrite String.eqb_sym. apply name_neq_index_html. Qed.

Lemma assets_neq_page : String.eqb "assets" page = false.
Proof. rewrite String.eqb_sym. apply page_neq_assets. Qed.

Lemma index_eq_page : String.eqb "index.html" page = String.eqb name "index".
Proof. rewrite String.eqb_sym. apply page_eq_index. Qed.

Ltac eqb_closed :=
  repeat match goal with
    | |- context [String.eqb ?a ?b] =>
        let v := eval vm_compute in (String.eqb a b) in
        match v with
        | true => change (String.eqb a b) with true
        | false => change (String.eqb a b) with false
        end
    end.

Ltac fs_step := cbn -[String.eqb Utf8.valid universal_newlines rewritten_text].

Ltac fs_names :=
  repeat (progress (rewrite ?String.eqb_refl, ?page_neq_name, ?name_neq_page, ?page_not_dot,
           ?name_not_dot, ?page_name, ?page_eq_index, ?page_neq_assets,
           ?name_neq_index_html, ?index_html_neq_name, ?assets_neq_page, ?index_eq_page,
           ?Htext, ?Hname;
          eqb_closed; fs_step)).

Ltac fs_run :=
  unfold rewrite_html, Fs.glob_html, Fs.read_text, encodable, bind, get, ret;
  cbn beta iota; unfold Fs.names; cbn [map fst filter];
  fold page; rewrite page_ends, Hnohtml; fs_step; fs_names;
  destruct (String.eqb_spec name "index") as [Ei|Ei];
  [ unfold page; rewrite !Ei; fs_step; eqb_closed; fs_step
  | fs_step; fs_names; destruct (String.eqb_spec name "assets") as [Ea|Ea];
    [ rewrite !Ea; fs_step; eqb_closed; fs_step
    | apply String.eqb_neq in Ea; pose proof Ea as Ea'; rewrite String.eqb_sym in Ea';
      rewrite ?Ea, ?Ea'; fs_step; fs_names ] ].

Lemma rewrite_html_two_entries (d : directory) :
  Permutation d [(page, File text); (name, Dir sub)] ->
  exists d',
    rewrite_html d = (Ok tt, d')
    /\ Permutation d' [("index.html", File (rewritten_text name (universal_newlines text)));
                       ("assets", Dir sub)].
Proof.
  intros Hd. apply Permutation_sym, Permutation_length_2_inv in Hd.
  destruct Hd as [-> | ->]; fs_run.
  all: eexists; split; [reflexivity|]; try reflexivity; try apply perm_swap.
Qed.

Lemma page_gone (d' : directory) (x y : node) :
  name <> "index" ->
  Permutation d' [("index.html", x); ("assets", y)] ->
  Fs.lookup page d' = None.
Proof.
  intros Hi Hd. apply Permutation_sym, Permutation_length_2_inv in Hd.
  apply String.eqb_neq in Hi.
  destruct Hd as [-> | ->]; cbn -[String.eqb];
    now rewrite index_eq_page, Hi, assets_neq_page.
Qed.

End RewritePristine.

Lemma glob_one_html (name : string) (d : directory) (x y : node) :
  Permutation d [(name ++ ".html", x); (name, y)] ->
  fst (Fs.glob_html d) = Ok [name ++ ".html"] ->
  Str.endswith ".html" name = false.
Proof.
  intros Hd. apply Permutation_sym, Permutation_length_2_inv in Hd.
  unfold Fs.glob_html, bind, get, ret, Fs.names. cbn beta iota.
  destruct (Str.endswith ".html" name) eqn:E; [|reflexivity].
  destruct Hd as [-> | ->]; cbn [map fst filter];
    rewrite E, RewriteFacts.endswith_append; cbn; intros H; inversion H.
Qed.

(** C1, as the code has it.  A directory that lists exactly the page
    [name.html], the only entry matching [*.html], and the directory [name],
    where the bytes of the page are UTF-8 text and so is the name, is
    rewritten without error into a directory listing exactly [index.html]
    and [assets]: the new text is the text of the page as it is read (every
    line ending a line feed) with every occurrence of the percent-encoded
    [name] replaced by [assets], followed by the stylesheet tag and the
    favicon block; [assets] is the former directory [name]; and, unless the
    page is itself called [index], no entry [name.html] is left. *)
Theorem rewrite_html_pristine_export (name text : string) (sub d : directory) :
  Fs.valid_name name = true ->
  Utf8.valid name = true ->
  Utf8.valid text = true ->
  Permutation d [(name ++ ".html", File text); (name, Dir sub)] ->
  fst (Fs.glob_html d) = Ok [name ++ ".html"] ->
  exists body d',
    rewrite_html d = (Ok tt, d')
    /\ Permutation d' [("index.html", File ((body ++ stylesheet_tag) ++ favicon_tags));
                       ("assets", Dir sub)]
    /\ replaced_all (quote name) "assets" (Str.universal_newlines text) body
    /\ (name <> "index" -> Fs.lookup (name ++ ".html") d' = None).
Proof.
  intros Hvalid Hname Htext Hd Hglob.
  pose proof (glob_one_html _ _ _ _ Hd Hglob) as Hnohtml.
  destruct (rewrite_html_two_entries name text sub Hvalid Hname Htext Hnohtml d Hd)
    as (d' & Hrun & Hd').
  exists (Str.replace (quote name) "assets" (Str.universal_newlines text)), d'.
  split; [exact Hrun|]. split; [exact Hd'|]. split.
  - apply StrFacts.replace_spec. apply RewriteFacts.quote_nonempty.
    intros ->. discriminate Hvalid.
  - intros Hi. eapply page_gone; eassumption.
Qed.

(** The page of the witness has a line that ends in a carriage return and a
    line feed, and a letter of two bytes. *)
Definition sample_page : string :=
  "<img src=page-abc123/a.png>" ++ String "013" (String "010" "")
  ++ "<p>caf" ++ String "195" (String "169" "</p>").

Lemma rewrite_html_pristine_export_witness :
  exists body d',
    rewrite_html [("page-abc123.html", File sample_page);
                  ("page-abc123", Dir [("a.png", File "png")])] = (Ok tt, d')
    /\ Permutation d' [("index.html", File ((body ++ stylesheet_tag) ++ favicon_tags));
                       ("assets", Dir [("a.png", File "png")])]
    /\ replaced_all (quote "page-abc123") "assets" (Str.universal_newlines sample_page) body
    /\ Fs.lookup ("page-abc123" ++ ".html") d' = None.
Proof.
  destruct (rewrite_html_pristine_export "page-abc123" sample_page
              [("a.png", File "png")]
              [("page-abc123.html", File sample_page);
               ("page-abc123", Dir [("a.png", File "png")])])
    as (body & d' & Hrun & Hd' & Hbody & Hgone); try reflexivity.
  exists body, d'. repeat split; try assumption. apply Hgone. discriminate.
Defined.

(** C1, as the specification states it, fails for a page called [index]: the
    directory holds exactly [index.html], the only match of [*.html], and the
    directory [index]; the rewrite succeeds, and an entry [name.html], here
    [index.html], is still listed. *)
Lemma rewrite_html_index_page_remains :
  let d := [("index.html", File "<img src=index/a.png>");
            ("index", Dir [("a.png", File "png")])] in
  Fs.valid_name "index" = true
  /\ fst (Fs.glob_html d) = Ok ["index" ++ ".html"]
  /\ exists d', rewrite_html d = (Ok tt, d')
                /\ Fs.lookup ("index" ++ ".html") d' <> None.
Proof.
  cbv zeta. split; [reflexivity|]. split; [reflexivity|].
  eexists. split; [vm_compute; reflexivity|]. vm_compute. discriminate.
Qed.

(** ** The export job client *)

Module PollFacts.

Lemma world_eq (a b : world) :
  NOTION_TOKEN a = NOTION_TOKEN b -> notion_config a = notion_config b ->
  stdin a = stdin b -> network a = network b -> clock a = clock b ->
  tmp a = tmp b -> repo a = repo b -> trace a = trace b -> a = b.
Proof. destruct a, b; cbn; intros; subst; reflexivity. Qed.

Lemma after_after (e1 e2 : list event) (n1 n2 : list response) (w : world) :
  after e2 n2 (after e1 n1 w) = after (e1 ++ e2) n2 w.
Proof. apply world_eq; cbn; try reflexivity. symmetry. apply app_assoc. Qed.

Lemma py_eq_str (v : JSON) (s : string) : Json.py_eq v (JStr s) = true <-> v = JStr s.
Proof.
  destruct v as [|b|n|t|items|members]; cbn; try (split; discriminate).
  rewrite String.eqb_eq. split; [intros -> | intros H; inversion H]; reflexivity.
Qed.

(** One status poll, up to the filter. *)
Lemma get_user_task_status_run token task_id w r rest entries :
  network w = r :: rest ->
  answers_with r entries ->
  get_user_task_status token task_id w
  = bind (Json.filter (has_id task_id) entries) Fs.item0
      (after (poll_events token task_id entries) rest w).
Proof.
  intros Hn (Hok & members & Hj & Hres).
  unfold get_user_task_status, _send_post_request, requests_post, print.
  unfold bind at 1 2 3 4 5 6 7 8 9. unfold log at 1, next_response. cbn [network with_trace].
  rewrite Hn. unfold log at 1. unfold raise_for_status. rewrite Hok.
  unfold response_json. rewrite Hj. cbn [ret Json.getitem]. rewrite Hres.
  cbn [ret log Json.iter].
  unfold bind.
  match goal with
  | |- context [Json.filter _ _ ?a] =>
      replace a with (after (poll_events token task_id entries) rest w); [reflexivity|]
  end.
  apply world_eq; cbn; try reflexivity.
  rewrite <- !app_assoc. reflexivity.
Qed.

(** The filter keeps the entries that carry the id, when all carry one. *)
Lemma filter_has_id task_id entries (w : world) :
  Forall (fun e => carries_id task_id e <> None) entries ->
  Json.filter (has_id task_id) entries w
  = (Ok (List.filter (fun e => match carries_id task_id e with
                               | Some true => true
                               | _ => false
                               end) entries), w).
Proof.
  induction 1 as [|e entries He _ IH]; [reflexivity|].
  cbn [Json.filter List.filter]. unfold bind at 1. unfold has_id at 1.
  unfold carries_id in He |- *.
  destruct e as [| | | | |members]; try congruence.
  cbn [Json.getitem]. destruct (Json.lookup "id" members) as [id|]; [|congruence].
  unfold bind at 1. cbn [ret]. unfold bind at 1. rewrite IH.
  destruct (Json.py_eq id task_id); reflexivity.
Qed.

Lemma first_with_id_all task_id entries entry :
  first_with_id task_id entries entry ->
  Forall (fun e => carries_id task_id e <> None) entries.
Proof.
  intros (before & after & -> & Hb & He & Ha).
  apply Forall_app. split.
  - eapply Forall_impl; [|exact Hb]. cbn. intros a ->. discriminate.
  - constructor; [rewrite He; discriminate | exact Ha].
Qed.

Lemma first_with_id_filter task_id entries entry :
  first_with_id task_id entries entry ->
  exists more,
    List.filter (fun e => match carries_id task_id e with
                          | Some true => true
                          | _ => false
                          end) entries = entry :: more.
Proof.
  intros (before & after & -> & Hb & He & _).
  rewrite filter_app. cbn [List.filter]. rewrite He.
  induction Hb as [|b before Hb _ IH]; cbn [List.filter app]; [eauto|].
  rewrite Hb. exact IH.
Qed.

(** The poll returns the first entry that carries the id. *)
Lemma get_user_task_status_first token task_id w r rest entries entry :
  network w = r :: rest ->
  answers_with r entries ->
  first_with_id task_id entries entry ->
  get_user_task_status token task_id w
  = (Ok entry, after (poll_events token task_id entries) rest w).
Proof.
  intros Hn Hr Hf.
  rewrite (get_user_task_status_run _ _ _ _ _ _ Hn Hr).
  unfold bind. rewrite (filter_has_id _ _ _ (first_with_id_all _ _ _ Hf)).
  destruct (first_with_id_filter _ _ _ Hf) as [more ->]. reflexivity.
Qed.

Lemma contains_key_lookup (key : string) (members : list (string * JSON)) :
  existsb (fun m => String.eqb (fst m) key) members
  = match Json.lookup key members with Some _ => true | None => false end.
Proof.
  induction members as [|[k v] rest IH]; [reflexivity|].
  cbn. destruct (String.eqb k key); [reflexivity | exact IH].
Qed.

Lemma is_complete_lacks_status entry (w : world) :
  lacks_status entry -> is_complete entry w = (Ok false, w).
Proof.
  intros (members & -> & Hs). unfold is_complete, bind. cbn [Json.contains ret].
  rewrite contains_key_lookup, Hs. reflexivity.
Qed.

Lemma is_complete_status_type entry type (w : world) :
  status_type entry type ->
  is_complete entry w = (Ok (Json.py_eq type (JStr "complete")), w).
Proof.
  intros (members & status & -> & Hs & Ht). unfold is_complete, bind.
  cbn [Json.contains ret]. rewrite contains_key_lookup, Hs.
  cbn [Json.getitem]. rewrite Hs. cbn [ret Json.getitem]. rewrite Ht. reflexivity.
Qed.

(** A turn of the loop that finds the task complete ends the loop. *)
Lemma poll_once_break token task_id w r rest entries entry :
  network w = r :: rest ->
  answers_with r entries ->
  first_with_id task_id entries entry ->
  status_type entry (JStr "complete") ->
  poll_once token task_id w
  = (Ok (Some entry), after (poll_events token task_id entries) rest w).
Proof.
  intros Hn Hr Hf Ht. unfold poll_once. unfold bind at 1.
  rewrite (get_user_task_status_first _ _ _ _ _ _ _ Hn Hr Hf).
  unfold bind at 1. rewrite (is_complete_status_type _ _ _ Ht). reflexivity.
Qed.

(** A turn of the loop that finds the task without status, or with another
    status type than [complete], prints, sleeps, and lets the loop go on. *)
Lemma poll_once_again token task_id w r rest entries entry :
  network w = r :: rest ->
  answers_with r entries ->
  first_with_id task_id entries entry ->
  lacks_status entry \/ (exists type, status_type entry type /\ type <> JStr "complete") ->
  poll_once token task_id w
  = (Ok None, after (poll_events token task_id entries ++ wait_events) rest w).
Proof.
  intros Hn Hr Hf Hs. unfold poll_once. unfold bind at 1.
  rewrite (get_user_task_status_first _ _ _ _ _ _ _ Hn Hr Hf).
  unfold bind at 1.
  assert (is_complete entry (after (poll_events token task_id entries) rest w)
          = (Ok false, after (poll_events token task_id entries) rest w)) as ->.
  { destruct Hs as [Hs | (type & Ht & Hne)].
    - apply is_complete_lacks_status, Hs.
    - rewrite (is_complete_status_type _ _ _ Ht). f_equal. f_equal.
      destruct (Json.py_eq type (JStr "complete")) eqn:E; [|reflexivity].
      apply py_eq_str in E. contradiction. }
  unfold print, sleep, bind, log, ret. f_equal.
  apply world_eq; cbn; try reflexivity.
  rewrite <- !app_assoc. reflexivity.
Qed.

(** The loop, one turn at a time. *)
Lemma wait_until_complete_unfold token task_id w :
  wait_until_complete token task_id w
  = match poll_once token task_id w with
    | (Ok (Some task_status), w') => (Ok task_status, w')
    | (Ok None, w') => wait_until_complete token task_id w'
    | (Raise e, w') => (Raise e, w')
    end.
Proof.
  funelim (wait_until_complete token task_id w);
    match goal with E : poll_once _ _ _ = _ |- _ => rewrite E end; reflexivity.
Qed.




Lemma wait_until_complete_break token task_id w r rest entries entry :
  network w = r :: rest ->
  answers_with r entries ->
  first_with_id task_id entries entry ->
  status_type entry (JStr "complete") ->
  wait_until_complete token task_id w
  = (Ok entry, after (poll_events token task_id entries) rest w).
Proof.
  intros Hn Hr Hf Ht. rewrite wait_until_complete_unfold.
  rewrite (poll_once_break _ _ _ _ _ _ _ Hn Hr Hf Ht). reflexivity.
Qed.

Lemma wait_until_complete_again token task_id w r rest entries entry :
  network w = r :: rest ->
  answers_with r entries ->
  first_with_id task_id entries entry ->
  lacks_status entry \/ (exists type, status_type entry type /\ type <> JStr "complete") ->
  wait_until_complete token task_id w
  = wait_until_complete token task_id
      (after (poll_events token task_id entries ++ wait_events) rest w).
Proof.
  intros Hn Hr Hf Hs. rewrite wait_until_complete_unfold.
  rewrite (poll_once_again _ _ _ _ _ _ _ Hn Hr Hf Hs). reflexivity.
Qed.

(** What follows the loop in [wait_for_completion]. *)
Lemma wait_for_completion_link token task_id w entry url events rest :
  wait_until_complete token task_id w = (Ok entry, after events rest w) ->
  export_url entry url ->
  wait_for_completion token task_id w
  = (Ok url, after (events ++ [Print "Export task is finished" [];
                               Print "{task_status}" [entry]]) rest w).
Proof.
  intros Hw (members & status & -> & Hs & Hu).
  unfold wait_for_completion. unfold bind at 1. rewrite Hw.
  unfold print, bind, log. cbn [Json.getitem]. rewrite Hs. cbn [ret Json.getitem].
  rewrite Hu. unfold ret. f_equal.
  apply world_eq; cbn; try reflexivity.
  rewrite <- !app_assoc. reflexivity.
Qed.

(** **** Only a complete task ends the loop *)

Lemma is_complete_true task_status (w w' : world) :
  is_complete task_status w = (Ok true, w') ->
  status_type task_status (JStr "complete").
Proof.
  unfold is_complete, bind.
  destruct task_status as [| | |s|items|members]; cbn [Json.contains ret raise];
    try discriminate.
  - destruct (Str.contains "status" s); cbn; discriminate.
  - destruct (existsb _ items); cbn; discriminate.
  - rewrite contains_key_lookup. cbn [Json.getitem].
    destruct (Json.lookup "status" members) as [status|] eqn:Hs; [|discriminate].
    cbn [ret].
    destruct status as [| | | | |status]; cbn [Json.getitem raise]; try discriminate.
    destruct (Json.lookup "type" status) as [type|] eqn:Ht; cbn [ret raise];
      [|discriminate].
    intros H. inversion H as [[Heq Hw]]. apply py_eq_str in Heq. subst type.
    exists members, status. auto.
Qed.

Lemma poll_once_some token task_id (w w' : world) task_status :
  poll_once token task_id w = (Ok (Some task_status), w') ->
  status_type task_status (JStr "complete").
Proof.
  unfold poll_once. unfold bind at 1.
  destruct (get_user_task_status token task_id w) as [[ts|e] w1]; [|discriminate].
  unfold bind at 1.
  destruct (is_complete ts w1) as [[[|]|e] w2] eqn:Hc; try discriminate.
  cbn [ret]. intros H. inversion H. subst. eapply is_complete_true, Hc.
Qed.

Lemma wait_until_complete_only_complete token task_id w :
  forall task_status w',
    wait_until_complete token task_id w = (Ok task_status, w') ->
    status_type task_status (JStr "complete").
Proof.
  funelim (wait_until_complete token task_id w); intros ts w1 Hres.
  - inversion Hres. subst. eapply poll_once_some. eassumption.
  - eauto.
  - discriminate.
Qed.

(** **** The trace only grows *)

Definition grows {A} (c : M world A) : Prop :=
  forall w, exists more, trace (snd (c w)) = (trace w ++ more)%list.

Lemma grows_ret {A} (a : A) : grows (ret a).
Proof. intros w. exists []. cbn. now rewrite app_nil_r. Qed.

Lemma grows_raise {A} (e : exn) : grows (@raise world A e).
Proof. intros w. exists []. cbn. now rewrite app_nil_r. Qed.

Lemma grows_log (e : event) : grows (log e).
Proof. intros w. exists [e]. reflexivity. Qed.

Lemma grows_next_response : grows next_response.
Proof.
  intros w. exists []. unfold next_response.
  destruct (network w); cbn; now rewrite app_nil_r.
Qed.

Lemma grows_bind {A B} (c : M world A) (k : A -> M world B) :
  grows c -> (forall a, grows (k a)) -> grows (bind c k).
Proof.
  intros Hc Hk w. unfold bind. destruct (Hc w) as [m1 H1].
  destruct (c w) as [[a|e] w1]; cbn [snd] in *; [|eauto].
  destruct (Hk a w1) as [m2 H2]. exists (m1 ++ m2)%list.
  rewrite H2, H1. symmetry. apply app_assoc.
Qed.

Lemma grows_keeps_world {A} (c : M world A) :
  (forall w, snd (c w) = w) -> grows c.
Proof. intros H w. exists []. now rewrite H, app_nil_r. Qed.

Lemma grows_getitem (v : JSON) (key : string) : grows (Json.getitem v key).
Proof.
  apply grows_keeps_world. intros w. destruct v; try reflexivity.
  cbn. destruct (Json.lookup key members); reflexivity.
Qed.

Lemma grows_contains (key : string) (v : JSON) : grows (Json.contains key v).
Proof. apply grows_keeps_world. intros w. destruct v; reflexivity. Qed.

Lemma grows_iter (v : JSON) : grows (Json.iter v).
Proof. apply grows_keeps_world. intros w. destruct v; reflexivity. Qed.

Lemma grows_item0 {A} (l : list A) : grows (Fs.item0 l).
Proof. apply grows_keeps_world. intros w. destruct l; reflexivity. Qed.

Lemma grows_raise_for_status (r : response) : grows (raise_for_status r).
Proof.
  apply grows_keeps_world. intros w. unfold raise_for_status.
  destruct (ok r); reflexivity.
Qed.

Lemma grows_response_json (r : response) : grows (response_json r).
Proof.
  apply grows_keeps_world. intros w. unfold response_json.
  destruct (json r); reflexivity.
Qed.

Lemma grows_if {A} (b : bool) (c1 c2 : M world A) :
  grows c1 -> grows c2 -> grows (if b then c1 else c2).
Proof. destruct b; auto. Qed.

Create HintDb grow discriminated.
#[local] Hint Resolve grows_ret grows_raise grows_log grows_next_response grows_bind
  grows_getitem grows_contains grows_iter grows_item0 grows_raise_for_status
  grows_response_json grows_if : grow.

Lemma grows_filter (f : JSON -> M world bool) (items : list JSON) :
  (forall x, grows (f x)) -> grows (Json.filter f items).
Proof.
  intros Hf. induction items as [|x rest IH]; cbn [Json.filter]; auto 6 with grow.
Qed.

Lemma grows_has_id (task_id x : JSON) : grows (has_id task_id x).
Proof. unfold has_id. auto with grow. Qed.

Lemma grows_is_complete (task_status : JSON) : grows (is_complete task_status).
Proof. unfold is_complete. auto 8 with grow. Qed.

#[local] Hint Resolve grows_filter grows_has_id grows_is_complete : grow.

(** What a turn of the loop does once its request is logged. *)
Definition poll_answer (task_id : JSON) : M world (option JSON) :=
  task_status <-
    (r <- (response <- next_response ;;
           print "{response.request.body}" [JObj [("taskIds", JArr [task_id])]] ;;;
           raise_for_status response ;;;
           response_json response) ;;
     task_statuses <- Json.getitem r "results" ;;
     print "{task_statuses}" [task_statuses] ;;;
     items <- Json.iter task_statuses ;;
     matching <- Json.filter (has_id task_id) items ;;
     Fs.item0 matching) ;;
  complete <- is_complete task_status ;;
  if complete then ret (Some task_status)
  else
    print "...Export still in progress, waiting for {wait_time} seconds" [JNum wait_time] ;;;
    sleep wait_time ;;;
    ret None.

Definition poll_request (token : string) (task_id : JSON) : event :=
  Post (NOTION_API_ROOT ++ "/" ++ "getTasks") (JObj [("taskIds", JArr [task_id])])
    [("token_v2", token)].

Lemma poll_once_request token task_id w :
  poll_once token task_id w
  = poll_answer task_id (with_trace (trace w ++ [poll_request token task_id]) w).
Proof. reflexivity. Qed.

Lemma grows_poll_answer task_id : grows (poll_answer task_id).
Proof. unfold poll_answer, print, sleep. auto 12 with grow. Qed.

(** Every turn of the loop, and so the loop, begins with a status request. *)
Lemma poll_once_posts token task_id w :
  exists more,
    trace (snd (poll_once token task_id w))
    = (trace w ++ poll_request token task_id :: more)%list.
Proof.
  rewrite poll_once_request.
  destruct (grows_poll_answer task_id
              (with_trace (trace w ++ [poll_request token task_id]) w)) as [more H].
  exists more. rewrite H. cbn. rewrite <- app_assoc. reflexivity.
Qed.

Lemma grows_wait_until_complete token task_id :
  grows (wait_until_complete token task_id).
Proof.
  intros w. funelim (wait_until_complete token task_id w);
    destruct (poll_once_posts token task_id w) as [m1 Hm1];
    match goal with E : poll_once _ _ _ = _ |- _ => rewrite E in Hm1 end;
    cbn [snd] in Hm1; eauto.
  match goal with IH : exists _, _ |- _ => destruct IH as [m2 Hm2] end.
  rewrite Hm2, Hm1. rewrite <- app_assoc. eauto.
Qed.

Lemma wait_until_complete_posts token task_id w :
  exists more,
    trace (snd (wait_until_complete token task_id w))
    = (trace w ++ poll_request token task_id :: more)%list.
Proof.
  rewrite wait_until_complete_unfold.
  destruct (poll_once_posts token task_id w) as [m1 H1].
  destruct (poll_once token task_id w) as [[[ts|]|e] w1]; cbn [snd] in *; eauto.
  destruct (grows_wait_until_complete token task_id w1) as [m2 H2].
  rewrite H2, H1. rewrite <- app_assoc. cbn. eauto.
Qed.

Lemma filter_all_other task_id entries :
  Forall (fun e => carries_id task_id e = Some false) entries ->
  List.filter (fun e => match carries_id task_id e with
                        | Some true => true
                        | _ => false
                        end) entries = [].
Proof.
  induction 1 as [|x entries Hx _ IH]; [reflexivity|].
  cbn [List.filter]. rewrite Hx. exact IH.
Qed.

End PollFacts.


Definition sample_world (responses : list response) : world :=
  {| NOTION_TOKEN := Some "secret"; notion_config := Raise JSONDecodeError; stdin := [];
     network := responses; clock := "2024-01-01-00-00-00"; tmp := []; repo := []; trace := [] |}.

Definition status_response (entries : list JSON) : response :=
  {| ok := true; json := Some (JObj [("results", JArr entries)]); cookies := [];
     content := ""; archive := None |}.

Definition task_entry (id type : string) : JSON :=
  JObj [("id", JStr id);
        ("status", JObj [("type", JStr type); ("exportURL", JStr ("https://files/" ++ id))])].

Lemma answers_with_status_response entries : answers_with (status_response entries) entries.
Proof. split; [reflexivity|]. eexists. split; reflexivity. Qed.


(** C10, as the code has it.  When every entry of the status response is a
    dict with an [id], and several of them carry the target id,
    [get_user_task_status] returns the first of these in the order of the
    list. *)
Theorem get_user_task_status_first_match token task_id w r rest before entry after_it :
  network w = r :: rest ->
  answers_with r (before ++ entry :: after_it) ->
  Forall (fun e => carries_id task_id e = Some false) before ->
  carries_id task_id entry = Some true ->
  Forall (fun e => carries_id task_id e <> None) after_it ->
  get_user_task_status token task_id w
  = (Ok entry, after (poll_events token task_id (before ++ entry :: after_it)) rest w).
Proof.
  intros Hn Hr Hb He Ha.
  apply (PollFacts.get_user_task_status_first _ _ _ _ _ _ _ Hn Hr).
  exists before, after_it. auto.
Qed.

Lemma get_user_task_status_first_match_witness :
  get_user_task_status "secret" (JStr "t1")
    (sample_world [status_response [task_entry "t0" "x"; task_entry "t1" "pending";
                                    task_entry "t1" "complete"]])
  = (Ok (task_entry "t1" "pending"),
     after (poll_events "secret" (JStr "t1")
              ([task_entry "t0" "x"] ++ task_entry "t1" "pending" :: [task_entry "t1" "complete"]))
       [] (sample_world [status_response [task_entry "t0" "x"; task_entry "t1" "pending";
                                          task_entry "t1" "complete"]])).
Proof.
  apply (get_user_task_status_first_match "secret" (JStr "t1") _
           (status_response [task_entry "t0" "x"; task_entry "t1" "pending";
                             task_entry "t1" "complete"]) []
           [task_entry "t0" "x"] (task_entry "t1" "pending") [task_entry "t1" "complete"]).
  - reflexivity.
  - apply answers_with_status_response.
  - repeat constructor.
  - reflexivity.
  - repeat constructor. discriminate.
Defined.

(** C10, as the specification states it, fails when the batch holds, beside
    two entries with the target id, an entry that is no dict: the filter
    looks at every entry before the first match is taken, and the [null]
    raises [TypeError]. *)
Lemma get_user_task_status_match_then_null :
  let entries := [task_entry "t1" "pending"; task_entry "t1" "complete"; JNull] in
  let w := sample_world [status_response entries] in
  first_match (JStr "t1") entries (task_entry "t1" "pending")
  /\ carries_id (JStr "t1") (task_entry "t1" "complete") = Some true
  /\ get_user_task_status "secret" (JStr "t1") w
     = (Raise TypeError, after (poll_events "secret" (JStr "t1") entries) [] w).
Proof.
  cbv zeta. split; [|split; reflexivity].
  exists [], [task_entry "t1" "complete"; JNull]. repeat split. constructor.
Qed.

(** C2, as the code has it.  When every entry of the first status response
    is a dict with an [id], and the entry that carries the target id (the
    first to carry it, should there be more) has the status type [complete]
    and an export URL, whatever it is, [wait_for_completion] returns that
    URL after one poll and no sleep. *)
Theorem wait_for_completion_first_poll token task_id w r rest entries entry url :
  network w = r :: rest ->
  answers_with r entries ->
  first_with_id task_id entries entry ->
  status_type entry (JStr "complete") ->
  export_url entry url ->
  exists events,
    wait_for_completion token task_id w = (Ok url, after events rest w)
    /\ polls events = 1
    /\ sleeps events = [].
Proof.
  intros Hn Hr Hf Ht Hu.
  pose proof (PollFacts.wait_until_complete_break token _ _ _ _ _ _ Hn Hr Hf Ht) as Hw.
  eexists. split; [exact (PollFacts.wait_for_completion_link _ _ _ _ _ _ _ Hw Hu)|].
  split; reflexivity.
Qed.

Lemma status_type_task_entry id type : status_type (task_entry id type) (JStr type).
Proof. eexists _, _. repeat split. Qed.

Lemma export_url_task_entry id type :
  export_url (task_entry id type) (JStr ("https://files/" ++ id)).
Proof. eexists _, _. repeat split. Qed.

Lemma first_with_id_single id type :
  first_with_id (JStr id) [task_entry id type] (task_entry id type).
Proof.
  exists [], []. repeat split; try constructor.
  cbn. now rewrite String.eqb_refl.
Qed.

Lemma wait_for_completion_first_poll_witness :
  exists events,
    wait_for_completion "secret" (JStr "t1")
      (sample_world [status_response [task_entry "t1" "complete"]])
    = (Ok (JStr "https://files/t1"),
       after events [] (sample_world [status_response [task_entry "t1" "complete"]]))
    /\ polls events = 1
    /\ sleeps events = [].
Proof.
  apply (wait_for_completion_first_poll "secret" (JStr "t1") _
           (status_response [task_entry "t1" "complete"]) []
           [task_entry "t1" "complete"] (task_entry "t1" "complete")).
  - reflexivity.
  - apply answers_with_status_response.
  - apply first_with_id_single.
  - apply status_type_task_entry.
  - apply (export_url_task_entry "t1" "complete").
Defined.

(** C2, as the specification states it, fails when the batch holds, beside
    the one entry with the target id, complete and with its export URL, an
    entry without [id]: the poll raises [KeyError] and no URL is returned. *)
Lemma wait_for_completion_entry_without_id :
  let entries := [task_entry "t1" "complete"; JObj [("error", JStr "gone")]] in
  let w := sample_world [status_response entries] in
  first_match (JStr "t1") entries (task_entry "t1" "complete")
  /\ carries_id (JStr "t1") (JObj [("error", JStr "gone")]) <> Some true
  /\ status_type (task_entry "t1" "complete") (JStr "complete")
  /\ export_url (task_entry "t1" "complete") (JStr "https://files/t1")
  /\ wait_for_completion "secret" (JStr "t1") w
     = (Raise (KeyError "id"), after (poll_events "secret" (JStr "t1") entries) [] w).
Proof.
  cbv zeta. split; [|split; [discriminate|split; [|split]]].
  - exists [], [JObj [("error", JStr "gone")]]. repeat split. constructor.
  - apply status_type_task_entry.
  - apply (export_url_task_entry "t1" "complete").
  - unfold wait_for_completion. unfold bind at 1.
    rewrite PollFacts.wait_until_complete_unfold. reflexivity.
Qed.

(** C3, as the code has it.  When every entry of the first four status
    responses is a dict with an [id], and the target id comes with status
    type [pending] in the first three and with [complete] in the fourth,
    [wait_for_completion] returns the export URL after four polls and three
    sleeps, each of three seconds. *)
Theorem wait_for_completion_three_pending token task_id w rest
    r1 r2 r3 r4 entries1 entries2 entries3 entries4 entry1 entry2 entry3 entry4 url :
  network w = r1 :: r2 :: r3 :: r4 :: rest ->
  answers_with r1 entries1 -> first_with_id task_id entries1 entry1 ->
  status_type entry1 (JStr "pending") ->
  answers_with r2 entries2 -> first_with_id task_id entries2 entry2 ->
  status_type entry2 (JStr "pending") ->
  answers_with r3 entries3 -> first_with_id task_id entries3 entry3 ->
  status_type entry3 (JStr "pending") ->
  answers_with r4 entries4 -> first_with_id task_id entries4 entry4 ->
  status_type entry4 (JStr "complete") ->
  export_url entry4 url ->
  exists events,
    wait_for_completion token task_id w = (Ok url, after events rest w)
    /\ polls events = 4
    /\ sleeps events = [3; 3; 3]%Z.
Proof.
  intros Hn Hr1 Hf1 Ht1 Hr2 Hf2 Ht2 Hr3 Hf3 Ht3 Hr4 Hf4 Ht4 Hu.
  assert (Hp : forall e, status_type e (JStr "pending") ->
                 lacks_status e \/ (exists type, status_type e type /\ type <> JStr "complete")).
  { intros e He. right. exists (JStr "pending"). split; [exact He | discriminate]. }
  assert (Hw : wait_until_complete token task_id w
               = (Ok entry4,
                  after ((poll_events token task_id entries1 ++ wait_events)
                         ++ (poll_events token task_id entries2 ++ wait_events)
                         ++ (poll_events token task_id entries3 ++ wait_events)
                         ++ poll_events token task_id entries4) rest w)).
  { rewrite (PollFacts.wait_until_complete_again token _ _ _ _ _ _ Hn Hr1 Hf1 (Hp _ Ht1)).
    erewrite PollFacts.wait_until_complete_again;
      [| reflexivity | exact Hr2 | exact Hf2 | exact (Hp _ Ht2)].
    erewrite PollFacts.wait_until_complete_again;
      [| reflexivity | exact Hr3 | exact Hf3 | exact (Hp _ Ht3)].
    erewrite PollFacts.wait_until_complete_break;
      [| reflexivity | exact Hr4 | exact Hf4 | exact Ht4].
    rewrite !PollFacts.after_after. reflexivity. }
  eexists. split; [exact (PollFacts.wait_for_completion_link _ _ _ _ _ _ _ Hw Hu)|].
  split; reflexivity.
Qed.

Lemma wait_for_completion_three_pending_witness :
  exists events,
    wait_for_completion "secret" (JStr "t1")
      (sample_world [status_response [task_entry "t1" "pending"];
                     status_response [task_entry "t1" "pending"];
                     status_response [task_entry "t1" "pending"];
                     status_response [task_entry "t1" "complete"]])
    = (Ok (JStr "https://files/t1"),
       after events []
         (sample_world [status_response [task_entry "t1" "pending"];
                        status_response [task_entry "t1" "pending"];
                        status_response [task_entry "t1" "pending"];
                        status_response [task_entry "t1" "complete"]]))
    /\ polls events = 4
    /\ sleeps events = [3; 3; 3]%Z.
Proof.
  apply (wait_for_completion_three_pending "secret" (JStr "t1") _ []
           (status_response [task_entry "t1" "pending"])
           (status_response [task_entry "t1" "pending"])
           (status_response [task_entry "t1" "pending"])
           (status_response [task_entry "t1" "complete"])
           [task_entry "t1" "pending"] [task_entry "t1" "pending"]
           [task_entry "t1" "pending"] [task_entry "t1" "complete"]
           (task_entry "t1" "pending") (task_entry "t1" "pending")
           (task_entry "t1" "pending") (task_entry "t1" "complete"));
    first [ reflexivity
          | apply answers_with_status_response
          | apply first_with_id_single
          | apply status_type_task_entry
          | apply (export_url_task_entry "t1" "complete") ].
Defined.

(** C3, as the specification states it, fails when a response that holds
    the target id with status type [pending] also holds an entry without
    [id]: the first poll raises [KeyError], and there is no sleep and no
    second poll. *)
Lemma wait_for_completion_pending_without_id :
  let first := [task_entry "t1" "pending"; JObj [("error", JStr "gone")]] in
  let later := [status_response [task_entry "t1" "pending"];
                status_response [task_entry "t1" "pending"];
                status_response [task_entry "t1" "complete"]] in
  let w := sample_world (status_response first :: later) in
  first_match (JStr "t1") first (task_entry "t1" "pending")
  /\ status_type (task_entry "t1" "pending") (JStr "pending")
  /\ wait_for_completion "secret" (JStr "t1") w
     = (Raise (KeyError "id"), after (poll_events "secret" (JStr "t1") first) later w)
  /\ sleeps (trace (snd (wait_for_completion "secret" (JStr "t1") w))) = []
  /\ polls (trace (snd (wait_for_completion "secret" (JStr "t1") w))) = 1.
Proof.
  cbv zeta.
  assert (Hrun : forall first later,
             first = [task_entry "t1" "pending"; JObj [("error", JStr "gone")]] ->
             wait_for_completion "secret" (JStr "t1")
               (sample_world (status_response first :: later))
             = (Raise (KeyError "id"),
                after (poll_events "secret" (JStr "t1") first) later
                  (sample_world (status_response first :: later)))).
  { intros first later ->. unfold wait_for_completion. unfold bind at 1.
    rewrite PollFacts.wait_until_complete_unfold. reflexivity. }
  split; [|split; [apply status_type_task_entry|]].
  - exists [], [JObj [("error", JStr "gone")]]. repeat split. constructor.
  - rewrite (Hrun _ _ eq_refl). repeat split.
Qed.

(** C9, as the code has it.  When every entry of the status response is a
    dict with an [id], and the entry that carries the target id has no
    [status] key, or has a status type other than [complete], the turn of
    the loop raises nothing: it prints, sleeps for [wait_time] seconds, and
    the loop goes round, beginning with a new status request.  The loop
    hands over a task status only when its status type is [complete]. *)
Theorem loop_goes_on_unless_complete token task_id w r rest entries entry :
  network w = r :: rest ->
  answers_with r entries ->
  first_with_id task_id entries entry ->
  lacks_status entry \/ (exists type, status_type entry type /\ type <> JStr "complete") ->
  let w1 := after (poll_events token task_id entries ++ wait_events) rest w in
  poll_once token task_id w = (Ok None, w1)
  /\ wait_until_complete token task_id w = wait_until_complete token task_id w1
  /\ (exists more,
        trace (snd (wait_until_complete token task_id w))
        = (trace w ++ (poll_events token task_id entries ++ wait_events)
             ++ PollFacts.poll_request token task_id :: more)%list)
  /\ (forall task_status w',
        wait_until_complete token task_id w = (Ok task_status, w') ->
        status_type task_status (JStr "complete")).
Proof.
  intros Hn Hr Hf Hs w1.
  pose proof (PollFacts.wait_until_complete_again token _ _ _ _ _ _ Hn Hr Hf Hs) as Hagain.
  fold w1 in Hagain.
  split; [exact (PollFacts.poll_once_again token _ _ _ _ _ _ Hn Hr Hf Hs)|].
  split; [exact Hagain|]. split.
  - rewrite Hagain.
    destruct (PollFacts.wait_until_complete_posts token task_id w1) as [more Hmore].
    exists more. rewrite Hmore. unfold w1. cbn [after trace with_network with_trace].
    rewrite <- !app_assoc. reflexivity.
  - apply PollFacts.wait_until_complete_only_complete.
Qed.

Lemma loop_goes_on_unless_complete_witness :
  let entries := [JObj [("id", JStr "t1")]] in
  let w := sample_world [status_response entries; status_response [task_entry "t1" "complete"]] in
  let w1 := after (poll_events "secret" (JStr "t1") entries ++ wait_events)
              [status_response [task_entry "t1" "complete"]] w in
  poll_once "secret" (JStr "t1") w = (Ok None, w1)
  /\ wait_until_complete "secret" (JStr "t1") w = wait_until_complete "secret" (JStr "t1") w1
  /\ (exists more,
        trace (snd (wait_until_complete "secret" (JStr "t1") w))
        = (trace w ++ (poll_events "secret" (JStr "t1") entries ++ wait_events)
             ++ PollFacts.poll_request "secret" (JStr "t1") :: more)%list)
  /\ (forall task_status w',
        wait_until_complete "secret" (JStr "t1") w = (Ok task_status, w') ->
        status_type task_status (JStr "complete")).
Proof.
  intros entries w.
  apply (loop_goes_on_unless_complete "secret" (JStr "t1") w (status_response entries)
           [status_response [task_entry "t1" "complete"]] entries (JObj [("id", JStr "t1")])).
  - reflexivity.
  - apply answers_with_status_response.
  - exists [], []. repeat split; constructor.
  - left. eexists. split; reflexivity.
Defined.

(** C9, as the specification states it, fails when the batch holds, beside
    the entry with the target id and no [status], an entry without [id]:
    the turn raises [KeyError], and the loop neither sleeps nor polls
    again. *)
Lemma loop_stops_on_entry_without_id :
  let entries := [JObj [("id", JStr "t1")]; JObj [("error", JStr "gone")]] in
  let later := [status_response [task_entry "t1" "complete"]] in
  let w := sample_world (status_response entries :: later) in
  first_match (JStr "t1") entries (JObj [("id", JStr "t1")])
  /\ lacks_status (JObj [("id", JStr "t1")])
  /\ wait_until_complete "secret" (JStr "t1") w
     = (Raise (KeyError "id"), after (poll_events "secret" (JStr "t1") entries) later w)
  /\ sleeps (poll_events "secret" (JStr "t1") entries) = []
  /\ polls (poll_events "secret" (JStr "t1") entries) = 1.
Proof.
  cbv zeta. split; [|split; [|split; [|split; reflexivity]]].
  - exists [], [JObj [("error", JStr "gone")]]. repeat split. constructor.
  - eexists. split; reflexivity.
  - rewrite PollFacts.wait_until_complete_unfold. reflexivity.
Qed.

(** ** UUIDs *)

Module UuidFacts.
Import Str StrFacts.

Lemma replace_here o old' new c s' :
  startswith (String o old') (String c s') = true ->
  replace_nonempty o old' new (String c s')
  = new ++ replace_nonempty o old' new (drop (String.length old') s').
Proof.
  intros H. funelim (replace_nonempty o old' new (String c s')); congruence.
Qed.

Lemma replace_skip o old' new c s' :
  startswith (String o old') (String c s') = false ->
  replace_nonempty o old' new (String c s')
  = String c (replace_nonempty o old' new s').
Proof.
  intros H. funelim (replace_nonempty o old' new (String c s')); congruence.
Qed.

(** A text without the first character of the pattern is left as it is. *)
Lemma replace_absent o old' new s :
  all_chars (fun c => negb (Ascii.eqb o c)) s = true ->
  replace_nonempty o old' new s = s.
Proof.
  induction s as [|c s IH]; intros H.
  - now simp replace_nonempty.
  - cbn in H. apply andb_true_iff in H as [Hc Hs].
    rewrite replace_skip; [now rewrite IH|].
    cbn [startswith]. apply negb_true_iff in Hc. now rewrite Hc.
Qed.

(** What holds of every hexadecimal digit, checked on each of the 256
    characters. *)
Definition digit_checks (c : ascii) : bool :=
  implb (is_hex c)
    (match Uuid.hex_value c with
     | Some d =>
         ((0 <=? d)%Z && (d <? 16)%Z
          && Ascii.eqb (Uuid.hex_digit_lower d) (lower_char c)
          && negb (Uuid.isspace c) && negb (Uuid.brace c)
          && negb (Ascii.eqb c "+") && negb (Ascii.eqb c "-") && negb (Ascii.eqb c "_")
          && negb (Ascii.eqb c "x") && negb (Ascii.eqb c "X") && negb (Ascii.eqb c "u"))%bool
     | None => false
     end).

Lemma digit_checks_all (c : ascii) : digit_checks c = true.
Proof.
  destruct c as [b0 b1 b2 b3 b4 b5 b6 b7].
  destruct b0, b1, b2, b3, b4, b5, b6, b7; reflexivity.
Qed.

Record digit_facts (c : ascii) (d : Z) : Prop := {
  digit_value : Uuid.hex_value c = Some d;
  digit_range : (0 <= d < 16)%Z;
  digit_lower : Uuid.hex_digit_lower d = lower_char c;
  digit_not_space : Uuid.isspace c = false;
  digit_not_brace : Uuid.brace c = false;
  digit_not_plus : Ascii.eqb c "+" = false;
  digit_not_minus : Ascii.eqb c "-" = false;
  digit_not_underscore : Ascii.eqb c "_" = false;
  digit_not_x : Ascii.eqb c "x" = false;
  digit_not_X : Ascii.eqb c "X" = false;
  digit_not_u : Ascii.eqb c "u" = false
}.

Lemma is_hex_facts (c : ascii) : is_hex c = true -> exists d, digit_facts c d.
Proof.
  intros H. pose proof (digit_checks_all c) as Hc. unfold digit_checks in Hc.
  rewrite H in Hc. cbn [implb] in Hc.
  destruct (Uuid.hex_value c) as [d|] eqn:Hv; [|discriminate].
  repeat (apply andb_true_iff in Hc as [Hc ?]).
  exists d. constructor; try assumption;
    try (apply negb_true_iff; assumption).
  - split; [apply Z.leb_le | apply Z.ltb_lt]; assumption.
  - apply Ascii.eqb_eq. assumption.
Qed.

(** The characters of a hyphenated text: digits and hyphens. *)
Definition plain (c : ascii) : bool := is_hex c || Ascii.eqb c "-".

Lemma hyphenated_plain h s :
  hyphenated h s -> all_chars is_hex h = true -> all_chars plain s = true.
Proof.
  induction 1 as [|c h s _ IH|h s _ IH]; cbn; intros Hh; [reflexivity| |].
  - apply andb_true_iff in Hh as [Hc Hh]. unfold plain at 1. rewrite Hc. cbn. auto.
  - auto.
Qed.

Lemma all_chars_impl (p q : ascii -> bool) s :
  (forall c, p c = true -> q c = true) -> all_chars p s = true -> all_chars q s = true.
Proof.
  intros Hpq. induction s as [|c s IH]; cbn; [reflexivity|].
  intros H. apply andb_true_iff in H as [Hc Hs]. rewrite (Hpq c Hc). cbn. auto.
Qed.

Lemma all_chars_append p a b :
  all_chars p (a ++ b) = all_chars p a && all_chars p b.
Proof. induction a as [|c a IH]; cbn; [reflexivity|]. now rewrite IH, andb_assoc. Qed.

Lemma plain_not_u c : plain c = true -> negb (Ascii.eqb "u" c) = true.
Proof.
  unfold plain. intros H. apply orb_true_iff in H as [H | H].
  - destruct (is_hex_facts c H) as [d F]. rewrite Ascii.eqb_sym.
    now rewrite (digit_not_u _ _ F).
  - apply Ascii.eqb_eq in H. subst c. reflexivity.
Qed.

Lemma plain_not_brace c : plain c = true -> negb (Uuid.brace c) = true.
Proof.
  unfold plain. intros H. apply orb_true_iff in H as [H | H].
  - destruct (is_hex_facts c H) as [d F]. now rewrite (digit_not_brace _ _ F).
  - apply Ascii.eqb_eq in H. subst c. reflexivity.
Qed.

Lemma lstrip_none chars s :
  all_chars (fun c => negb (chars c)) s = true -> lstrip chars s = s.
Proof.
  destruct s as [|c s]; cbn; [reflexivity|].
  intros H. apply andb_true_iff in H as [Hc _].
  apply negb_true_iff in Hc. now rewrite Hc.
Qed.

Lemma rstrip_none chars s :
  all_chars (fun c => negb (chars c)) s = true -> rstrip chars s = s.
Proof.
  induction s as [|c s IH]; cbn; [reflexivity|].
  intros H. apply andb_true_iff in H as [Hc Hs]. rewrite (IH Hs).
  apply negb_true_iff in Hc. rewrite Hc. destruct s; reflexivity.
Qed.

Lemma rstrip_last chars s z :
  all_chars (fun c => negb (chars c)) s = true -> chars z = true ->
  rstrip chars (s ++ String z "") = s.
Proof.
  intros Hs Hz. induction s as [|c s IH]; cbn.
  - now rewrite Hz.
  - cbn in Hs. apply andb_true_iff in Hs as [Hc Hs]. rewrite (IH Hs).
    apply negb_true_iff in Hc. rewrite Hc. destruct s; reflexivity.
Qed.

Lemma strip_none chars s :
  all_chars (fun c => negb (chars c)) s = true -> strip chars s = s.
Proof. intros H. unfold strip. now rewrite lstrip_none, rstrip_none. Qed.

Lemma strip_braces s :
  all_chars (fun c => negb (Uuid.brace c)) s = true ->
  strip Uuid.brace ("{" ++ s ++ "}") = s.
Proof.
  intros H. unfold strip. cbn [append lstrip]. change (Uuid.brace "{") with true. cbn iota.
  destruct s as [|c s]; [reflexivity|].
  pose proof H as H'. cbn in H'. apply andb_true_iff in H' as [Hc _].
  apply negb_true_iff in Hc. cbn [append lstrip]. rewrite Hc.
  now apply (rstrip_last Uuid.brace (String c s) "}").
Qed.

(** Taking the hyphens out gives the digits back. *)
Lemma replace_hyphens h s :
  hyphenated h s -> all_chars is_hex h = true -> Str.replace "-" "" s = h.
Proof.
  unfold Str.replace.
  induction 1 as [|c h s _ IH|h s _ IH]; intros Hh.
  - now simp replace_nonempty.
  - cbn in Hh. apply andb_true_iff in Hh as [Hc Hh].
    destruct (is_hex_facts c Hc) as [d F].
    rewrite replace_skip; [now rewrite IH|].
    cbn [startswith]. rewrite Ascii.eqb_sym. now rewrite (digit_not_minus _ _ F).
  - rewrite replace_here by reflexivity. cbn. auto.
Qed.

(** [UUID] first takes [urn:] and [uuid:] out. *)
Lemma replace_urn_uuid h s :
  all_chars is_hex h = true ->
  uuid_form h s ->
  exists d, hyphenated h d
            /\ strip Uuid.brace (Str.replace "uuid:" "" (Str.replace "urn:" "" s)) = d.
Proof.
  intros Hh Hs. unfold Str.replace.
  destruct Hs as [d Hd | d Hd | d Hd]; exists d; (split; [exact Hd|]);
    pose proof (hyphenated_plain _ _ Hd Hh) as Hp;
    pose proof (all_chars_impl _ _ _ plain_not_u Hp) as Hu;
    pose proof (all_chars_impl _ _ _ plain_not_brace Hp) as Hb.
  - rewrite (replace_absent "u" "rn:" "" d Hu), (replace_absent "u" "uid:" "" d Hu).
    now apply strip_none.
  - assert (Hu' : all_chars (fun c => negb (Ascii.eqb "u" c)) ("{" ++ d ++ "}") = true)
      by (cbn [append all_chars]; rewrite all_chars_append, Hu; reflexivity).
    rewrite (replace_absent "u" "rn:" "" _ Hu'), (replace_absent "u" "uid:" "" _ Hu').
    now apply strip_braces.
  - cbn [append]. rewrite replace_here by reflexivity. cbn [drop String.length append].
    rewrite (replace_skip "u" "rn:" "" "u"
               (String "u" (String "i" (String "d" (String ":" d))))) by reflexivity.
    rewrite (replace_skip "u" "rn:" "" "u"
               (String "i" (String "d" (String ":" d)))) by reflexivity.
    rewrite (replace_absent "u" "rn:" "" (String "i" (String "d" (String ":" d))))
      by (cbn [all_chars]; rewrite Hu; reflexivity).
    rewrite replace_here by reflexivity. cbn [drop String.length append].
    rewrite (replace_absent "u" "uid:" "" d Hu). now apply strip_none.
Qed.

(** [int(h, 16)] on digits. *)
Lemma scan_hex h :
  all_chars is_hex h = true ->
  forall acc n,
    Uuid.scan_digits false acc n h = Some (hex_number acc h, n + String.length h, "").
Proof.
  induction h as [|c h IH]; intros Hh acc n.
  - cbn. now rewrite Nat.add_0_r.
  - cbn in Hh. apply andb_true_iff in Hh as [Hc Hh].
    destruct (is_hex_facts c Hc) as [d F].
    cbn [Uuid.scan_digits hex_number String.length].
    rewrite (digit_not_underscore _ _ F), (digit_value _ _ F).
    rewrite (IH Hh). now rewrite Nat.add_succ_r.
Qed.

Lemma startswith_char (a c : ascii) (h : string) :
  startswith (String a "") (String c h) = Ascii.eqb a c.
Proof. cbn. apply andb_true_r. Qed.

(** No digit follows a first digit as the [x] of a [0x] prefix does. *)
Lemma startswith_0x (x : ascii) (h : string) :
  Ascii.eqb x "x" = true \/ Ascii.eqb x "X" = true ->
  all_chars is_hex h = true ->
  startswith (String "0" (String x "")) h = false.
Proof.
  intros Hx Hh. destruct h as [|c [|b h]]; [reflexivity| |].
  - cbn. apply andb_false_r.
  - cbn in Hh. apply andb_true_iff in Hh as [_ Hh]. apply andb_true_iff in Hh as [Hb _].
    destruct (is_hex_facts b Hb) as [e G]. cbn [startswith].
    replace (Ascii.eqb x b) with false; [now rewrite andb_false_r|].
    destruct Hx as [Hx | Hx]; apply Ascii.eqb_eq in Hx; subst x; rewrite Ascii.eqb_sym;
      symmetry; [apply (digit_not_x _ _ G) | apply (digit_not_X _ _ G)].
Qed.

Lemma int16_hex h :
  h <> "" -> all_chars is_hex h = true -> Uuid.int16 h = Ok (hex_number 0 h).
Proof.
  intros Hne Hh. destruct h as [|c h]; [easy|].
  pose proof Hh as Hh'. cbn in Hh'. apply andb_true_iff in Hh' as [Hc Hrest].
  destruct (is_hex_facts c Hc) as [d F].
  unfold Uuid.int16. cbn [lstrip]. rewrite (digit_not_space _ _ F). cbv zeta.
  rewrite !startswith_char.
  rewrite (Ascii.eqb_sym "-" c), (Ascii.eqb_sym "+" c).
  rewrite (digit_not_minus _ _ F), (digit_not_plus _ _ F). cbn [orb].
  rewrite (startswith_0x "x"), (startswith_0x "X") by (auto; right; reflexivity).
  cbn [orb]. rewrite startswith_char, (Ascii.eqb_sym "_" c), (digit_not_underscore _ _ F).
  rewrite (scan_hex _ Hh). reflexivity.
Qed.

Lemma hex_number_bound h :
  all_chars is_hex h = true ->
  forall acc, (0 <= acc)%Z ->
    (0 <= hex_number acc h < (acc + 1) * 16 ^ Z.of_nat (String.length h))%Z.
Proof.
  induction h as [|c h IH]; intros Hh acc Hacc.
  - cbn. lia.
  - cbn in Hh. apply andb_true_iff in Hh as [Hc Hh].
    destruct (is_hex_facts c Hc) as [d F]. pose proof (digit_range _ _ F) as Hd.
    cbn [hex_number String.length]. rewrite (digit_value _ _ F).
    specialize (IH Hh (16 * acc + d)%Z ltac:(lia)).
    rewrite Nat2Z.inj_succ, Z.pow_succ_r by lia.
    assert (0 < 16 ^ Z.of_nat (String.length h))%Z by (apply Z.pow_pos_nonneg; lia).
    nia.
Qed.

(** Writing the number of the digits gives the digits back, in lower case. *)
Lemma hex_digits_number h :
  all_chars is_hex h = true ->
  forall acc n, (0 <= acc)%Z ->
    Uuid.hex_digits (n + String.length h) (hex_number acc h)
    = Uuid.hex_digits n acc ++ lower h.
Proof.
  induction h as [|c h IH]; intros Hh acc n Hacc.
  - cbn. now rewrite Nat.add_0_r, append_nil_r.
  - cbn in Hh. apply andb_true_iff in Hh as [Hc Hh].
    destruct (is_hex_facts c Hc) as [d F]. pose proof (digit_range _ _ F) as Hd.
    cbn [hex_number String.length lower]. rewrite (digit_value _ _ F).
    rewrite Nat.add_succ_r. change (S (n + String.length h)) with (S n + String.length h).
    rewrite (IH Hh (16 * acc + d)%Z (S n)) by lia.
    cbn [Uuid.hex_digits].
    replace ((16 * acc + d) / 16)%Z with acc
      by (apply (Z.div_unique _ 16 acc d); lia).
    replace ((16 * acc + d) mod 16)%Z with d
      by (apply (Z.mod_unique _ 16 acc d); lia).
    rewrite (digit_lower _ _ F), append_assoc. reflexivity.
Qed.

Lemma format_032x_width v :
  (0 <= v < 2 ^ 128)%Z -> Uuid.format_032x v = Uuid.hex_digits 32 v.
Proof.
  intros Hv. unfold Uuid.format_032x. f_equal. apply Nat.max_l.
  unfold Uuid.hex_width. destruct (Z.leb_spec v 0); [lia|].
  assert (Z.log2 v < 128)%Z by (apply Z.log2_lt_pow2; lia).
  assert (0 <= Z.log2 v)%Z by apply Z.log2_nonneg.
  assert (Z.log2 v / 4 < 32)%Z by (apply Z.div_lt_upper_bound; lia).
  assert (0 <= Z.log2 v / 4)%Z by (apply Z.div_pos; lia).
  lia.
Qed.

Lemma substring_take_drop m n s : substring m n s = take n (drop m s).
Proof.
  revert s. induction m as [|m IH]; intros s.
  - cbn [drop]. revert s. induction n as [|n IHn]; intros [|c s]; cbn; try reflexivity.
    now rewrite IHn.
  - destruct s as [|c s]; cbn [drop substring]; [now destruct n | apply IH].
Qed.

Lemma length_drop n s : String.length (drop n s) = String.length s - n.
Proof.
  revert s. induction n as [|n IH]; intros [|c s]; cbn [drop String.length]; try lia.
  rewrite IH. lia.
Qed.

Lemma take_all n s : String.length s <= n -> take n s = s.
Proof.
  revert s. induction n as [|n IH]; intros [|c s]; cbn; intros H; try reflexivity.
  - lia.
  - rewrite IH; [reflexivity | lia].
Qed.

Lemma length_lower s : String.length (lower s) = String.length s.
Proof. induction s as [|c s IH]; cbn; [reflexivity | now rewrite IH]. Qed.

(** The hyphens of [str] stand where the canonical text has them. *)
Lemma hyphenate_canonical h :
  String.length h = 32 -> Uuid.hyphenate (lower h) = canonical h.
Proof.
  intros Hlen. unfold Uuid.hyphenate, canonical. cbv zeta.
  rewrite !substring_take_drop. change (drop 0 (lower h)) with (lower h).
  rewrite (take_all 12 (drop 20 (lower h)))
    by (rewrite length_drop, length_lower, Hlen; cbn; lia).
  reflexivity.
Qed.

(** Every textual form of the digits [h] is read as the UUID of [h] and
    written back in canonical text. *)
Lemma canonical_of_form h s :
  hex32 h -> uuid_form h s ->
  exists int, Uuid.UUID s = Ok int /\ Uuid.str int = canonical h.
Proof.
  intros [Hlen Hh] Hs.
  destruct (replace_urn_uuid h s Hh Hs) as (d & Hd & Hnorm).
  exists (hex_number 0 h).
  pose proof (hex_number_bound h Hh 0%Z ltac:(lia)) as Hb.
  rewrite Hlen in Hb. change ((0 + 1) * 16 ^ Z.of_nat 32)%Z with (2 ^ 128)%Z in Hb.
  split.
  - unfold Uuid.UUID. rewrite Hnorm, (replace_hyphens h d Hd Hh), Hlen.
    cbn [Nat.eqb negb].
    rewrite int16_hex; [|intros ->; discriminate|exact Hh].
    destruct (Z.leb_spec 0 (hex_number 0 h)); [|lia].
    destruct (Z.ltb_spec (hex_number 0 h) (2 ^ 128)); [reflexivity|lia].
  - unfold Uuid.str. rewrite format_032x_width by exact Hb.
    rewrite <- (hyphenate_canonical h Hlen). f_equal. rewrite <- Hlen.
    exact (hex_digits_number h Hh 0%Z 0 ltac:(lia)).
Qed.

End UuidFacts.

(** ** load_notion_config *)

Module JsonFacts.

Lemma lookup_update_eq key v members :
  Json.lookup key (Json.update key v members) = Some v.
Proof.
  induction members as [|[k x] rest IH]; cbn.
  - now rewrite String.eqb_refl.
  - destruct (String.eqb k key) eqn:E; cbn; rewrite E; [reflexivity | exact IH].
Qed.

Lemma lookup_update_neq key key' v members :
  key <> key' ->
  Json.lookup key' (Json.update key v members) = Json.lookup key' members.
Proof.
  intros Hne. induction members as [|[k x] rest IH]; cbn.
  - apply String.eqb_neq in Hne. now rewrite Hne.
  - destruct (String.eqb k key) eqn:E; cbn.
    + apply String.eqb_eq in E. subst k.
      apply String.eqb_neq in Hne. now rewrite Hne.
    + destruct (String.eqb k key'); [reflexivity | exact IH].
Qed.

End JsonFacts.

Lemma canonical_uuid_form h s (w : world) :
  hex32 h -> uuid_form h s -> canonical_uuid (JStr s) w = (Ok (canonical h), w).
Proof.
  intros Hh Hs. destruct (UuidFacts.canonical_of_form h s Hh Hs) as (int & Hu & Hstr).
  unfold canonical_uuid. rewrite Hu, Hstr. reflexivity.
Qed.

(** C6.  When the [space_id] and [block_id] of the configuration are textual
    forms of UUIDs (thirty-two hexadecimal digits in either case, with or
    without hyphens, bare, in braces or after [urn:uuid:]),
    [load_notion_config] returns the configuration with both fields set to
    the canonical text of their UUID, lower case with hyphens, and the other
    fields as they were; two forms of the same digits, up to case, are given
    the same canonical text. *)
Theorem load_notion_config_canonical (w : world) members hs s hb b :
  notion_config w = Ok (JObj members) ->
  Json.lookup "space_id" members = Some (JStr s) ->
  Json.lookup "block_id" members = Some (JStr b) ->
  hex32 hs -> uuid_form hs s ->
  hex32 hb -> uuid_form hb b ->
  (exists data,
      load_notion_config w = (Ok (JObj data), w)
      /\ Json.lookup "space_id" data = Some (JStr (canonical hs))
      /\ Json.lookup "block_id" data = Some (JStr (canonical hb))
      /\ (forall key, key <> "space_id" -> key <> "block_id" ->
                      Json.lookup key data = Json.lookup key members))
  /\ (forall h' s', hex32 h' -> uuid_form h' s' -> lower h' = lower hs ->
                    canonical_uuid (JStr s') w = canonical_uuid (JStr s) w).
Proof.
  intros Hcfg Hsid Hbid Hhs Hs Hhb Hb. split.
  - exists (Json.update "block_id" (JStr (canonical hb))
              (Json.update "space_id" (JStr (canonical hs)) members)).
    split; [|split; [|split]].
    + unfold load_notion_config. unfold bind at 1, get. unfold bind at 1, lift_result.
      rewrite Hcfg. unfold bind at 1. cbn [Json.getitem]. rewrite Hsid. cbn [ret].
      unfold bind at 1. rewrite (canonical_uuid_form hs s w Hhs Hs).
      unfold bind at 1. cbn [setitem ret]. unfold bind at 1. cbn [Json.getitem].
      rewrite JsonFacts.lookup_update_neq by discriminate. rewrite Hbid. cbn [ret].
      unfold bind at 1. rewrite (canonical_uuid_form hb b w Hhb Hb). reflexivity.
    + rewrite JsonFacts.lookup_update_neq by discriminate.
      apply JsonFacts.lookup_update_eq.
    + apply JsonFacts.lookup_update_eq.
    + intros key H1 H2. rewrite !JsonFacts.lookup_update_neq by congruence. reflexivity.
  - intros h' s' Hh' Hs' Hlow.
    rewrite (canonical_uuid_form h' s' w Hh' Hs'), (canonical_uuid_form hs s w Hhs Hs).
    unfold canonical. now rewrite Hlow.
Qed.

Definition sample_digits : string := "12345678ABCDef0112345678abcdEF01".

Lemma sample_hyphenated :
  hyphenated sample_digits "12345678-ABCD-ef01-1234-5678abcdEF01".
Proof. repeat constructor. Qed.

Lemma sample_bare : hyphenated sample_digits sample_digits.
Proof. repeat constructor. Qed.

Lemma load_notion_config_canonical_witness :
  let members := [("email", JStr "me@example.org");
                  ("space_id", JStr "{12345678-ABCD-ef01-1234-5678abcdEF01}");
                  ("block_id", JStr "12345678ABCDef0112345678abcdEF01")] in
  let w := {| NOTION_TOKEN := None; notion_config := Ok (JObj members); stdin := [];
              network := []; clock := ""; tmp := []; repo := []; trace := [] |} in
  (exists data,
      load_notion_config w = (Ok (JObj data), w)
      /\ Json.lookup "space_id" data = Some (JStr "12345678-abcd-ef01-1234-5678abcdef01")
      /\ Json.lookup "block_id" data = Some (JStr "12345678-abcd-ef01-1234-5678abcdef01")
      /\ (forall key, key <> "space_id" -> key <> "block_id" ->
                      Json.lookup key data = Json.lookup key members))
  /\ (forall h' s', hex32 h' -> uuid_form h' s' -> lower h' = lower sample_digits ->
                    canonical_uuid (JStr s') w
                    = canonical_uuid (JStr "{12345678-ABCD-ef01-1234-5678abcdEF01}") w).
Proof.
  intros members w.
  apply (load_notion_config_canonical w members sample_digits
           "{12345678-ABCD-ef01-1234-5678abcdEF01}" sample_digits
           "12345678ABCDef0112345678abcdEF01").
  - reflexivity.
  - reflexivity.
  - reflexivity.
  - split; reflexivity.
  - apply (form_braces sample_digits "12345678-ABCD-ef01-1234-5678abcdEF01").
    exact sample_hyphenated.
  - split; reflexivity.
  - apply form_bare. exact sample_bare.
Defined.

(** ** Publishing: shutil.copytree *)

Module FsFacts.

Lemma lookup_set_eq name x d : Fs.lookup name (Fs.set name x d) = Some x.
Proof.
  induction d as [|[n y] d IH]; cbn.
  - now rewrite String.eqb_refl.
  - destruct (String.eqb n name) eqn:E; cbn; rewrite E; [reflexivity | exact IH].
Qed.

Lemma lookup_set_neq name name' x d :
  name' <> name -> Fs.lookup name' (Fs.set name x d) = Fs.lookup name' d.
Proof.
  intros Hne. induction d as [|[n y] d IH]; cbn.
  - destruct (String.eqb_spec name name'); [congruence | reflexivity].
  - destruct (String.eqb_spec n name) as [->|E]; cbn.
    + destruct (String.eqb_spec name name'); [congruence | reflexivity].
    + destruct (String.eqb n name'); [reflexivity | exact IH].
Qed.

Lemma lookup_absent name d : ~ In name (Fs.names d) -> Fs.lookup name d = None.
Proof.
  induction d as [|[n y] d IH]; cbn; [reflexivity|]. intros H.
  destruct (String.eqb_spec n name) as [->|E]; [tauto|]. apply IH. tauto.
Qed.

Lemma distinct_cons name names :
  distinct (name :: names) = true -> ~ In name names /\ distinct names = true.
Proof.
  cbn. intros H. apply andb_true_iff in H as [H1 H2]. split; [|exact H2].
  intros Hin. apply negb_true_iff in H1.
  assert (existsb (String.eqb name) names = true); [|congruence].
  apply existsb_exists. exists name. split; [exact Hin | apply String.eqb_refl].
Qed.

(** Induction on trees, through the entries of directories. *)
Lemma node_ind_nested (P : node -> Prop) :
  (forall text, P (File text)) ->
  (forall entries, Forall (fun e => P (snd e)) entries -> P (Dir entries)) ->
  forall x, P x.
Proof.
  intros HF HD. fix IH 1. intros [text|entries]; [apply HF|]. apply HD.
  induction entries as [|[n y] entries IHe]; constructor; [apply IH | exact IHe].
Qed.

End FsFacts.

Module ShutilFacts.
Import FsFacts.

Lemma copy_entry_dir name entries dst :
  Shutil.copy_entry name (Dir entries) dst
  = match Fs.lookup name dst with
    | Some (File _) => (dst, [([name], FileExistsError)])
    | Some (Dir inner) =>
        let (inner', errors) := Shutil.copy_entries entries inner in
        (Fs.set name (Dir inner') dst, map (Shutil.beneath name) errors)
    | None =>
        let (inner', errors) := Shutil.copy_entries entries [] in
        (Fs.set name (Dir inner') dst, map (Shutil.beneath name) errors)
    end.
Proof. reflexivity. Qed.

Lemma copy_entries_cons n y rest dst :
  Shutil.copy_entries ((n, y) :: rest) dst
  = let (dst1, errors1) := Shutil.copy_entry n y dst in
    let (dst2, errors2) := Shutil.copy_entries rest dst1 in
    (dst2, (errors1 ++ errors2)%list).
Proof. reflexivity. Qed.

Lemma compatible_dir name entries dst :
  compatible_node name (Dir entries) dst
  = match Fs.lookup name dst with
    | Some (File _) => false
    | Some (Dir inner) => compatible entries inner
    | None => true
    end.
Proof.
  cbn [compatible_node]. destruct (Fs.lookup name dst) as [[t|inner]|]; try reflexivity.
  induction entries as [|[n y] rest IH]; [reflexivity|].
  cbn [compatible]. rewrite <- IH. reflexivity.
Qed.

Lemma wf_dir entries : wf_node (Dir entries) = well_formed entries.
Proof. reflexivity. Qed.

(** Copying an entry touches nothing but the entry of its name. *)
Lemma copy_entry_frame name x dst other :
  other <> name ->
  Fs.lookup other (fst (Shutil.copy_entry name x dst)) = Fs.lookup other dst.
Proof.
  intros Hne. destruct x as [text|entries].
  - cbn [Shutil.copy_entry]. destruct (Fs.lookup name dst) as [[t|inner]|]; cbn [fst];
      try (now apply lookup_set_neq).
    destruct (Fs.lookup name inner) as [[t|i]|]; cbn [fst];
      try reflexivity; now apply lookup_set_neq.
  - rewrite copy_entry_dir. destruct (Fs.lookup name dst) as [[t|inner]|]; [reflexivity| |].
    + destruct (Shutil.copy_entries entries inner). cbn [fst]. now apply lookup_set_neq.
    + destruct (Shutil.copy_entries entries []). cbn [fst]. now apply lookup_set_neq.
Qed.

Lemma copy_entries_frame entries dst other :
  ~ In other (Fs.names entries) ->
  Fs.lookup other (fst (Shutil.copy_entries entries dst)) = Fs.lookup other dst.
Proof.
  revert dst. induction entries as [|[n y] rest IH]; intros dst Hnot; [reflexivity|].
  rewrite copy_entries_cons.
  pose proof (copy_entry_frame n y dst other) as H1.
  destruct (Shutil.copy_entry n y dst) as [dst1 errors1].
  specialize (IH dst1). destruct (Shutil.copy_entries rest dst1) as [dst2 errors2].
  cbn [fst] in *. cbn in Hnot. rewrite IH by tauto. apply H1. intros ->. tauto.
Qed.

(** The file a node holds at a path beneath it. *)
Definition file_in (x : node) (rest : list string) : option string :=
  match x with
  | File text => match rest with [] => Some text | _ => None end
  | Dir inner => file_at rest inner
  end.

Lemma file_at_cons name rest d :
  file_at (name :: rest) d
  = match Fs.lookup name d with
    | Some x => file_in x rest
    | None => None
    end.
Proof. cbn. destruct (Fs.lookup name d) as [[t|inner]|]; reflexivity. Qed.

Lemma file_at_nil path : file_at path [] = None.
Proof. destruct path; reflexivity. Qed.

Lemma compatible_nil entries : compatible entries [] = true.
Proof.
  induction entries as [|[n [t|es]] rest IH]; [reflexivity| |];
    cbn [compatible]; rewrite IH.
  - reflexivity.
  - rewrite compatible_dir. reflexivity.
Qed.

Lemma compatible_node_lookup name x d1 d2 :
  Fs.lookup name d1 = Fs.lookup name d2 ->
  compatible_node name x d1 = compatible_node name x d2.
Proof.
  intros H. destruct x as [t|es].
  - cbn. now rewrite H.
  - rewrite !compatible_dir. now rewrite H.
Qed.

Lemma compatible_frame entries d1 d2 :
  (forall name, In name (Fs.names entries) -> Fs.lookup name d1 = Fs.lookup name d2) ->
  compatible entries d1 = compatible entries d2.
Proof.
  induction entries as [|[n y] rest IH]; intros H; [reflexivity|].
  cbn [compatible]. rewrite (compatible_node_lookup n y d1 d2) by (apply H; now left).
  rewrite IH; [reflexivity|]. intros name Hin. apply H. now right.
Qed.

(** What copying one entry, and what copying a list of entries, achieves when
    source and destination are compatible. *)
Definition entry_copied (x : node) : Prop :=
  forall name dst,
    wf_node x = true ->
    compatible_node name x dst = true ->
    snd (Shutil.copy_entry name x dst) = []
    /\ exists x',
        Fs.lookup name (fst (Shutil.copy_entry name x dst)) = Some x'
        /\ forall rest, file_in x' rest = overlay (file_in x rest) (file_at (name :: rest) dst).

Definition entries_copied (entries : directory) : Prop :=
  forall dst,
    well_formed entries = true ->
    compatible entries dst = true ->
    snd (Shutil.copy_entries entries dst) = []
    /\ forall path,
        file_at path (fst (Shutil.copy_entries entries dst))
        = overlay (file_at path entries) (file_at path dst).

Lemma entries_copied_from entries :
  Forall (fun e => entry_copied (snd e)) entries -> entries_copied entries.
Proof.
  induction 1 as [|[n y] rest Hy _ IH]; intros dst Hwf Hc.
  - split; [reflexivity|]. intros path. cbn [Shutil.copy_entries fst].
    now rewrite file_at_nil.
  - cbn [snd] in Hy.
    unfold well_formed in Hwf. cbn [Fs.names map fst wf_entries] in Hwf.
    apply andb_true_iff in Hwf as [Hd Hw]. apply distinct_cons in Hd as [Hn Hd].
    apply andb_true_iff in Hw as [Hwy Hwr].
    cbn [compatible] in Hc. apply andb_true_iff in Hc as [Hcy Hcr].
    rewrite copy_entries_cons.
    pose proof (Hy n dst Hwy Hcy) as Hy1.
    pose proof (copy_entry_frame n y dst) as Hframe.
    destruct (Shutil.copy_entry n y dst) as [dst1 errors1] eqn:E1.
    rewrite ?E1 in Hy1, Hframe. cbn [fst snd] in *.
    destruct Hy1 as (He1 & y' & Hy' & Hfiles).
    assert (Hc1 : compatible rest dst1 = true).
    { rewrite (compatible_frame rest dst1 dst); [exact Hcr|].
      intros name Hin. apply Hframe. intros ->. contradiction. }
    assert (Hwf' : well_formed rest = true)
      by (unfold well_formed, Fs.names; now rewrite Hd, Hwr).
    pose proof (IH dst1 Hwf' Hc1) as IH1.
    destruct (Shutil.copy_entries rest dst1) as [dst2 errors2] eqn:E2.
    rewrite ?E2 in IH1. cbn [fst snd] in *.
    destruct IH1 as (He2 & Hrest).
    split; [now rewrite He1, He2|].
    intros [|m r]; [reflexivity|].
    rewrite Hrest. rewrite !file_at_cons. cbn [Fs.lookup].
    destruct (String.eqb_spec n m) as [->|Hne].
    + rewrite (lookup_absent m rest Hn). cbn [overlay]. rewrite Hy'.
      rewrite Hfiles. now rewrite file_at_cons.
    + rewrite (Hframe m) by congruence. reflexivity.
Qed.

Lemma entry_copied_all x : entry_copied x.
Proof.
  induction x as [text|entries IH] using node_ind_nested; intros name dst Hwf Hc.
  - cbn [Shutil.copy_entry compatible_node] in *.
    destruct (Fs.lookup name dst) as [[t|inner]|] eqn:Hl; try discriminate;
      cbn [fst snd]; (split; [reflexivity|]);
      exists (File text); (split; [apply lookup_set_eq|]);
      intros [|m r]; cbn [file_in overlay]; try reflexivity;
      rewrite file_at_cons, Hl; reflexivity.
  - apply entries_copied_from in IH.
    rewrite copy_entry_dir. rewrite compatible_dir in Hc. rewrite wf_dir in Hwf.
    destruct (Fs.lookup name dst) as [[t|inner]|] eqn:Hl; [discriminate| |].
    + pose proof (IH inner Hwf Hc) as IH1.
      destruct (Shutil.copy_entries entries inner) as [inner' errors] eqn:E.
      rewrite ?E in IH1. cbn [fst snd] in *. destruct IH1 as (He & Hfiles).
      subst errors. split; [reflexivity|].
      exists (Dir inner'). split; [apply lookup_set_eq|].
      intros rest. cbn [file_in]. rewrite Hfiles, file_at_cons, Hl. reflexivity.
    + pose proof (IH [] Hwf (compatible_nil entries)) as IH1.
      destruct (Shutil.copy_entries entries []) as [inner' errors] eqn:E.
      rewrite ?E in IH1. cbn [fst snd] in *. destruct IH1 as (He & Hfiles).
      subst errors. split; [reflexivity|].
      exists (Dir inner'). split; [apply lookup_set_eq|].
      intros rest. cbn [file_in]. rewrite Hfiles, file_at_cons, Hl.
      now rewrite file_at_nil.
Qed.

(** **** Files of other names are never touched *)

Lemma names_in_dir entries : names_in (Dir entries) = all_names entries.
Proof. reflexivity. Qed.

Lemma basename_cons name m rest : basename (name :: m :: rest) = basename (m :: rest).
Proof. reflexivity. Qed.

Lemma file_at_set_file name text d path :
  basename path <> name ->
  (forall inner, Fs.lookup name d <> Some (Dir inner)) ->
  file_at path (Fs.set name (File text) d) = file_at path d.
Proof.
  intros Hb Hd. destruct path as [|m rest]; [reflexivity|].
  rewrite !file_at_cons. destruct (String.eqb_spec m name) as [->|Hne].
  - rewrite lookup_set_eq. destruct rest as [|m' rest]; [now cbn in Hb|].
    cbn [file_in]. destruct (Fs.lookup name d) as [[t|inner]|]; try reflexivity.
    now destruct (Hd inner).
  - now rewrite lookup_set_neq.
Qed.

Definition entry_frame (x : node) : Prop :=
  forall name dst path,
    ~ In (basename path) (name :: names_in x) ->
    file_at path (fst (Shutil.copy_entry name x dst)) = file_at path dst.

Definition entries_frame (entries : directory) : Prop :=
  forall dst path,
    ~ In (basename path) (all_names entries) ->
    file_at path (fst (Shutil.copy_entries entries dst)) = file_at path dst.

Lemma entries_frame_from entries :
  Forall (fun e => entry_frame (snd e)) entries -> entries_frame entries.
Proof.
  induction 1 as [|[n y] rest Hy _ IH]; intros dst path Hb; [reflexivity|].
  cbn [snd] in Hy. cbn [all_names] in Hb. rewrite copy_entries_cons.
  pose proof (Hy n dst path) as H1.
  destruct (Shutil.copy_entry n y dst) as [dst1 errors1] eqn:E1. cbn [fst] in H1.
  pose proof (IH dst1 path) as H2.
  destruct (Shutil.copy_entries rest dst1) as [dst2 errors2] eqn:E2. cbn [fst] in *.
  rewrite H2, H1; [reflexivity| |].
  - intros [Hin | Hin]; apply Hb; [now left | right; apply in_or_app; now left].
  - intros Hin. apply Hb. right. apply in_or_app. now right.
Qed.

Lemma entry_frame_all x : entry_frame x.
Proof.
  induction x as [text|entries IH] using node_ind_nested; intros name dst path Hb.
  - assert (Hname : basename path <> name) by (intros E; apply Hb; now left).
    cbn [Shutil.copy_entry].
    destruct (Fs.lookup name dst) as [[t|inner]|] eqn:Hl; cbn [fst].
    + apply file_at_set_file; [exact Hname | congruence].
    + destruct (Fs.lookup name inner) as [[t|i]|] eqn:Hi; cbn [fst]; try reflexivity.
      all: destruct path as [|m rest]; [reflexivity|]; rewrite !file_at_cons.
      all: destruct (String.eqb_spec m name) as [->|Hne];
        [|now rewrite lookup_set_neq].
      all: rewrite lookup_set_eq, Hl; cbn [file_in].
      all: destruct rest as [|m' rest]; [reflexivity|].
      all: apply file_at_set_file; [exact Hname | congruence].
    + apply file_at_set_file; [exact Hname | congruence].
  - apply entries_frame_from in IH. rewrite copy_entry_dir.
    rewrite names_in_dir in Hb.
    assert (Hin : forall rest, rest <> [] -> basename (name :: rest) = basename rest)
      by (intros [|m r] Hr; [easy | reflexivity]).
    destruct (Fs.lookup name dst) as [[t|inner]|] eqn:Hl; [reflexivity| |].
    + pose proof (IH inner) as Hq.
      destruct (Shutil.copy_entries entries inner) as [inner' errors]. cbn [fst] in *.
      destruct path as [|m rest]; [reflexivity|]. rewrite !file_at_cons.
      destruct (String.eqb_spec m name) as [->|Hne]; [|now rewrite lookup_set_neq].
      rewrite lookup_set_eq, Hl. cbn [file_in].
      destruct rest as [|m' rest]; [reflexivity|]. apply Hq.
      intros Hbad. apply Hb. right. exact Hbad.
    + pose proof (IH []) as Hq.
      destruct (Shutil.copy_entries entries []) as [inner' errors]. cbn [fst] in *.
      destruct path as [|m rest]; [reflexivity|]. rewrite !file_at_cons.
      destruct (String.eqb_spec m name) as [->|Hne]; [|now rewrite lookup_set_neq].
      rewrite lookup_set_eq, Hl. cbn [file_in].
      destruct rest as [|m' rest]; [reflexivity|]. rewrite Hq; [apply file_at_nil|].
      intros Hbad. apply Hb. right. exact Hbad.
Qed.

(** Whatever the destination holds, a file whose name the source does not use
    is as it was. *)
Lemma copy_entries_other_names src dst path :
  ~ In (basename path) (all_names src) ->
  file_at path (fst (Shutil.copy_entries src dst)) = file_at path dst.
Proof.
  apply entries_frame_from. apply Forall_forall. intros e _. apply entry_frame_all.
Qed.

(** A compatible copy raises nothing, and leaves the files of the source laid
    over those the destination had. *)
Lemma copy_entries_overlay src dst :
  well_formed src = true ->
  compatible src dst = true ->
  snd (Shutil.copy_entries src dst) = []
  /\ forall path,
      file_at path (fst (Shutil.copy_entries src dst))
      = overlay (file_at path src) (file_at path dst).
Proof.
  apply entries_copied_from. apply Forall_forall. intros e _. apply entry_copied_all.
Qed.

End ShutilFacts.

(** C7, as the code has it.  Publishing copies the site tree [src] over the
    deployment directory.  Whatever the directory holds, every entry of it
    whose name is not an entry of the site tree is left as it was, and so is,
    at any depth, every file whose name the site tree does not use.  When the
    directory holds no directory where the site tree has a file and no file
    where the site tree has a directory, nothing is raised, and afterwards
    the files of the directory are those of the site tree, with their latest
    text, and besides those the files it had before. *)
Theorem publish_merges (w : world) (tmp_dir : string) (src : directory) :
  output_listing tmp_dir w = Some src ->
  (forall name, ~ In name (Fs.names src) ->
                Fs.lookup name (repo (snd (publish tmp_dir w))) = Fs.lookup name (repo w))
  /\ (forall path, ~ In (basename path) (all_names src) ->
                   file_at path (repo (snd (publish tmp_dir w))) = file_at path (repo w))
  /\ (well_formed src = true ->
      compatible src (repo w) = true ->
      fst (publish tmp_dir w) = Ok tt
      /\ forall path,
          file_at path (repo (snd (publish tmp_dir w)))
          = overlay (file_at path src) (file_at path (repo w))).
Proof.
  intros Hsrc.
  assert (Hrun : publish tmp_dir w
                 = (match snd (Shutil.copy_entries src (repo w)) with
                    | [] => Ok tt
                    | errors => Raise (ShutilError errors)
                    end,
                    with_repo (fst (Shutil.copy_entries src (repo w))) w)).
  { unfold publish, bind, get. rewrite Hsrc. unfold in_repo, Shutil.copytree.
    destruct (Shutil.copy_entries src (repo w)) as [dst' [|e errors]]; reflexivity. }
  rewrite Hrun. cbn [fst snd repo with_repo]. split; [|split].
  - intros name Hname. now apply ShutilFacts.copy_entries_frame.
  - intros path Hpath. now apply ShutilFacts.copy_entries_other_names.
  - intros Hwf Hc.
    destruct (ShutilFacts.copy_entries_overlay src (repo w) Hwf Hc) as [-> H].
    split; [reflexivity | exact H].
Qed.

Definition sample_site : directory :=
  [("index.html", File "new page"); ("assets", Dir [("a.png", File "new image")])].

Definition sample_publish_world (deployment : directory) : world :=
  {| NOTION_TOKEN := Some "secret"; notion_config := Raise JSONDecodeError; stdin := [];
     network := []; clock := "";
     tmp := [("run", Dir [("output.zip", File "zip"); ("zip_extract", Dir sample_site)])];
     repo := deployment; trace := [] |}.

Lemma publish_merges_witness :
  let w := sample_publish_world
             [("README.md", File "read me"); ("index.html", File "old page");
              ("assets", Dir [("stale.png", File "old image")])] in
  (forall name, ~ In name (Fs.names sample_site) ->
                Fs.lookup name (repo (snd (publish "run" w))) = Fs.lookup name (repo w))
  /\ (forall path, ~ In (basename path) (all_names sample_site) ->
                   file_at path (repo (snd (publish "run" w))) = file_at path (repo w))
  /\ fst (publish "run" w) = Ok tt
  /\ forall path,
      file_at path (repo (snd (publish "run" w)))
      = overlay (file_at path sample_site) (file_at path (repo w)).
Proof.
  intros w.
  destruct (publish_merges w "run" sample_site eq_refl) as (Hentries & Hfiles & Hover).
  split; [exact Hentries|]. split; [exact Hfiles|]. apply Hover; reflexivity.
Defined.

(** The run of the witness, spelled out: the unrelated file and the stale
    image stay, the page and the new image are the latest. *)
Example publish_merges_run :
  repo (snd (publish "run"
               (sample_publish_world
                  [("README.md", File "read me"); ("index.html", File "old page");
                   ("assets", Dir [("stale.png", File "old image")])])))
  = [("README.md", File "read me"); ("index.html", File "new page");
     ("assets", Dir [("stale.png", File "old image"); ("a.png", File "new image")])].
Proof. reflexivity. Qed.

(** C7, as the specification states it, fails when the deployment directory
    holds a directory called [index.html]: the copy raises nothing, the
    unrelated [README.md] is untouched, but [index.html] is not overwritten
    with the new page, which lands inside that directory. *)
Lemma publish_into_directory_index_html :
  let w := sample_publish_world [("README.md", File "read me"); ("index.html", Dir [])] in
  output_listing "run" w = Some sample_site
  /\ fst (publish "run" w) = Ok tt
  /\ Fs.lookup "README.md" (repo (snd (publish "run" w))) = Some (File "read me")
  /\ Fs.lookup "index.html" (repo (snd (publish "run" w)))
     = Some (Dir [("index.html", File "new page")])
  /\ file_at ["index.html"] (repo (snd (publish "run" w))) <> Some "new page".
Proof.
  cbv zeta. repeat split; try reflexivity. vm_compute. discriminate.
Qed.

(** ** main without a token *)

Module MainFacts.

(** A computation that leaves the directories alone and does nothing to the
    outside but what the log-in may do. *)
Definition logs_in_only {A} (c : M world A) : Prop :=
  forall w,
    tmp (snd (c w)) = tmp w
    /\ repo (snd (c w)) = repo w
    /\ exists events,
        trace (snd (c w)) = (trace w ++ events)%list
        /\ forallb credential_event events = true.

Lemma logs_in_only_pure {A} (c : M world A) :
  (forall w, snd (c w) = w) -> logs_in_only c.
Proof.
  intros H w. rewrite H. repeat split. exists []. now rewrite app_nil_r.
Qed.

Lemma logs_in_only_ret {A} (a : A) : logs_in_only (ret a).
Proof. now apply logs_in_only_pure. Qed.

Lemma logs_in_only_raise {A} (e : exn) : logs_in_only (@raise world A e).
Proof. now apply logs_in_only_pure. Qed.

Lemma logs_in_only_log (e : event) : credential_event e = true -> logs_in_only (log e).
Proof.
  intros He w. repeat split. exists [e]. split; [reflexivity|]. cbn. now rewrite He.
Qed.

Lemma logs_in_only_bind {A B} (c : M world A) (k : A -> M world B) :
  logs_in_only c -> (forall a, logs_in_only (k a)) -> logs_in_only (bind c k).
Proof.
  intros Hc Hk w. unfold bind. destruct (Hc w) as (Ht & Hr & ev1 & He1 & Hf1).
  destruct (c w) as [[a|e] w1]; cbn [snd] in *; [|eauto 6].
  destruct (Hk a w1) as (Ht2 & Hr2 & ev2 & He2 & Hf2).
  rewrite Ht2, Hr2, He2, He1. repeat split; try assumption.
  exists (ev1 ++ ev2)%list. split; [symmetry; apply app_assoc|].
  rewrite forallb_app. now rewrite Hf1, Hf2.
Qed.

Lemma logs_in_only_next_response : logs_in_only next_response.
Proof.
  intros w. unfold next_response. destruct (network w); cbn;
    repeat split; exists []; now rewrite app_nil_r.
Qed.

Lemma logs_in_only_getitem (v : JSON) (key : string) : logs_in_only (Json.getitem v key).
Proof.
  apply logs_in_only_pure. intros w. destruct v; try reflexivity.
  cbn. destruct (Json.lookup key members); reflexivity.
Qed.

Lemma logs_in_only_raise_for_status (r : response) : logs_in_only (raise_for_status r).
Proof.
  apply logs_in_only_pure. intros w. unfold raise_for_status. destruct (ok r); reflexivity.
Qed.

Lemma logs_in_only_response_json (r : response) : logs_in_only (response_json r).
Proof.
  apply logs_in_only_pure. intros w. unfold response_json. destruct (json r); reflexivity.
Qed.

Lemma logs_in_only_cookie (name : string) (jar : list (string * string)) :
  logs_in_only (cookie name jar).
Proof.
  apply logs_in_only_pure. intros w.
  induction jar as [|[k v] jar IH]; cbn; [reflexivity|].
  destruct (String.eqb k name); [reflexivity | exact IH].
Qed.

Lemma logs_in_only_input (prompt : string) : logs_in_only (input prompt).
Proof.
  unfold input. apply logs_in_only_bind; [now apply logs_in_only_log|].
  intros _ w. destruct (stdin w); cbn; repeat split; exists []; now rewrite app_nil_r.
Qed.

Create HintDb login discriminated.
#[local] Hint Resolve logs_in_only_ret logs_in_only_raise logs_in_only_bind
  logs_in_only_next_response logs_in_only_getitem logs_in_only_raise_for_status
  logs_in_only_response_json logs_in_only_cookie logs_in_only_input : login.

Lemma logs_in_only_requests_post url body sent :
  credential_event (Post url body sent) = true ->
  logs_in_only (requests_post url body sent).
Proof.
  intros H. unfold requests_post. apply logs_in_only_bind; [|intros; auto with login].
  now apply logs_in_only_log.
Qed.

Lemma logs_in_only_print text values : logs_in_only (print text values).
Proof. now apply logs_in_only_log. Qed.

#[local] Hint Resolve logs_in_only_print : login.

Ltac login_step :=
  apply logs_in_only_bind;
  [ solve [ auto with login | now apply logs_in_only_requests_post ] | intros ].

Lemma logs_in_only_ask_otp (email : JSON) : logs_in_only (ask_otp email).
Proof. unfold ask_otp. do 5 login_step. auto with login. Qed.

Lemma logs_in_only_get_token (values : csrf_values) (otp : string) :
  logs_in_only (get_token values otp).
Proof. unfold get_token. do 2 login_step. auto with login. Qed.

#[local] Hint Resolve logs_in_only_ask_otp logs_in_only_get_token : login.

Lemma logs_in_only_obtain_token (config : JSON) : logs_in_only (obtain_token config).
Proof. unfold obtain_token. do 7 login_step. auto with login. Qed.

(** Loading the configuration changes nothing. *)
Lemma canonical_uuid_pure (v : JSON) (w : world) : snd (canonical_uuid v w) = w.
Proof.
  destruct v as [| | |s| |]; try reflexivity.
  cbn. destruct (Uuid.UUID s); reflexivity.
Qed.

Lemma getitem_pure {S} (v : JSON) (key : string) (w : S) : snd (Json.getitem v key w) = w.
Proof.
  destruct v as [| | | | |members]; try reflexivity.
  cbn. destruct (Json.lookup key members); reflexivity.
Qed.

Lemma setitem_pure (v : JSON) (key : string) (x : JSON) (w : world) :
  snd (setitem v key x w) = w.
Proof. destruct v; reflexivity. Qed.

Lemma bind_pure {S A B} (c : M S A) (k : A -> M S B) (w : S) :
  snd (c w) = w -> (forall a, snd (k a w) = w) -> snd (bind c k w) = w.
Proof.
  intros Hc Hk. unfold bind. destruct (c w) as [[a|e] w1]; cbn [snd] in *; subst w1; auto.
Qed.

Lemma load_notion_config_pure (w : world) : snd (load_notion_config w) = w.
Proof.
  unfold load_notion_config.
  do 7 (apply bind_pure;
        [ solve [ reflexivity
                | auto using getitem_pure, canonical_uuid_pure, setitem_pure ]
        | intros ]).
  apply setitem_pure.
Qed.

(** No event of the log-in is a status poll or a sleep. *)
Lemma credential_events_no_export events :
  forallb credential_event events = true -> polls events = 0 /\ sleeps events = [].
Proof.
  unfold polls. induction events as [|e events IH]; [split; reflexivity|].
  cbn [forallb]. intros H. apply andb_true_iff in H as [He Hrest].
  destruct (IH Hrest) as [Hp Hs].
  destruct e as [url body sent|url|text values|prompt|seconds]; try discriminate;
    cbn [List.filter is_poll sleeps flat_map app]; try (split; assumption).
  destruct (String.eqb_spec url (NOTION_API_ROOT ++ "/" ++ "getTasks")) as [->|_];
    [discriminate He | split; assumption].
Qed.

End MainFacts.

(** C8.  When [NOTION_TOKEN] is unset or empty, [main] leaves the temporary
    directory and the deployment directory as they were, and all it does to
    the outside is what the log-in does: requests to [sendTemporaryPassword]
    and [loginWithEmail], prints, and the prompt for the one-time password.
    No export is enqueued, no status polled, nothing downloaded, and no sleep
    taken. *)
Theorem main_without_token (w : world) :
  not_token (NOTION_TOKEN w) = true ->
  tmp (snd (main w)) = tmp w
  /\ repo (snd (main w)) = repo w
  /\ exists events,
      trace (snd (main w)) = (trace w ++ events)%list
      /\ forallb credential_event events = true
      /\ polls events = 0
      /\ sleeps events = [].
Proof.
  intros Htoken.
  assert (Hmain : main w = match load_notion_config w with
                           | (Ok config, _) => obtain_token config w
                           | (Raise e, _) => (Raise e, w)
                           end).
  { unfold main, bind, get.
    pose proof (MainFacts.load_notion_config_pure w) as Hload.
    destruct (load_notion_config w) as [[config|e] w0]; cbn [snd] in Hload; subst w0;
      [now rewrite Htoken | reflexivity]. }
  rewrite Hmain. destruct (load_notion_config w) as [[config|e] w0].
  - pose proof (MainFacts.logs_in_only_obtain_token config) as Hlogin.
    destruct (Hlogin w) as (Ht & Hr & events & He & Hf).
    split; [exact Ht|]. split; [exact Hr|]. exists events.
    split; [exact He|]. split; [exact Hf|].
    apply MainFacts.credential_events_no_export, Hf.
  - cbn [snd]. repeat split. exists []. repeat split. now rewrite app_nil_r.
Qed.

Definition sample_login_world (token : option string) : world :=
  {| NOTION_TOKEN := token;
     notion_config :=
       Ok (JObj [("email", JStr "me@example.org");
                 ("space_id", JStr "{12345678-ABCD-ef01-1234-5678abcdEF01}");
                 ("block_id", JStr "12345678ABCDef0112345678abcdEF01")]);
     stdin := ["123456"];
     network :=
       [{| ok := true; json := Some (JObj [("csrfState", JStr "state")]);
           cookies := [("csrf", "cookie")]; content := ""; archive := None |};
        {| ok := true; json := None; cookies := [("token_v2", "token")];
           content := ""; archive := None |}];
     clock := "2024-01-01-00-00-00"; tmp := [];
     repo := [("README.md", File "read me")]; trace := [] |}.

Lemma main_without_token_witness :
  let w := sample_login_world (Some "") in
  tmp (snd (main w)) = tmp w
  /\ repo (snd (main w)) = repo w
  /\ exists events,
      trace (snd (main w)) = (trace w ++ events)%list
      /\ forallb credential_event events = true
      /\ polls events = 0
      /\ sleeps events = [].
Proof.
  intros w. apply (main_without_token w). reflexivity.
Defined.

(** A run of the log-in from beginning to end: both requests, the prompt, the
    two prints, and a normal return. *)
Example main_without_token_run :
  let w := sample_login_world None in
  fst (main w) = Ok tt
  /\ map credential_event (trace (snd (main w))) = [true; true; true; true; true]
  /\ List.length (List.filter (fun e => match e with Post _ _ _ => true | _ => false end)
                    (trace (snd (main w)))) = 2
  /\ network (snd (main w)) = [].
Proof. cbv zeta. repeat split. Qed.

(** * Further properties of the code *)

(** ** The polling loop, for any number of turns *)

(** A status response that leaves the task in progress: the entry of the
    target id has no status, or another status type than [complete]. *)
Definition in_progress_response (task_id : JSON) (r : response) : Prop :=
  exists entries entry,
    answers_with r entries
    /\ first_with_id task_id entries entry
    /\ (lacks_status entry \/ exists type, status_type entry type /\ type <> JStr "complete").

(** A status response that ends the wait, with the link of the export. *)
Definition complete_response (task_id : JSON) (r : response) (url : JSON) : Prop :=
  exists entries entry,
    answers_with r entries
    /\ first_with_id task_id entries entry
    /\ status_type entry (JStr "complete")
    /\ export_url entry url.

Module LoopFacts.
Import PollFacts.

Lemma sleeps_app a b : sleeps (a ++ b) = (sleeps a ++ sleeps b)%list.
Proof. unfold sleeps. apply flat_map_app. Qed.

Lemma polls_app a b : polls (a ++ b) = polls a + polls b.
Proof. unfold polls. now rewrite filter_app, length_app. Qed.

Lemma polls_poll_events token task_id entries :
  polls (poll_events token task_id entries) = 1.
Proof. reflexivity. Qed.

(** The turns that find the task in progress, one after the other. *)
Lemma wait_through token task_id waiting :
  Forall (in_progress_response task_id) waiting ->
  forall w rest,
    network w = (waiting ++ rest)%list ->
    exists events,
      wait_until_complete token task_id w
      = wait_until_complete token task_id (after events rest w)
      /\ sleeps events = repeat wait_time (List.length waiting)
      /\ polls events = List.length waiting
      /\ Forall (fun e => forall u, e <> Get u) events.
Proof.
  induction 1 as [|r waiting (entries & entry & Hr & Hf & Hs) _ IH]; intros w rest Hn.
  - exists []. repeat split; [|constructor].
    f_equal. apply world_eq; cbn; auto. now rewrite app_nil_r.
  - destruct (IH (after (poll_events token task_id entries ++ wait_events)
                    (waiting ++ rest) w) rest eq_refl)
      as (events & Hloop & Hsleeps & Hpolls & Hget).
    exists ((poll_events token task_id entries ++ wait_events) ++ events)%list.
    split; [|split; [|split]].
    + change ((r :: waiting) ++ rest)%list with (r :: (waiting ++ rest))%list in Hn.
      rewrite (wait_until_complete_again token _ _ _ _ _ _ Hn Hr Hf Hs).
      rewrite Hloop, after_after. reflexivity.
    + rewrite sleeps_app, Hsleeps. reflexivity.
    + rewrite polls_app, Hpolls. reflexivity.
    + apply Forall_app. split; [|exact Hget].
      repeat constructor; discriminate.
Qed.

(** The whole wait: the turns in progress, the turn that finds the task
    complete, and the link. *)
Lemma wait_for_completion_run token task_id w waiting done rest url :
  network w = (waiting ++ done :: rest)%list ->
  Forall (in_progress_response task_id) waiting ->
  complete_response task_id done url ->
  exists events,
    wait_for_completion token task_id w = (Ok url, after events rest w)
    /\ polls events = S (List.length waiting)
    /\ sleeps events = repeat wait_time (List.length waiting)
    /\ Forall (fun e => forall u, e <> Get u) events.
Proof.
  intros Hn Hwaiting (entries & entry & Hr & Hf & Ht & Hu).
  destruct (wait_through token task_id waiting Hwaiting w (done :: rest) Hn)
    as (events & Hloop & Hsleeps & Hpolls & Hget).
  assert (Hw : wait_until_complete token task_id w
               = (Ok entry, after (events ++ poll_events token task_id entries) rest w)).
  { rewrite Hloop.
    erewrite wait_until_complete_break; [| reflexivity | exact Hr | exact Hf | exact Ht].
    now rewrite after_after. }
  eexists. split; [exact (wait_for_completion_link _ _ _ _ _ _ _ Hw Hu)|].
  split; [|split].
  - rewrite !polls_app, Hpolls. cbn. lia.
  - rewrite !sleeps_app, Hsleeps. cbn. now rewrite !app_nil_r.
  - repeat (apply Forall_app; split); try exact Hget; repeat constructor; discriminate.
Qed.

End LoopFacts.

(** X1.  When the first [n] status responses leave the task in progress and
    the next one finds it complete, [wait_for_completion] returns the link
    of the export after [n + 1] polls and [n] sleeps of [wait_time] seconds
    each, and has taken just these [n + 1] responses off the network. *)
Theorem wait_for_completion_after_waiting token task_id w waiting done rest url :
  network w = (waiting ++ done :: rest)%list ->
  Forall (in_progress_response task_id) waiting ->
  complete_response task_id done url ->
  exists events,
    wait_for_completion token task_id w = (Ok url, after events rest w)
    /\ polls events = S (List.length waiting)
    /\ sleeps events = repeat wait_time (List.length waiting).
Proof.
  intros Hn Hwaiting Hdone.
  destruct (LoopFacts.wait_for_completion_run token task_id w waiting done rest url
              Hn Hwaiting Hdone) as (events & Hrun & Hpolls & Hsleeps & _).
  now exists events.
Qed.

Lemma in_progress_task_entry id type :
  type <> "complete" -> in_progress_response (JStr id) (status_response [task_entry id type]).
Proof.
  intros Hne. exists [task_entry id type], (task_entry id type).
  split; [apply answers_with_status_response|].
  split; [apply first_with_id_single|].
  right. exists (JStr type). split; [apply status_type_task_entry | congruence].
Qed.

Lemma complete_task_entry id :
  complete_response (JStr id) (status_response [task_entry id "complete"])
    (JStr ("https://files/" ++ id)).
Proof.
  exists [task_entry id "complete"], (task_entry id "complete").
  split; [apply answers_with_status_response|].
  split; [apply first_with_id_single|].
  split; [apply status_type_task_entry | apply (export_url_task_entry id "complete")].
Qed.

Lemma wait_for_completion_after_waiting_witness :
  let waiting := [status_response [task_entry "t1" "queued"];
                  status_response [task_entry "t1" "in_progress"]] in
  let w := sample_world (waiting ++ [status_response [task_entry "t1" "complete"]]) in
  exists events,
    wait_for_completion "secret" (JStr "t1") w = (Ok (JStr "https://files/t1"), after events [] w)
    /\ polls events = 3
    /\ sleeps events = [3; 3]%Z.
Proof.
  intros waiting w.
  apply (wait_for_completion_after_waiting "secret" (JStr "t1") w waiting
           (status_response [task_entry "t1" "complete"]) []).
  - reflexivity.
  - repeat constructor; apply in_progress_task_entry; discriminate.
  - apply complete_task_entry.
Defined.

Module SilenceFacts.
Import PollFacts.

(** A turn of the loop when the service does not answer. *)
Lemma poll_once_no_answer token task_id w :
  network w = [] ->
  poll_once token task_id w
  = (Raise ConnectionError, after [poll_request token task_id] [] w).
Proof.
  intros Hn. rewrite poll_once_request.
  unfold poll_answer. unfold bind at 1 2 3. unfold next_response.
  cbn [network with_trace]. rewrite Hn. f_equal.
  apply world_eq; cbn; auto.
Qed.

Lemma wait_until_complete_no_answer token task_id w :
  network w = [] ->
  wait_until_complete token task_id w
  = (Raise ConnectionError, after [poll_request token task_id] [] w).
Proof.
  intros Hn. rewrite wait_until_complete_unfold.
  now rewrite (poll_once_no_answer token task_id w Hn).
Qed.

End SilenceFacts.

(** X2.  The loop sets no bound of its own on the number of polls: while the
    responses leave the task in progress it sleeps and polls again, however
    many they are, and it ends only when the request itself fails, here with
    the [ConnectionError] of a service that has stopped answering. *)
Theorem wait_until_complete_never_gives_up token task_id w :
  Forall (in_progress_response task_id) (network w) ->
  exists events,
    wait_until_complete token task_id w = (Raise ConnectionError, after events [] w)
    /\ polls events = S (List.length (network w))
    /\ sleeps events = repeat wait_time (List.length (network w)).
Proof.
  intros Hwaiting.
  destruct (LoopFacts.wait_through token task_id (network w) Hwaiting w []
              (eq_sym (app_nil_r _))) as (events & Hloop & Hsleeps & Hpolls & _).
  exists (events ++ [PollFacts.poll_request token task_id])%list.
  split; [|split].
  - rewrite Hloop, SilenceFacts.wait_until_complete_no_answer by reflexivity.
    now rewrite PollFacts.after_after.
  - rewrite LoopFacts.polls_app, Hpolls. cbn. lia.
  - rewrite LoopFacts.sleeps_app, Hsleeps. cbn. now rewrite app_nil_r.
Qed.

Lemma wait_until_complete_never_gives_up_witness :
  let w := sample_world [status_response [task_entry "t1" "queued"];
                         status_response [task_entry "t1" "queued"];
                         status_response [JObj [("id", JStr "t1")]]] in
  exists events,
    wait_until_complete "secret" (JStr "t1") w = (Raise ConnectionError, after events [] w)
    /\ polls events = S (List.length (network w))
    /\ sleeps events = repeat wait_time (List.length (network w)).
Proof.
  intros w. apply (wait_until_complete_never_gives_up "secret" (JStr "t1") w).
  repeat constructor; try (apply in_progress_task_entry; discriminate).
  exists [JObj [("id", JStr "t1")]], (JObj [("id", JStr "t1")]).
  split; [apply answers_with_status_response|]. split.
  - exists [], []. repeat split; constructor.
  - left. eexists. split; reflexivity.
Defined.

(** ** What the client does to the outside, and what it leaves alone *)

Module Effects.

(** Every event the computation adds to the trace satisfies [P]. *)
Definition emits (P : event -> Prop) {A} (c : M world A) : Prop :=
  forall w, exists events,
    trace (snd (c w)) = (trace w ++ events)%list /\ Forall P events.

(** The computation leaves the part [f] of the world as it was. *)
Definition preserves {X} (f : world -> X) {A} (c : M world A) : Prop :=
  forall w, f (snd (c w)) = f w.

Section Emits.
Variable P : event -> Prop.

Lemma emits_pure {A} (c : M world A) : (forall w, snd (c w) = w) -> emits P c.
Proof. intros H w. exists []. rewrite H, app_nil_r. auto. Qed.

Lemma emits_same_trace {A} (c : M world A) :
  (forall w, trace (snd (c w)) = trace w) -> emits P c.
Proof. intros H w. exists []. rewrite H, app_nil_r. auto. Qed.

Lemma emits_ret {A} (a : A) : emits P (ret a).
Proof. now apply emits_pure. Qed.

Lemma emits_raise {A} (e : exn) : emits P (@raise world A e).
Proof. now apply emits_pure. Qed.

Lemma emits_get : emits P (@get world).
Proof. now apply emits_pure. Qed.

Lemma emits_lift_result {A} (r : result A) : emits P (lift_result r).
Proof. now apply emits_pure. Qed.

Lemma emits_log e : P e -> emits P (log e).
Proof. intros He w. exists [e]. split; [reflexivity | auto]. Qed.

Lemma emits_bind {A B} (c : M world A) (k : A -> M world B) :
  emits P c -> (forall a, emits P (k a)) -> emits P (bind c k).
Proof.
  intros Hc Hk w. unfold bind. destruct (Hc w) as (ev1 & He1 & Hp1).
  destruct (c w) as [[a|e] w1]; cbn [snd] in *; [|eauto].
  destruct (Hk a w1) as (ev2 & He2 & Hp2). exists (ev1 ++ ev2)%list.
  rewrite He2, He1, app_assoc. split; [reflexivity | now apply Forall_app].
Qed.

Lemma emits_if {A} (b : bool) (c1 c2 : M world A) :
  emits P c1 -> emits P c2 -> emits P (if b then c1 else c2).
Proof. destruct b; auto. Qed.

Lemma emits_next_response : emits P next_response.
Proof.
  apply emits_same_trace. intros w. unfold next_response. destruct (network w); reflexivity.
Qed.

Lemma emits_getitem v key : emits P (@Json.getitem world v key).
Proof. apply emits_pure. intros w. apply MainFacts.getitem_pure. Qed.

Lemma emits_contains key v : emits P (@Json.contains world key v).
Proof. apply emits_pure. intros w. destruct v; reflexivity. Qed.

Lemma emits_iter v : emits P (@Json.iter world v).
Proof. apply emits_pure. intros w. destruct v; reflexivity. Qed.

Lemma emits_item0 {A} (l : list A) : emits P (@Fs.item0 world A l).
Proof. apply emits_pure. intros w. destruct l; reflexivity. Qed.

Lemma emits_raise_for_status r : emits P (raise_for_status r).
Proof.
  apply emits_pure. intros w. unfold raise_for_status. destruct (ok r); reflexivity.
Qed.

Lemma emits_response_json r : emits P (response_json r).
Proof.
  apply emits_pure. intros w. unfold response_json. destruct (json r); reflexivity.
Qed.

Lemma emits_in_tmp {A} (c : M directory A) : emits P (in_tmp c).
Proof.
  apply emits_same_trace. intros w. unfold in_tmp. destruct (c (tmp w)). reflexivity.
Qed.

Lemma emits_in_repo {A} (c : M directory A) : emits P (in_repo c).
Proof.
  apply emits_same_trace. intros w. unfold in_repo. destruct (c (repo w)). reflexivity.
Qed.

Lemma emits_filter (f : JSON -> M world bool) items :
  (forall x, emits P (f x)) -> emits P (Json.filter f items).
Proof.
  intros Hf. induction items as [|x rest IH]; cbn [Json.filter].
  - apply emits_ret.
  - apply emits_bind; [apply Hf|]. intros keep.
    apply emits_bind; [exact IH|]. intros kept. apply emits_ret.
Qed.

Lemma emits_has_id task_id x : emits P (has_id task_id x).
Proof.
  unfold has_id. apply emits_bind; [apply emits_getitem | intros; apply emits_ret].
Qed.

Lemma emits_is_complete task_status : emits P (is_complete task_status).
Proof.
  unfold is_complete. apply emits_bind; [apply emits_contains|]. intros b.
  apply emits_if; [|apply emits_ret].
  apply emits_bind; [apply emits_getitem|]. intros status.
  apply emits_bind; [apply emits_getitem | intros; apply emits_ret].
Qed.

(** *** The requests of the client *)

Hypothesis print_allowed : forall text values, P (Print text values).

Lemma emits_print text values : emits P (print text values).
Proof. apply emits_log, print_allowed. Qed.

Lemma emits_requests_post url body sent :
  P (Post url body sent) -> emits P (requests_post url body sent).
Proof.
  intros H. unfold requests_post.
  apply emits_bind; [now apply emits_log | intros; apply emits_next_response].
Qed.

Variable token : string.
Hypothesis post_allowed :
  forall path body,
    path = "enqueueTask" \/ path = "getTasks" ->
    P (Post (NOTION_API_ROOT ++ "/" ++ path) body [("token_v2", token)]).

Lemma emits_send_post_request path body :
  path = "enqueueTask" \/ path = "getTasks" ->
  emits P (_send_post_request token path body).
Proof.
  intros Hpath. unfold _send_post_request.
  apply emits_bind; [apply emits_requests_post, post_allowed, Hpath|]. intros r.
  apply emits_bind; [apply emits_print|]. intros _.
  apply emits_bind; [apply emits_raise_for_status|]. intros _.
  apply emits_response_json.
Qed.

Lemma emits_launch_export_block_task space_id block_id :
  emits P (launch_export_block_task token space_id block_id).
Proof.
  unfold launch_export_block_task.
  apply emits_bind; [apply emits_send_post_request; now left|]. intros r.
  apply emits_getitem.
Qed.

Lemma emits_get_user_task_status task_id :
  emits P (get_user_task_status token task_id).
Proof.
  unfold get_user_task_status.
  apply emits_bind; [apply emits_send_post_request; now right|]. intros r.
  apply emits_bind; [apply emits_getitem|]. intros task_statuses.
  apply emits_bind; [apply emits_print|]. intros _.
  apply emits_bind; [apply emits_iter|]. intros items.
  apply emits_bind; [apply emits_filter, emits_has_id|]. intros matching.
  apply emits_item0.
Qed.

Hypothesis sleep_allowed : P (Sleep wait_time).

Lemma emits_poll_once task_id : emits P (poll_once token task_id).
Proof.
  unfold poll_once.
  apply emits_bind; [apply emits_get_user_task_status|]. intros task_status.
  apply emits_bind; [apply emits_is_complete|]. intros complete.
  apply emits_if; [apply emits_ret|].
  apply emits_bind; [apply emits_print|]. intros _.
  apply emits_bind; [now apply emits_log | intros; apply emits_ret].
Qed.

Lemma emits_wait_until_complete task_id : emits P (wait_until_complete token task_id).
Proof.
  intros w. funelim (wait_until_complete token task_id w);
    destruct (emits_poll_once task_id w) as (ev1 & He1 & Hp1);
    match goal with E : poll_once _ _ _ = _ |- _ => rewrite E in He1 end;
    cbn [snd] in He1; eauto.
  match goal with IH : exists _, _ |- _ => destruct IH as (ev2 & He2 & Hp2) end.
  exists (ev1 ++ ev2)%list. rewrite He2, He1, app_assoc.
  split; [reflexivity | now apply Forall_app].
Qed.

Lemma emits_wait_for_completion task_id : emits P (wait_for_completion token task_id).
Proof.
  unfold wait_for_completion.
  apply emits_bind; [apply emits_wait_until_complete|]. intros task_status.
  apply emits_bind; [apply emits_print|]. intros _.
  apply emits_bind; [apply emits_print|]. intros _.
  apply emits_bind; [apply emits_getitem|]. intros status.
  apply emits_getitem.
Qed.

Hypothesis get_allowed : forall url, P (Get url).

Lemma emits_requests_get url : emits P (requests_get url).
Proof.
  destruct url as [| | |u| |]; try apply emits_raise.
  cbn [requests_get]. destruct (Url.prepare u); [|apply emits_raise].
  apply emits_bind; [apply emits_log, get_allowed | intros; apply emits_next_response].
Qed.

Lemma emits_download_page space_id block_id :
  emits P (download_page token space_id block_id).
Proof.
  unfold download_page.
  apply emits_bind; [apply emits_launch_export_block_task|]. intros task_id.
  apply emits_bind; [apply emits_wait_for_completion|]. intros export_link.
  apply emits_bind; [apply emits_print|]. intros _.
  apply emits_bind; [apply emits_get|]. intros w0.
  apply emits_bind; [apply emits_in_tmp|]. intros _.
  apply emits_bind; [apply emits_print|]. intros _.
  apply emits_bind; [apply emits_requests_get|]. intros r.
  apply emits_bind; [apply emits_in_tmp|]. intros _.
  apply emits_bind; [apply emits_in_tmp|]. intros _.
  apply emits_ret.
Qed.

Lemma emits_rewrite_output tmp_dir : emits P (rewrite_output tmp_dir).
Proof.
  unfold rewrite_output. apply emits_bind; [apply emits_get|]. intros w0.
  destruct (output_listing tmp_dir w0); [apply emits_in_tmp | apply emits_lift_result].
Qed.

Lemma emits_publish tmp_dir : emits P (publish tmp_dir).
Proof.
  unfold publish. apply emits_bind; [apply emits_get|]. intros w0.
  destruct (output_listing tmp_dir w0); [apply emits_in_repo | apply emits_raise].
Qed.

Lemma emits_download_and_publish config :
  emits P (download_and_publish config token).
Proof.
  unfold download_and_publish.
  apply emits_bind; [apply emits_getitem|]. intros space_id.
  apply emits_bind; [apply emits_getitem|]. intros block_id.
  apply emits_bind; [apply emits_download_page|]. intros output_dir.
  apply emits_bind; [apply emits_rewrite_output|]. intros _.
  apply emits_publish.
Qed.

End Emits.

End Effects.

(** The directory of one run of [download_page], beneath the temporary
    directory. *)
Definition run_dir (block_id now : string) : string :=
  "export_" ++ block_id ++ "_" ++ now.

Module Frames.
Import Effects.

(** The computation keeps the invariant [I] of the world. *)
Definition stable (I : world -> Prop) {A} (c : M world A) : Prop :=
  forall w, I w -> I (snd (c w)).

Lemma mkdir_touches name d other :
  other <> name -> Fs.lookup other (snd (mkdir name d)) = Fs.lookup other d.
Proof.
  intros Hne. unfold mkdir, bind, get. cbn.
  destruct (Fs.lookup name d); cbn; [reflexivity|]. now apply FsFacts.lookup_set_neq.
Qed.

Lemma in_subdir_touches {A} name (c : M directory A) d other :
  other <> name -> Fs.lookup other (snd (in_subdir name c d)) = Fs.lookup other d.
Proof.
  intros Hne. unfold in_subdir.
  destruct (Fs.lookup name d) as [[t|inner]|]; try reflexivity.
  destruct (c inner). cbn. now apply FsFacts.lookup_set_neq.
Qed.

Section Stable.
Variable I : world -> Prop.

Lemma stable_pure {A} (c : M world A) : (forall w, snd (c w) = w) -> stable I c.
Proof. intros H w Hw. now rewrite H. Qed.

Lemma stable_ret {A} (a : A) : stable I (ret a).
Proof. now apply stable_pure. Qed.

Lemma stable_raise {A} (e : exn) : stable I (@raise world A e).
Proof. now apply stable_pure. Qed.

Lemma stable_bind {A B} (c : M world A) (k : A -> M world B) :
  stable I c -> (forall a, stable I (k a)) -> stable I (bind c k).
Proof.
  intros Hc Hk w Hw. unfold bind. specialize (Hc w Hw).
  destruct (c w) as [[a|e] w1]; cbn [snd] in *; [now apply Hk | exact Hc].
Qed.

(** After [w <- get], the rest runs from a world that satisfies [I]. *)
Lemma stable_bind_get {B} (k : world -> M world B) :
  (forall w0, I w0 -> stable I (k w0)) -> stable I (bind get k).
Proof. intros Hk w Hw. unfold bind, get. now apply Hk. Qed.

Lemma stable_if {A} (b : bool) (c1 c2 : M world A) :
  stable I c1 -> stable I c2 -> stable I (if b then c1 else c2).
Proof. destruct b; auto. Qed.

Lemma stable_getitem v key : stable I (@Json.getitem world v key).
Proof. apply stable_pure. intros w. apply MainFacts.getitem_pure. Qed.

Lemma stable_contains key v : stable I (@Json.contains world key v).
Proof. apply stable_pure. intros w. destruct v; reflexivity. Qed.

Lemma stable_iter v : stable I (@Json.iter world v).
Proof. apply stable_pure. intros w. destruct v; reflexivity. Qed.

Lemma stable_item0 {A} (l : list A) : stable I (@Fs.item0 world A l).
Proof. apply stable_pure. intros w. destruct l; reflexivity. Qed.

Lemma stable_raise_for_status r : stable I (raise_for_status r).
Proof.
  apply stable_pure. intros w. unfold raise_for_status. destruct (ok r); reflexivity.
Qed.

Lemma stable_response_json r : stable I (response_json r).
Proof.
  apply stable_pure. intros w. unfold response_json. destruct (json r); reflexivity.
Qed.

Lemma stable_filter (f : JSON -> M world bool) items :
  (forall x, stable I (f x)) -> stable I (Json.filter f items).
Proof.
  intros Hf. induction items as [|x rest IH]; cbn [Json.filter].
  - apply stable_ret.
  - apply stable_bind; [apply Hf|]. intros keep.
    apply stable_bind; [exact IH|]. intros kept. apply stable_ret.
Qed.

Lemma stable_has_id task_id x : stable I (has_id task_id x).
Proof.
  unfold has_id. apply stable_bind; [apply stable_getitem | intros; apply stable_ret].
Qed.

Lemma stable_is_complete task_status : stable I (is_complete task_status).
Proof.
  unfold is_complete. apply stable_bind; [apply stable_contains|]. intros b.
  apply stable_if; [|apply stable_ret].
  apply stable_bind; [apply stable_getitem|]. intros status.
  apply stable_bind; [apply stable_getitem | intros; apply stable_ret].
Qed.

(** *** An invariant that the trace and the network do not bear on *)

Hypothesis I_trace : forall t w, I w -> I (with_trace t w).
Hypothesis I_network : forall n w, I w -> I (with_network n w).

Lemma stable_log e : stable I (log e).
Proof. intros w Hw. cbn. now apply I_trace. Qed.

Lemma stable_next_response : stable I next_response.
Proof.
  intros w Hw. unfold next_response. destruct (network w); cbn; [exact Hw|].
  now apply I_network.
Qed.

Lemma stable_requests_post url body sent : stable I (requests_post url body sent).
Proof.
  unfold requests_post.
  apply stable_bind; [apply stable_log | intros; apply stable_next_response].
Qed.

Lemma stable_send_post_request token path body :
  stable I (_send_post_request token path body).
Proof.
  unfold _send_post_request.
  apply stable_bind; [apply stable_requests_post|]. intros r.
  apply stable_bind; [apply stable_log|]. intros _.
  apply stable_bind; [apply stable_raise_for_status|]. intros _.
  apply stable_response_json.
Qed.

Lemma stable_launch_export_block_task token space_id block_id :
  stable I (launch_export_block_task token space_id block_id).
Proof.
  unfold launch_export_block_task.
  apply stable_bind; [apply stable_send_post_request | intros; apply stable_getitem].
Qed.

Lemma stable_get_user_task_status token task_id :
  stable I (get_user_task_status token task_id).
Proof.
  unfold get_user_task_status.
  apply stable_bind; [apply stable_send_post_request|]. intros r.
  apply stable_bind; [apply stable_getitem|]. intros task_statuses.
  apply stable_bind; [apply stable_log|]. intros _.
  apply stable_bind; [apply stable_iter|]. intros items.
  apply stable_bind; [apply stable_filter, stable_has_id|]. intros matching.
  apply stable_item0.
Qed.

Lemma stable_poll_once token task_id : stable I (poll_once token task_id).
Proof.
  unfold poll_once.
  apply stable_bind; [apply stable_get_user_task_status|]. intros task_status.
  apply stable_bind; [apply stable_is_complete|]. intros complete.
  apply stable_if; [apply stable_ret|].
  apply stable_bind; [apply stable_log|]. intros _.
  apply stable_bind; [apply stable_log | intros; apply stable_ret].
Qed.

Lemma stable_wait_until_complete token task_id :
  stable I (wait_until_complete token task_id).
Proof.
  intros w. funelim (wait_until_complete token task_id w); intros Hw;
    pose proof (stable_poll_once token task_id w Hw) as H1;
    match goal with E : poll_once _ _ _ = _ |- _ => rewrite E in H1 end;
    cbn [snd] in H1; auto.
Qed.

Lemma stable_wait_for_completion token task_id :
  stable I (wait_for_completion token task_id).
Proof.
  unfold wait_for_completion.
  apply stable_bind; [apply stable_wait_until_complete|]. intros task_status.
  apply stable_bind; [apply stable_log|]. intros _.
  apply stable_bind; [apply stable_log|]. intros _.
  apply stable_bind; [apply stable_getitem|]. intros status.
  apply stable_getitem.
Qed.

Lemma stable_requests_get url : stable I (requests_get url).
Proof.
  destruct url as [| | |u| |]; try apply stable_raise.
  cbn [requests_get]. destruct (Url.prepare u); [|apply stable_raise].
  apply stable_bind; [apply stable_log | intros; apply stable_next_response].
Qed.

(** *** An invariant that only the directory of the run may break *)

Variables block_id now : string.
Hypothesis I_clock : forall w, I w -> clock w = now.
Hypothesis I_tmp :
  forall w d,
    I w ->
    (forall other, other <> run_dir block_id now -> Fs.lookup other d = Fs.lookup other (tmp w)) ->
    I (with_tmp d w).

Lemma stable_in_tmp {A} (c : M directory A) :
  (forall d other, other <> run_dir block_id now ->
                   Fs.lookup other (snd (c d)) = Fs.lookup other d) ->
  stable I (in_tmp c).
Proof.
  intros Hc w Hw. unfold in_tmp. specialize (Hc (tmp w)).
  destruct (c (tmp w)) as [r d]. cbn [snd] in *. now apply I_tmp.
Qed.

Lemma stable_download_page token space_id :
  stable I (download_page token space_id block_id).
Proof.
  unfold download_page.
  apply stable_bind; [apply stable_launch_export_block_task|]. intros task_id.
  apply stable_bind; [apply stable_wait_for_completion|]. intros export_link.
  apply stable_bind; [apply stable_log|]. intros _.
  apply stable_bind_get. intros w0 Hw0. rewrite (I_clock w0 Hw0).
  fold (run_dir block_id now).
  apply stable_bind; [apply stable_in_tmp; intros; now apply mkdir_touches|]. intros _.
  apply stable_bind; [apply stable_log|]. intros _.
  apply stable_bind; [apply stable_requests_get|]. intros r.
  apply stable_bind; [apply stable_in_tmp; intros; now apply in_subdir_touches|]. intros _.
  apply stable_bind; [apply stable_in_tmp; intros; now apply in_subdir_touches|]. intros _.
  apply stable_ret.
Qed.

End Stable.

End Frames.

(** *** Sample answers of the service *)

(** A page that names its assets, with a line that ends in a carriage
    return and a line feed, and a letter of two bytes. *)
Definition sample_export_page : string :=
  "<img src=My%20Page%200a1b/a.png>" ++ String "013" (String "010" "")
  ++ "<p>caf" ++ String "195" (String "169" "</p>").

Definition accepted_response (id : string) : response :=
  {| ok := true; json := Some (JObj [("taskId", JStr id)]); cookies := [];
     content := ""; archive := None |}.

Definition zip_response (members : directory) : response :=
  {| ok := false; json := None; cookies := []; content := "PK"; archive := Some members |}.

Definition sample_export : directory :=
  [("My Page 0a1b.html", File sample_export_page);
   ("My Page 0a1b", Dir [("a.png", File "png")])].

(** What the export client may do to the outside with the token [token]:
    post to [enqueueTask] and [getTasks], always with the token as the
    [token_v2] cookie; fetch a URL; print; sleep for [wait_time] seconds.
    It does not prompt, and it posts to no other endpoint. *)
Definition client_event (token : string) (e : event) : Prop :=
  match e with
  | Post url _ sent =>
      (url = NOTION_API_ROOT ++ "/enqueueTask" \/ url = NOTION_API_ROOT ++ "/getTasks")
      /\ sent = [("token_v2", token)]
  | Get _ => True
  | Print _ _ => True
  | Sleep seconds => seconds = wait_time
  | Input _ => False
  end.

Lemma client_event_post token path body :
  path = "enqueueTask" \/ path = "getTasks" ->
  client_event token (Post (NOTION_API_ROOT ++ "/" ++ path) body [("token_v2", token)]).
Proof. intros [-> | ->]; cbn; auto. Qed.

(** X3.  Whatever the service answers, and however [download_page] ends, all
    it does to the outside is: post to [enqueueTask] and [getTasks] with the
    token as [token_v2] cookie, fetch, print, and sleep for three seconds.
    It never prompts and never posts to the log-in endpoints. *)
Theorem download_page_events token space_id block_id w :
  exists events,
    trace (snd (download_page token space_id block_id w)) = (trace w ++ events)%list
    /\ Forall (client_event token) events.
Proof.
  apply (Effects.emits_download_page (client_event token)); cbn; auto.
  apply client_event_post.
Qed.

(** X4.  When the name of the run's directory, made of the block id and the
    time, is the name of one entry of the temporary directory (no slash in
    it: it is no path that leads elsewhere), then whatever the service
    answers, and however [download_page] ends, it leaves the deployment
    directory, the standard input, the environment and the configuration
    alone, and in the temporary directory it touches nothing but that
    entry. *)
Theorem download_page_frame token space_id block_id w :
  Fs.entry_name (run_dir block_id (clock w)) = true ->
  let w' := snd (download_page token space_id block_id w) in
  repo w' = repo w
  /\ stdin w' = stdin w
  /\ NOTION_TOKEN w' = NOTION_TOKEN w
  /\ notion_config w' = notion_config w
  /\ forall other, other <> run_dir block_id (clock w) ->
                   Fs.lookup other (tmp w') = Fs.lookup other (tmp w).
Proof.
  intros _.
  set (I := fun w' : world =>
              clock w' = clock w
              /\ repo w' = repo w
              /\ stdin w' = stdin w
              /\ NOTION_TOKEN w' = NOTION_TOKEN w
              /\ notion_config w' = notion_config w
              /\ forall other, other <> run_dir block_id (clock w) ->
                               Fs.lookup other (tmp w') = Fs.lookup other (tmp w)).
  assert (HI : I (snd (download_page token space_id block_id w))).
  { apply (Frames.stable_download_page I) with (now := clock w).
    - intros t w0 H. exact H.
    - intros n w0 H. exact H.
    - intros w0 H. apply H.
    - intros w0 d (Hc & Hr & Hs & Ht & Hn & Hd) Hother.
      repeat split; try assumption.
      intros other Hne. cbn. rewrite (Hother other Hne). now apply Hd.
    - repeat split. }
  destruct HI as (_ & Hr & Hs & Ht & Hn & Hd). cbv zeta. auto.
Qed.

Lemma download_page_frame_witness :
  let w := with_tmp [("notes", Dir [("todo.txt", File "todo")])]
             (sample_world [accepted_response "t1";
                            status_response [task_entry "t1" "complete"];
                            zip_response sample_export]) in
  let w' := snd (download_page "secret" "space" "block" w) in
  repo w' = repo w
  /\ stdin w' = stdin w
  /\ NOTION_TOKEN w' = NOTION_TOKEN w
  /\ notion_config w' = notion_config w
  /\ forall other, other <> "export_block_2024-01-01-00-00-00" ->
                   Fs.lookup other (tmp w') = Fs.lookup other (tmp w).
Proof.
  intros w. apply (download_page_frame "secret" "space" "block" w). reflexivity.
Defined.

Module RhythmFacts.
Import PollFacts Effects.

Definition is_print (e : event) : Prop := exists text values, e = Print text values.

Lemma prints_silent events :
  Forall is_print events -> polls events = 0 /\ sleeps events = [].
Proof.
  induction 1 as [|e events (t & v & ->) _ [IHp IHs]]; [split; reflexivity|].
  split; [exact IHp | exact IHs].
Qed.

Lemma is_print_print text values : is_print (Print text values).
Proof. now exists text, values. Qed.

(** The answer to a status request, up to the entry of the task. *)
Definition status_answer (task_id : JSON) : M world JSON :=
  r <- (response <- next_response ;;
        print "{response.request.body}" [JObj [("taskIds", JArr [task_id])]] ;;;
        raise_for_status response ;;;
        response_json response) ;;
  task_statuses <- Json.getitem r "results" ;;
  print "{task_statuses}" [task_statuses] ;;;
  items <- Json.iter task_statuses ;;
  matching <- Json.filter (has_id task_id) items ;;
  Fs.item0 matching.

Lemma emits_status_answer task_id : emits is_print (status_answer task_id).
Proof.
  unfold status_answer. apply emits_bind.
  - apply emits_bind; [apply emits_next_response|]. intros r.
    apply emits_bind; [apply emits_print, is_print_print|]. intros _.
    apply emits_bind; [apply emits_raise_for_status|]. intros _.
    apply emits_response_json.
  - intros r. apply emits_bind; [apply emits_getitem|]. intros task_statuses.
    apply emits_bind; [apply emits_print, is_print_print|]. intros _.
    apply emits_bind; [apply emits_iter|]. intros items.
    apply emits_bind; [apply emits_filter, emits_has_id|]. intros matching.
    apply emits_item0.
Qed.

Lemma poll_answer_cases task_id w :
  poll_answer task_id w
  = match status_answer task_id w with
    | (Ok ts, w1) =>
        match is_complete ts w1 with
        | (Ok true, w2) => (Ok (Some ts), w2)
        | (Ok false, w2) => (Ok None, with_trace (trace w2 ++ wait_events) w2)
        | (Raise e, w2) => (Raise e, w2)
        end
    | (Raise e, w1) => (Raise e, w1)
    end.
Proof.
  unfold poll_answer. fold (status_answer task_id). unfold bind at 1.
  destruct (status_answer task_id w) as [[ts|e] w1]; [|reflexivity].
  unfold bind at 1. destruct (is_complete ts w1) as [[[|]|e] w2]; try reflexivity.
  unfold print, sleep, bind, log, ret. f_equal.
  apply world_eq; cbn; auto. now rewrite <- app_assoc.
Qed.

(** What a turn of the loop adds to the trace after its request: prints,
    and one sleep exactly when the loop is to go round again. *)
Lemma poll_answer_turn task_id w :
  exists events,
    trace (snd (poll_answer task_id w)) = (trace w ++ events)%list
    /\ polls events = 0
    /\ sleeps events = match fst (poll_answer task_id w) with
                       | Ok None => [wait_time]
                       | _ => []
                       end.
Proof.
  rewrite poll_answer_cases.
  destruct (emits_status_answer task_id w) as (ev1 & He1 & Hp1).
  destruct (status_answer task_id w) as [[ts|e] w1]; cbn [fst snd] in *.
  - destruct (emits_is_complete is_print ts w1) as (ev2 & He2 & Hp2).
    destruct (is_complete ts w1) as [[[|]|e] w2]; cbn [fst snd] in *.
    + exists (ev1 ++ ev2)%list. rewrite He2, He1, app_assoc.
      split; [reflexivity|]. apply prints_silent. now apply Forall_app.
    + exists ((ev1 ++ ev2) ++ wait_events)%list. cbn [trace with_trace].
      rewrite He2, He1. split; [now rewrite <- !app_assoc|].
      destruct (prints_silent (ev1 ++ ev2)) as [Hp Hs]; [now apply Forall_app|].
      rewrite LoopFacts.polls_app, LoopFacts.sleeps_app, Hp, Hs. split; reflexivity.
    + exists (ev1 ++ ev2)%list. rewrite He2, He1, app_assoc.
      split; [reflexivity|]. apply prints_silent. now apply Forall_app.
  - exists ev1. split; [exact He1|]. now apply prints_silent.
Qed.

Lemma poll_once_turn token task_id w :
  exists events,
    trace (snd (poll_once token task_id w)) = (trace w ++ events)%list
    /\ polls events = 1
    /\ sleeps events = match fst (poll_once token task_id w) with
                       | Ok None => [wait_time]
                       | _ => []
                       end.
Proof.
  rewrite poll_once_request.
  destruct (poll_answer_turn task_id
              (with_trace (trace w ++ [poll_request token task_id]) w))
    as (events & He & Hp & Hs).
  exists (poll_request token task_id :: events). rewrite He. cbn [trace with_trace].
  split; [now rewrite <- app_assoc|]. split; [|exact Hs].
  change (poll_request token task_id :: events)
    with ([poll_request token task_id] ++ events)%list.
  rewrite LoopFacts.polls_app, Hp. reflexivity.
Qed.

End RhythmFacts.

(** X5.  However the loop ends (with the task complete, or with an
    exception), it has polled once more than it has slept, and each sleep
    was of [wait_time] seconds: one fixed delay between two polls, no
    back-off, and never a sleep after the last poll. *)
Theorem wait_until_complete_rhythm token task_id w :
  exists events,
    trace (snd (wait_until_complete token task_id w)) = (trace w ++ events)%list
    /\ polls events = S (List.length (sleeps events))
    /\ Forall (eq wait_time) (sleeps events).
Proof.
  funelim (wait_until_complete token task_id w);
    destruct (RhythmFacts.poll_once_turn token task_id w) as (ev1 & He1 & Hp1 & Hs1);
    match goal with E : poll_once _ _ _ = _ |- _ => rewrite E in He1, Hs1 end;
    cbn [fst snd] in He1, Hs1.
  - exists ev1. rewrite Hs1. repeat split; auto.
  - match goal with IH : exists _, _ |- _ => destruct IH as (ev2 & He2 & Hp2 & Hs2) end.
    exists (ev1 ++ ev2)%list. rewrite He2, He1, app_assoc.
    split; [reflexivity|].
    rewrite LoopFacts.polls_app, LoopFacts.sleeps_app, Hp1, Hp2, Hs1.
    split; [reflexivity|]. constructor; [reflexivity | exact Hs2].
  - exists ev1. rewrite Hs1. repeat split; auto.
Qed.

(** ** main with a token *)

Module TokenFacts.
Import Frames.

Lemma main_after_config w :
  main w
  = match load_notion_config w with
    | (Ok config, _) =>
        if not_token (NOTION_TOKEN w) then obtain_token config w
        else download_and_publish config
               (match NOTION_TOKEN w with Some t => t | None => "" end) w
    | (Raise e, _) => (Raise e, w)
    end.
Proof.
  unfold main, bind, get.
  pose proof (MainFacts.load_notion_config_pure w) as Hload.
  destruct (load_notion_config w) as [[config|e] w0]; cbn [snd] in Hload; subst w0;
    [now destruct (not_token (NOTION_TOKEN w)) | reflexivity].
Qed.

Lemma stdin_download_and_publish config token w :
  stdin (snd (download_and_publish config token w)) = stdin w.
Proof.
  set (I := fun w' : world => stdin w' = stdin w /\ clock w' = clock w).
  assert (Htmp : forall A (c : M directory A), stable I (in_tmp c)).
  { intros A c w0 H. unfold in_tmp. destruct (c (tmp w0)). exact H. }
  assert (Hrepo : forall A (c : M directory A), stable I (in_repo c)).
  { intros A c w0 H. unfold in_repo. destruct (c (repo w0)). exact H. }
  assert (HI : stable I (download_and_publish config token)).
  { unfold download_and_publish.
    apply stable_bind; [apply stable_getitem|]. intros space_id.
    apply stable_bind; [apply stable_getitem|]. intros block_id.
    apply stable_bind.
    - apply stable_download_page with (now := clock w); try (intros; assumption).
      intros w0 H. apply H.
    - intros output_dir. apply stable_bind.
      + unfold rewrite_output. apply stable_bind_get. intros w0 _.
        destruct (output_listing output_dir w0); [apply Htmp | now apply stable_pure].
      + intros _. unfold publish. apply stable_bind_get. intros w0 _.
        destruct (output_listing output_dir w0); [apply Hrepo | apply stable_raise]. }
  now destruct (HI w (conj eq_refl eq_refl)).
Qed.

End TokenFacts.

(** X6.  With a token in [NOTION_TOKEN], [main] never logs in: however the
    run ends, it has not prompted for a one-time password nor read the
    standard input, it has posted only to [enqueueTask] and [getTasks], each
    time with the token of the environment as [token_v2] cookie, and it has
    slept only for three seconds at a time. *)
Theorem main_with_token w token :
  NOTION_TOKEN w = Some token ->
  token <> "" ->
  stdin (snd (main w)) = stdin w
  /\ exists events,
      trace (snd (main w)) = (trace w ++ events)%list
      /\ Forall (client_event token) events.
Proof.
  intros Htoken Hne. rewrite TokenFacts.main_after_config.
  destruct (load_notion_config w) as [[config|e] w0].
  - rewrite Htoken. cbn [not_token].
    apply String.eqb_neq in Hne. rewrite Hne. split.
    + apply TokenFacts.stdin_download_and_publish.
    + apply (Effects.emits_download_and_publish (client_event token)); cbn; auto.
      apply client_event_post.
  - split; [reflexivity|]. exists []. cbn. now rewrite app_nil_r.
Qed.

Lemma main_with_token_witness :
  let w := sample_login_world (Some "secret") in
  stdin (snd (main w)) = stdin w
  /\ exists events,
      trace (snd (main w)) = (trace w ++ events)%list
      /\ Forall (client_event "secret") events.
Proof.
  intros w. apply (main_with_token w "secret"); [reflexivity | discriminate].
Defined.

(** ** rewrite_html in a directory with other entries *)

Module DirFacts.

Lemma lookup_set name key x d :
  Fs.lookup key (Fs.set name x d) = if String.eqb name key then Some x else Fs.lookup key d.
Proof.
  destruct (String.eqb_spec name key) as [->|Hne].
  - apply FsFacts.lookup_set_eq.
  - apply FsFacts.lookup_set_neq. congruence.
Qed.

Lemma lookup_remove name key d :
  Fs.lookup key (Fs.remove name d) = if String.eqb name key then None else Fs.lookup key d.
Proof.
  induction d as [|[n y] d IH]; cbn -[String.eqb].
  - now destruct (String.eqb name key).
  - destruct (String.eqb_spec n name) as [->|Hn]; cbn -[String.eqb].
    + rewrite IH. now destruct (String.eqb name key).
    + rewrite IH. destruct (String.eqb_spec n key) as [->|Hk]; [|reflexivity].
      destruct (String.eqb_spec name key); [congruence | reflexivity].
Qed.

Lemma lookup_listed name d x : Fs.lookup name d = Some x -> In name (Fs.names d).
Proof.
  induction d as [|[n y] d IH]; cbn -[String.eqb]; [discriminate|].
  destruct (String.eqb_spec n name) as [->|_]; [now left | right; auto].
Qed.

(** The one match of a pattern is the only entry the pattern accepts. *)
Lemma only_match (p : string -> bool) d page name x :
  filter p (Fs.names d) = [page] ->
  Fs.lookup name d = Some x -> p name = true -> name = page.
Proof.
  intros Hglob Hx Hp.
  assert (Hin : In name (filter p (Fs.names d))).
  { apply filter_In. split; [eapply lookup_listed; eassumption | exact Hp]. }
  rewrite Hglob in Hin. destruct Hin as [H|[]]. now symmetry.
Qed.

Lemma match_accepted (p : string -> bool) names page :
  filter p names = [page] -> p page = true.
Proof.
  intros H. assert (Hin : In page (filter p names)) by (rewrite H; now left).
  now apply filter_In in Hin.
Qed.

Lemma rename_moves src dst d x :
  Fs.dot_name src = false -> Fs.lookup src d = Some x ->
  src <> dst -> Fs.lookup dst d = None ->
  Fs.rename src dst d = (Ok tt, Fs.set dst x (Fs.remove src d)).
Proof.
  intros Hdot Hsrc Hne Hdst. unfold Fs.rename, bind, get. rewrite Hdot, Hsrc, Hdst.
  apply String.eqb_neq in Hne. rewrite Hne. now destruct x.
Qed.

Lemma rename_same src d x :
  Fs.dot_name src = false -> Fs.lookup src d = Some x ->
  Fs.rename src src d = (Ok tt, d).
Proof.
  intros Hdot Hsrc. unfold Fs.rename, bind, get. now rewrite Hdot, Hsrc, String.eqb_refl.
Qed.

Lemma rename_missing src dst d :
  Fs.dot_name src = false -> Fs.lookup src d = None ->
  Fs.rename src dst d = (Raise (OSError FileNotFoundError), d).
Proof.
  intros Hdot Hsrc. unfold Fs.rename, bind, get. now rewrite Hdot, Hsrc.
Qed.

Lemma html_not_dot page : Str.endswith ".html" page = true -> Fs.dot_name page = false.
Proof.
  intros H. unfold Fs.dot_name.
  destruct (String.eqb_spec page "") as [->|_]; [discriminate|].
  destruct (String.eqb_spec page ".") as [->|_]; [discriminate|].
  destruct (String.eqb_spec page "..") as [->|_]; [discriminate|].
  reflexivity.
Qed.

Lemma length_take n s : String.length (Str.take n s) = Nat.min n (String.length s).
Proof.
  revert s. induction n as [|n IH]; intros [|c s]; cbn; auto.
Qed.

Lemma html_longer page :
  Str.endswith ".html" page = true ->
  String.length (Str.slice_to_minus 5 page) < String.length page.
Proof.
  unfold Str.endswith, Str.slice_to_minus. intros H.
  apply andb_true_iff in H as [H _]. apply Nat.leb_le in H. cbn in H.
  rewrite length_take. lia.
Qed.

Lemma html_name_differs page :
  Str.endswith ".html" page = true -> Str.slice_to_minus 5 page <> page.
Proof.
  intros H E. apply html_longer in H. rewrite E in H. lia.
Qed.

Section OnePage.

Variables (d : directory) (page text : string).
Hypothesis Hglob : filter (Str.endswith ".html") (Fs.names d) = [page].
Hypothesis Hpage : Fs.lookup page d = Some (File text).

Let name := Str.slice_to_minus 5 page.
Let written := Fs.set page (File (rewritten_text name (Str.universal_newlines text))) d.

Hypothesis Htext : Utf8.valid text = true.
Hypothesis Hname : Utf8.valid name = true.

(** The steps of [rewrite_html] up to the two renames, for a page that can
    be decoded and a name that can be encoded. *)
Lemma rewrite_html_written :
  rewrite_html d
  = bind (Fs.rename page "index.html") (fun _ => Fs.rename name "assets") written.
Proof.
  unfold rewrite_html, Fs.glob_html, Fs.read_text, Fs.write_text, encodable,
    bind, get, ret, put.
  cbn beta iota. rewrite Hglob. cbn [List.length Nat.eqb assert Fs.item0 ret].
  unfold ret, raise. cbn beta iota. rewrite Hpage. cbn beta iota. rewrite Htext.
  cbn beta iota. fold name. rewrite Hname. cbn beta iota. rewrite Hpage.
  reflexivity.
Qed.

Lemma page_is_html : Str.endswith ".html" page = true.
Proof. exact (match_accepted _ _ _ Hglob). Qed.

Lemma no_other_html other :
  Str.endswith ".html" other = true -> other <> page -> Fs.lookup other d = None.
Proof.
  intros Hp Hne. destruct (Fs.lookup other d) as [x|] eqn:E; [|reflexivity].
  exfalso. apply Hne. eapply only_match; eassumption.
Qed.

(** The page, once written back, under its new name. *)
Lemma page_renamed :
  exists renamed,
    Fs.rename page "index.html" written = (Ok tt, renamed)
    /\ forall key,
        Fs.lookup key renamed
        = if String.eqb key "index.html"
          then Some (File (rewritten_text name (Str.universal_newlines text)))
          else if String.eqb key page then None
          else Fs.lookup key d.
Proof.
  pose proof page_is_html as Hhtml.
  assert (Hw : Fs.lookup page written
               = Some (File (rewritten_text name (Str.universal_newlines text)))).
  { unfold written. now rewrite lookup_set, String.eqb_refl. }
  destruct (String.eqb_spec page "index.html") as [Hi|Hi].
  - exists written. split.
    + rewrite <- Hi at 1. eapply rename_same; [now apply html_not_dot | exact Hw].
    + intros key. unfold written. rewrite lookup_set, Hi, (String.eqb_sym key).
      now destruct (String.eqb "index.html" key).
  - eexists. split.
    + apply rename_moves; [now apply html_not_dot | exact Hw | exact Hi |].
      unfold written. rewrite lookup_set.
      destruct (String.eqb_spec page "index.html"); [contradiction|].
      apply no_other_html; [reflexivity | congruence].
    + intros key. unfold written.
      rewrite lookup_set, lookup_remove, lookup_set, !(String.eqb_sym key).
      destruct (String.eqb "index.html" key); [reflexivity|].
      now destruct (String.eqb page key).
Qed.

End OnePage.

(** A page without an entry of its name beside it: the second rename fails,
    after the page was written back and renamed. *)
Lemma rewrite_html_stranded (d : directory) (page text : string) :
  let name := Str.slice_to_minus 5 page in
  filter (Str.endswith ".html") (Fs.names d) = [page] ->
  Fs.lookup page d = Some (File text) ->
  Utf8.valid text = true ->
  Utf8.valid name = true ->
  Fs.lookup name d = None ->
  Fs.dot_name name = false ->
  name <> "index.html" ->
  exists d',
    rewrite_html d = (Raise (OSError FileNotFoundError), d')
    /\ forall key,
        Fs.lookup key d'
        = if String.eqb key "index.html"
          then Some (File (rewritten_text name (Str.universal_newlines text)))
          else if String.eqb key page then None
          else Fs.lookup key d.
Proof.
  intros name Hglob Hpage Htext Hvalid Hname Hdot Hni.
  destruct (page_renamed d page text Hglob) as (renamed & Hrename & Hlookup).
  fold name in Hlookup.
  exists renamed. split; [|exact Hlookup].
  rewrite (rewrite_html_written d page text Hglob Hpage Htext Hvalid).
  unfold bind. rewrite Hrename. fold name.
  apply rename_missing; [assumption|].
  rewrite Hlookup.
  destruct (String.eqb_spec name "index.html"); [contradiction|].
  now destruct (String.eqb name page).
Qed.

End DirFacts.

(** X7.  In a directory with any other entries, where one entry matches
    [*.html] and is a file whose bytes are UTF-8, where the page's name is
    UTF-8 too and an entry of that name lies beside the page, and where
    nothing is called [assets] yet, [rewrite_html] succeeds: [index.html]
    holds the rewritten text of the page as it was decoded (line endings
    read as line feeds), the entry of the page's name is [assets], the
    page's own name is gone, the old name of the page file is gone unless
    that name was [index.html], and every other entry is as it was. *)
Theorem rewrite_html_other_entries (d : directory) (page text : string) (x : node) :
  let name := Str.slice_to_minus 5 page in
  filter (Str.endswith ".html") (Fs.names d) = [page] ->
  Fs.lookup page d = Some (File text) ->
  Utf8.valid text = true ->
  Utf8.valid name = true ->
  Fs.lookup name d = Some x ->
  Fs.dot_name name = false ->
  Fs.lookup "assets" d = None ->
  exists d',
    rewrite_html d = (Ok tt, d')
    /\ forall key,
        Fs.lookup key d'
        = if String.eqb key "index.html"
          then Some (File (rewritten_text name (Str.universal_newlines text)))
          else if String.eqb key "assets" then Some x
          else if String.eqb key page || String.eqb key name then None
          else Fs.lookup key d.
Proof.
  intros name Hglob Hpage Htext Hvalid Hname Hdot Hassets.
  destruct (DirFacts.page_renamed d page text Hglob) as (renamed & Hrename & Hlookup).
  fold name in Hlookup.
  pose proof (DirFacts.page_is_html d page Hglob) as Hhtml.
  assert (Hnp : name <> page) by now apply DirFacts.html_name_differs.
  assert (Hni : name <> "index.html").
  { intros E. apply Hnp. eapply DirFacts.only_match; try eassumption. now rewrite E. }
  assert (Hna : name <> "assets") by congruence.
  assert (Hpa : page <> "assets") by (intros E; rewrite E in Hhtml; discriminate).
  eexists. split.
  - rewrite (DirFacts.rewrite_html_written d page text Hglob Hpage Htext Hvalid).
    unfold bind. rewrite Hrename. fold name.
    apply DirFacts.rename_moves with (x := x); try assumption.
    + rewrite Hlookup.
      destruct (String.eqb_spec name "index.html"); [contradiction|].
      destruct (String.eqb_spec name page); [contradiction | exact Hname].
    + rewrite Hlookup. cbn -[String.eqb].
      destruct (String.eqb_spec "assets" page); [congruence | exact Hassets].
  - intros key. rewrite DirFacts.lookup_set, DirFacts.lookup_remove, Hlookup.
    rewrite !(String.eqb_sym key).
    destruct (String.eqb_spec "assets" key) as [<-|Hka].
    + reflexivity.
    + destruct (String.eqb_spec "index.html" key) as [<-|Hki].
      * destruct (String.eqb_spec name "index.html"); [contradiction | reflexivity].
      * destruct (String.eqb_spec name key) as [<-|Hkn]; [now rewrite orb_true_r|].
        now rewrite orb_false_r.
Qed.

Lemma rewrite_html_other_entries_witness :
  let d := [("styles.css", File "body {}");
            ("My Page 0a1b.html", File sample_export_page);
            ("My Page 0a1b", Dir [("a.png", File "png")]);
            ("favicon", Dir [])] in
  exists d',
    rewrite_html d = (Ok tt, d')
    /\ forall key,
        Fs.lookup key d'
        = if String.eqb key "index.html"
          then Some (File (rewritten_text "My Page 0a1b"
                             (Str.universal_newlines sample_export_page)))
          else if String.eqb key "assets" then Some (Dir [("a.png", File "png")])
          else if String.eqb key "My Page 0a1b.html" || String.eqb key "My Page 0a1b" then None
          else Fs.lookup key d.
Proof.
  intros d.
  apply (rewrite_html_other_entries d "My Page 0a1b.html" sample_export_page
           (Dir [("a.png", File "png")])); reflexivity.
Defined.

(** X8.  [rewrite_html] does not undo what it has done when it fails: when
    the one page is a file whose bytes are UTF-8, its name is UTF-8 too, is
    not empty and is not [index.html], and no entry of that name lies beside
    the page, the run ends with [FileNotFoundError] at the second rename,
    and by then the page has been rewritten, from its text as it was decoded
    (line endings read as line feeds), and is called [index.html]; the
    other entries are as they were. *)
Theorem rewrite_html_missing_assets (d : directory) (page text : string) :
  let name := Str.slice_to_minus 5 page in
  filter (Str.endswith ".html") (Fs.names d) = [page] ->
  Fs.lookup page d = Some (File text) ->
  Utf8.valid text = true ->
  Utf8.valid name = true ->
  Fs.lookup name d = None ->
  Fs.dot_name name = false ->
  name <> "index.html" ->
  exists d',
    rewrite_html d = (Raise (OSError FileNotFoundError), d')
    /\ forall key,
        Fs.lookup key d'
        = if String.eqb key "index.html"
          then Some (File (rewritten_text name (Str.universal_newlines text)))
          else if String.eqb key page then None
          else Fs.lookup key d.
Proof.
  intros name Hglob Hpage Htext Hvalid Hname Hdot Hni.
  destruct (DirFacts.page_renamed d page text Hglob) as (renamed & Hrename & Hlookup).
  fold name in Hlookup.
  exists renamed. split; [|exact Hlookup].
  rewrite (DirFacts.rewrite_html_written d page text Hglob Hpage Htext Hvalid).
  unfold bind. rewrite Hrename. fold name.
  apply DirFacts.rename_missing; [assumption|].
  rewrite Hlookup.
  destruct (String.eqb_spec name "index.html"); [contradiction|].
  now destruct (String.eqb name page).
Qed.

Lemma rewrite_html_missing_assets_witness :
  let d := [("notes.html", File sample_page); ("styles.css", File "body {}")] in
  exists d',
    rewrite_html d = (Raise (OSError FileNotFoundError), d')
    /\ forall key,
        Fs.lookup key d'
        = if String.eqb key "index.html"
          then Some (File (rewritten_text "notes" (Str.universal_newlines sample_page)))
          else if String.eqb key "notes.html" then None
          else Fs.lookup key d.
Proof.
  intros d.
  apply (rewrite_html_missing_assets d "notes.html" sample_page);
    try reflexivity. discriminate.
Defined.

(** ** download_page from beginning to end *)

(** The answer to [enqueueTask] that gives the export the id [task_id]. *)
Definition enqueued (r : response) (task_id : JSON) : Prop :=
  ok r = true
  /\ exists members, json r = Some (JObj members)
                     /\ Json.lookup "taskId" members = Some task_id.

(** The URLs a trace downloads from. *)
Definition downloads (t : list event) : list string :=
  flat_map (fun e => match e with Get u => [u] | _ => [] end) t.

(** The URLs of [Url.plain] are sent. *)
Module UrlFacts.

Lemma host_start c :
  in_range 97 122 c || Url.is_digit c = true ->
  Url.ends_authority c = false /\ Ascii.eqb c "*" || Ascii.eqb c "." = false.
Proof.
  destruct c as [[] [] [] [] [] [] [] []]; vm_compute; intros H; try discriminate H;
    split; reflexivity.
Qed.

Lemma plain_rest_head r :
  Url.plain_rest r = true ->
  exists c r', r = String c r' /\ in_range 97 122 c || Url.is_digit c = true.
Proof.
  unfold Url.plain_rest. destruct r as [|c r']; [discriminate|].
  cbn [Url.span]. destruct (Url.host_char c); [|discriminate].
  destruct (Url.span Url.host_char r') as [a b]. unfold Url.plain_host.
  intros H. exists c, r'. split; [reflexivity|].
  repeat (apply andb_true_iff in H as [H _]). exact H.
Qed.

Lemma has_host_plain r : Url.plain_rest r = true -> Url.has_host ("//" ++ r) = true.
Proof.
  intros H. destruct (plain_rest_head r H) as (c & r' & -> & Hc).
  destruct (host_start c Hc) as [He Hs].
  unfold Url.has_host. cbn [append Str.startswith Str.drop Ascii.eqb Bool.eqb andb Url.span].
  change (Ascii.eqb "/" "/") with true. cbn [andb].
  rewrite He. cbn [negb].
  destruct (Url.span _ r') as [a b]. cbn [fst]. now rewrite Hs.
Qed.

Lemma plain_sent u : Url.plain u = true -> Url.prepare u = Ok tt.
Proof.
  unfold Url.plain. intros H.
  destruct (Str.startswith "https://" u) eqn:Hs.
  - apply StrFacts.startswith_split in Hs. cbn [String.length] in Hs.
    remember (Str.drop 8 u) as r eqn:Hr. clear Hr. subst u.
    pose proof (has_host_plain _ H) as Hh. unfold Url.prepare.
    cbn [Str.lstrip append]. change (Url.blank "h") with false. cbn iota.
    set (u' := String "h" _).
    replace (Str.startswith "http" (lower u')) with true by reflexivity.
    rewrite andb_false_r. cbn [negb]. subst u'.
    change (Url.scheme (String "h" (String "t" (String "t" (String "p" (String "s"
             (String ":" (String "/" (String "/" r)))))))))
      with (Some ("https", String "/" (String "/" r))).
    cbn iota. change (String "/" (String "/" r)) with ("//" ++ r). rewrite Hh. reflexivity.
  - destruct (Str.startswith "http://" u) eqn:Hs'; [|discriminate].
    apply StrFacts.startswith_split in Hs'. cbn [String.length] in Hs'.
    remember (Str.drop 7 u) as r eqn:Hr. clear Hr. subst u.
    pose proof (has_host_plain _ H) as Hh. unfold Url.prepare.
    cbn [Str.lstrip append]. change (Url.blank "h") with false. cbn iota.
    set (u' := String "h" _).
    replace (Str.startswith "http" (lower u')) with true by reflexivity.
    rewrite andb_false_r. cbn [negb]. subst u'.
    change (Url.scheme (String "h" (String "t" (String "t" (String "p"
             (String ":" (String "/" (String "/" r))))))))
      with (Some ("http", String "/" (String "/" r))).
    cbn iota. change (String "/" (String "/" r)) with ("//" ++ r). rewrite Hh. reflexivity.
Qed.

End UrlFacts.

Module DownloadFacts.
Import PollFacts.

Lemma downloads_app a b : downloads (a ++ b) = (downloads a ++ downloads b)%list.
Proof. unfold downloads. apply flat_map_app. Qed.

Lemma downloads_none events :
  Forall (fun e => forall u, e <> Get u) events -> downloads events = [].
Proof.
  induction 1 as [|e events He _ IH]; [reflexivity|].
  unfold downloads in *. cbn [flat_map]. rewrite IH.
  destruct e; try reflexivity. now destruct (He url).
Qed.

Lemma set_set name x y d : Fs.set name x (Fs.set name y d) = Fs.set name x d.
Proof.
  induction d as [|[n z] d IH]; cbn -[String.eqb].
  - now rewrite String.eqb_refl.
  - destruct (String.eqb n name) eqn:E; cbn -[String.eqb]; rewrite E; [reflexivity|].
    now rewrite IH.
Qed.

(** The request that enqueues the export, and its print. *)
Definition launch_events (token : string) (body : JSON) : list event :=
  [Post (NOTION_API_ROOT ++ "/" ++ "enqueueTask") body [("token_v2", token)];
   Print "{response.request.body}" [body]].

Lemma launch_run token space_id block_id w r rest task_id :
  network w = r :: rest -> enqueued r task_id ->
  exists body,
    launch_export_block_task token space_id block_id w
    = (Ok task_id, after (launch_events token body) rest w).
Proof.
  intros Hn (Hok & members & Hjson & Htask). eexists.
  unfold launch_export_block_task, _send_post_request, requests_post, print, bind, log,
    next_response, raise_for_status, response_json.
  cbn [network with_trace with_network trace]. rewrite Hn, Hok. cbn [ret]. rewrite Hjson.
  cbn [ret Json.getitem]. rewrite Htask. unfold ret. f_equal.
  apply world_eq; cbn; try reflexivity. now rewrite <- app_assoc.
Qed.

(** What the run's directory holds once the body of the download has been
    written and unpacked, and what [download_page] ends with. *)
Definition unpacked (body : response) : directory :=
  ("output.zip", File (content body))
  :: match archive body with
     | Some (m :: members) => [("zip_extract", Dir (m :: members))]
     | _ => []
     end.

Definition outcome (body : response) (dir : string) : result string :=
  match archive body with
  | Some _ => Ok dir
  | None => Raise BadZipFile
  end.

(** Lines 125 to 146 of [download_page]: the run's directory, the download
    and the unpacking. *)
Lemma fetch_run block_id w url body rest :
  network w = body :: rest ->
  Url.plain url = true ->
  Fs.lookup (run_dir block_id (clock w)) (tmp w) = None ->
  bind (print "Downloading zip export from {export_link}" [JStr url])
    (fun _ =>
     bind get (fun w0 =>
     let tmp_dir := "export_" ++ block_id ++ "_" ++ clock w0 in
     bind (in_tmp (mkdir tmp_dir)) (fun _ =>
     bind (print "Downloading to: {export_file_name}" [JStr (tmp_dir ++ "/output.zip")])
       (fun _ =>
     bind (requests_get (JStr url)) (fun response =>
     bind (in_tmp (in_subdir tmp_dir (Fs.write_bytes "output.zip" (content response))))
       (fun _ =>
     bind (in_tmp (in_subdir tmp_dir (extractall response "zip_extract"))) (fun _ =>
     ret tmp_dir))))))) w
  = (outcome body (run_dir block_id (clock w)),
     with_tmp (Fs.set (run_dir block_id (clock w)) (Dir (unpacked body)) (tmp w))
       (after [Print "Downloading zip export from {export_link}" [JStr url];
               Print "Downloading to: {export_file_name}"
                 [JStr (run_dir block_id (clock w) ++ "/output.zip")];
               Get url] rest w)).
Proof.
  intros Hn Hplain Hfree.
  unfold print, requests_get, in_tmp, in_subdir, mkdir, Fs.write_bytes, extractall.
  rewrite (UrlFacts.plain_sent url Hplain).
  unfold bind, log, get, put, ret, raise, next_response.
  cbn [network with_trace with_network with_tmp trace tmp clock].
  fold (run_dir block_id (clock w)). rewrite Hfree.
  cbn [network with_trace with_network with_tmp trace tmp clock]. rewrite Hn.
  generalize (run_dir block_id (clock w)). intros dir.
  unfold outcome, unpacked.
  destruct (archive body) as [[|m members]|];
    repeat (progress (rewrite ?FsFacts.lookup_set_eq, ?set_set; cbn -[String.eqb]));
    f_equal; apply world_eq; cbn; try reflexivity; now rewrite <- !app_assoc.
Qed.

(** The whole of [download_page] once the export is complete, whatever the
    body of the download is. *)
Lemma download_page_through token space_id block_id w
    accepted task_id waiting done body rest url :
  network w = accepted :: (waiting ++ done :: body :: rest)%list ->
  enqueued accepted task_id ->
  Forall (in_progress_response task_id) waiting ->
  complete_response task_id done (JStr url) ->
  Url.plain url = true ->
  Fs.lookup (run_dir block_id (clock w)) (tmp w) = None ->
  exists events,
    download_page token space_id block_id w
    = (outcome body (run_dir block_id (clock w)),
       with_tmp (Fs.set (run_dir block_id (clock w)) (Dir (unpacked body)) (tmp w))
         (after events rest w))
    /\ polls events = S (List.length waiting)
    /\ sleeps events = repeat wait_time (List.length waiting)
    /\ downloads events = [url].
Proof.
  intros Hn Haccepted Hwaiting Hdone Hplain Hfree.
  destruct (launch_run token space_id block_id w accepted _ task_id
              Hn Haccepted) as (request & Hlaunch).
  set (w1 := after (launch_events token request)
               (waiting ++ done :: body :: rest) w) in *.
  destruct (LoopFacts.wait_for_completion_run token task_id w1 waiting done (body :: rest)
              (JStr url) eq_refl Hwaiting Hdone)
    as (events & Hwait & Hpolls & Hsleeps & Hget).
  set (w2 := after events (body :: rest) w1) in *.
  pose proof (fetch_run block_id w2 url body rest eq_refl Hplain Hfree) as Hfetch.
  eexists. split; [|split; [|split]].
  - unfold download_page. unfold bind at 1. rewrite Hlaunch.
    unfold bind at 1. rewrite Hwait. cbn beta iota. refine (eq_trans Hfetch _).
    unfold w2, w1. rewrite !PollFacts.after_after. reflexivity.
  - rewrite !LoopFacts.polls_app, Hpolls.
    change (polls (launch_events token request)) with 0.
    cbn. lia.
  - rewrite !LoopFacts.sleeps_app, Hsleeps. cbn. now rewrite app_nil_r.
  - rewrite !downloads_app, (downloads_none events Hget).
    reflexivity.
Qed.

(** The whole of [download_page] on a run without failure. *)
Lemma download_page_run token space_id block_id w
    accepted task_id waiting done body rest url members :
  network w = accepted :: (waiting ++ done :: body :: rest)%list ->
  enqueued accepted task_id ->
  Forall (in_progress_response task_id) waiting ->
  complete_response task_id done (JStr url) ->
  Url.plain url = true ->
  archive body = Some members ->
  members <> [] ->
  Fs.lookup (run_dir block_id (clock w)) (tmp w) = None ->
  exists events,
    download_page token space_id block_id w
    = (Ok (run_dir block_id (clock w)),
       with_tmp (Fs.set (run_dir block_id (clock w))
                   (Dir [("output.zip", File (content body)); ("zip_extract", Dir members)])
                   (tmp w))
         (after events rest w))
    /\ polls events = S (List.length waiting)
    /\ sleeps events = repeat wait_time (List.length waiting)
    /\ downloads events = [url].
Proof.
  intros Hn Haccepted Hwaiting Hdone Hplain Harchive Hmembers Hfree.
  destruct (download_page_through token space_id block_id w accepted task_id waiting done
              body rest url Hn Haccepted Hwaiting Hdone Hplain Hfree)
    as (events & Hrun & Hrest).
  exists events. split; [|exact Hrest].
  rewrite Hrun. unfold outcome, unpacked. rewrite Harchive.
  now destruct members.
Qed.

End DownloadFacts.

(** X9.  When the service accepts the export, leaves it in progress for [n]
    polls and then reports it complete with a link that is a plain [http] or
    [https] URL, when the name of the run's directory is the name of one
    entry (no slash in the block id) and no such entry exists yet, and when
    the body of the download is an archive with members, [download_page]
    returns that directory, now holding the body of the one download as
    [output.zip] and the members of the archive beneath [zip_extract]; it
    has polled [n + 1] times, slept [n] times and fetched the link once.
    The status of the download itself is not looked at. *)
Theorem download_page_downloads token space_id block_id w
    accepted task_id waiting done body rest url members :
  network w = accepted :: (waiting ++ done :: body :: rest)%list ->
  enqueued accepted task_id ->
  Forall (in_progress_response task_id) waiting ->
  complete_response task_id done (JStr url) ->
  Url.plain url = true ->
  archive body = Some members ->
  members <> [] ->
  Fs.entry_name (run_dir block_id (clock w)) = true ->
  Fs.lookup (run_dir block_id (clock w)) (tmp w) = None ->
  exists events,
    download_page token space_id block_id w
    = (Ok (run_dir block_id (clock w)),
       with_tmp (Fs.set (run_dir block_id (clock w))
                   (Dir [("output.zip", File (content body)); ("zip_extract", Dir members)])
                   (tmp w))
         (after events rest w))
    /\ polls events = S (List.length waiting)
    /\ sleeps events = repeat wait_time (List.length waiting)
    /\ downloads events = [url].
Proof.
  intros Hn Haccepted Hwaiting Hdone Hplain Harchive Hmembers Hentry Hfree.
  destruct (DownloadFacts.download_page_through token space_id block_id w accepted task_id
              waiting done body rest url Hn Haccepted Hwaiting Hdone Hplain Hfree)
    as (events & Hrun & Hrest).
  exists events. split; [|exact Hrest].
  rewrite Hrun. unfold DownloadFacts.outcome, DownloadFacts.unpacked. rewrite Harchive.
  now destruct members.
Qed.

Lemma enqueued_accepted_response id : enqueued (accepted_response id) (JStr id).
Proof. split; [reflexivity|]. eexists. split; reflexivity. Qed.

Lemma download_page_downloads_witness :
  let w := sample_world [accepted_response "t1";
                         status_response [task_entry "t1" "in_progress"];
                         status_response [task_entry "t1" "complete"];
                         zip_response sample_export] in
  exists events,
    download_page "secret" "space" "block" w
    = (Ok "export_block_2024-01-01-00-00-00",
       with_tmp [("export_block_2024-01-01-00-00-00",
                  Dir [("output.zip", File "PK"); ("zip_extract", Dir sample_export)])]
         (after events [] w))
    /\ polls events = 2
    /\ sleeps events = [3%Z]
    /\ downloads events = ["https://files/t1"].
Proof.
  intros w.
  apply (download_page_downloads "secret" "space" "block" w (accepted_response "t1")
           (JStr "t1") [status_response [task_entry "t1" "in_progress"]]
           (status_response [task_entry "t1" "complete"]) (zip_response sample_export) []
           "https://files/t1" sample_export).
  - reflexivity.
  - apply enqueued_accepted_response.
  - repeat constructor. apply in_progress_task_entry. discriminate.
  - apply complete_task_entry.
  - reflexivity.
  - reflexivity.
  - discriminate.
  - reflexivity.
  - reflexivity.
Defined.

(** ** main from beginning to end *)

Module PublishFacts.
Import PollFacts.

(** [load_notion_config] on a configuration whose two ids [uuid.UUID]
    accepts. *)
Lemma load_notion_config_run w members s vs b vb :
  notion_config w = Ok (JObj members) ->
  Json.lookup "space_id" members = Some (JStr s) -> Uuid.UUID s = Ok vs ->
  Json.lookup "block_id" members = Some (JStr b) -> Uuid.UUID b = Ok vb ->
  load_notion_config w
  = (Ok (JObj (Json.update "block_id" (JStr (Uuid.str vb))
                 (Json.update "space_id" (JStr (Uuid.str vs)) members))), w).
Proof.
  intros Hcfg Hs Hvs Hb Hvb.
  unfold load_notion_config, bind, get, lift_result. rewrite Hcfg.
  cbn [Json.getitem]. rewrite Hs. cbn [ret canonical_uuid]. rewrite Hvs.
  cbn [ret setitem Json.getitem].
  rewrite JsonFacts.lookup_update_neq by discriminate. rewrite Hb.
  cbn [ret canonical_uuid]. rewrite Hvb. reflexivity.
Qed.

Lemma rewrite_output_run dir w zip export r d' :
  Fs.lookup dir (tmp w) = Some (Dir [("output.zip", zip); ("zip_extract", Dir export)]) ->
  rewrite_html export = (r, d') ->
  rewrite_output dir w
  = (r, with_tmp (Fs.set dir (Dir [("output.zip", zip); ("zip_extract", Dir d')]) (tmp w)) w).
Proof.
  intros Hdir Hrun.
  unfold rewrite_output, output_listing, bind, get. cbn beta iota.
  rewrite Hdir. cbn [Fs.lookup]. change (String.eqb "output.zip" "zip_extract") with false.
  rewrite String.eqb_refl. cbn beta iota.
  unfold in_tmp, in_subdir. rewrite Hdir. cbn [Fs.lookup].
  change (String.eqb "output.zip" "zip_extract") with false.
  rewrite String.eqb_refl. cbn beta iota. rewrite Hrun.
  cbn [Fs.set]. change (String.eqb "output.zip" "zip_extract") with false.
  rewrite String.eqb_refl. reflexivity.
Qed.

Lemma publish_run dir w src :
  output_listing dir w = Some src ->
  publish dir w
  = (match snd (Shutil.copy_entries src (repo w)) with
     | [] => Ok tt
     | errors => Raise (ShutilError errors)
     end,
     with_repo (fst (Shutil.copy_entries src (repo w))) w).
Proof.
  intros Hsrc. unfold publish, bind, get. rewrite Hsrc. unfold in_repo, Shutil.copytree.
  destruct (Shutil.copy_entries src (repo w)) as [dst' [|e errors]]; reflexivity.
Qed.

(** Two entries of different names, listed in either order. *)
Lemma file_at_swap n1 x1 n2 x2 path :
  n1 <> n2 ->
  file_at path [(n2, x2); (n1, x1)] = file_at path [(n1, x1); (n2, x2)].
Proof.
  intros Hne. destruct path as [|name path]; [reflexivity|].
  cbn -[String.eqb].
  destruct (String.eqb_spec n1 name) as [E1|_], (String.eqb_spec n2 name) as [E2|_];
    try reflexivity.
  congruence.
Qed.

Lemma site_published site' page sub dst :
  Permutation site' [("index.html", File page); ("assets", Dir sub)] ->
  well_formed sub = true ->
  compatible [("index.html", File page); ("assets", Dir sub)] dst = true ->
  snd (Shutil.copy_entries site' dst) = []
  /\ forall path,
      file_at path (fst (Shutil.copy_entries site' dst))
      = overlay (file_at path [("index.html", File page); ("assets", Dir sub)])
          (file_at path dst).
Proof.
  intros Hsite Hwf Hc.
  apply Permutation_sym, Permutation_length_2_inv in Hsite.
  assert (Hwf' : well_formed site' = true).
  { destruct Hsite as [-> | ->]; unfold well_formed; cbn [Fs.names map fst distinct existsb
      wf_entries]; rewrite ShutilFacts.wf_dir, Hwf; reflexivity. }
  assert (Hc' : compatible site' dst = true).
  { destruct Hsite as [-> | ->]; [exact Hc|].
    cbn [compatible] in *. rewrite andb_true_r in *.
    apply andb_true_iff in Hc as [H1 H2]. now rewrite H1, H2. }
  destruct (ShutilFacts.copy_entries_overlay site' dst Hwf' Hc') as [Herr Hfiles].
  split; [exact Herr|]. intros path. rewrite Hfiles.
  destruct Hsite as [-> | ->]; [reflexivity|].
  now rewrite file_at_swap by discriminate.
Qed.

End PublishFacts.

(** X10.  A whole run of [main] with a token.  The configuration holds two
    ids that [uuid.UUID] accepts; the service accepts the export, reports it
    complete after some polls with a link that is a plain [http] or [https]
    URL, and serves an archive of a page [name.html], whose bytes are UTF-8
    as is its name, and its directory [name]; the name of the run's
    directory, made of the canonical block id and the time, is the name of
    one entry, which does not exist yet.  Then [main] returns normally; the
    run's directory stays behind in the temporary directory with the archive
    and the rewritten site; and the files of the deployment directory are
    [index.html], with the rewritten text of the page as it was decoded
    (line endings read as line feeds), and the files of [name], now beneath
    [assets], laid over the files it had before. *)
Theorem main_publishes_export w token members s vs b vb
    accepted task_id waiting done body rest url name text sub :
  let site := [("index.html", File (rewritten_text name (Str.universal_newlines text)));
               ("assets", Dir sub)] in
  let dir := run_dir (Uuid.str vb) (clock w) in
  NOTION_TOKEN w = Some token -> token <> "" ->
  notion_config w = Ok (JObj members) ->
  Json.lookup "space_id" members = Some (JStr s) -> Uuid.UUID s = Ok vs ->
  Json.lookup "block_id" members = Some (JStr b) -> Uuid.UUID b = Ok vb ->
  network w = accepted :: (waiting ++ done :: body :: rest)%list ->
  enqueued accepted task_id ->
  Forall (in_progress_response task_id) waiting ->
  complete_response task_id done (JStr url) ->
  Url.plain url = true ->
  archive body = Some [(name ++ ".html", File text); (name, Dir sub)] ->
  Fs.valid_name name = true -> Str.endswith ".html" name = false ->
  Utf8.valid name = true -> Utf8.valid text = true ->
  Fs.entry_name dir = true ->
  Fs.lookup dir (tmp w) = None ->
  well_formed sub = true -> compatible site (repo w) = true ->
  fst (main w) = Ok tt
  /\ network (snd (main w)) = rest
  /\ (exists site',
        Permutation site' site
        /\ tmp (snd (main w))
           = Fs.set dir (Dir [("output.zip", File (content body)); ("zip_extract", Dir site')])
               (tmp w))
  /\ forall path,
      file_at path (repo (snd (main w)))
      = overlay (file_at path site) (file_at path (repo w)).
Proof.
  intros site dir Htoken Hne Hcfg Hs Hvs Hb Hvb Hn Haccepted Hwaiting Hdone Hplain Harchive
    Hvalid Hnohtml Hname Htext Hentry Hfree Hwf Hc.
  destruct (DownloadFacts.download_page_run token (Uuid.str vs) (Uuid.str vb) w accepted
              task_id waiting done body rest url _ Hn Haccepted Hwaiting Hdone Hplain Harchive
              ltac:(discriminate) Hfree) as (events & Hdownload & _).
  fold dir in Hdownload.
  destruct (rewrite_html_two_entries name text sub Hvalid Hname Htext Hnohtml _
              (Permutation_refl _)) as (site' & Hrewrite & Hsite).
  fold site in Hsite.
  destruct (PublishFacts.site_published site' _ sub (repo w) Hsite Hwf Hc) as [Herr Hfiles].
  fold site in Hfiles.
  set (w3 := with_tmp (Fs.set dir (Dir [("output.zip", File (content body));
                                         ("zip_extract",
                                          Dir [(name ++ ".html", File text); (name, Dir sub)])])
                         (tmp w)) (after events rest w)) in *.
  assert (Hrw : rewrite_output dir w3
                = (Ok tt, with_tmp (Fs.set dir (Dir [("output.zip", File (content body));
                                                     ("zip_extract", Dir site')]) (tmp w))
                            (after events rest w))).
  { erewrite PublishFacts.rewrite_output_run;
      [| apply FsFacts.lookup_set_eq | exact Hrewrite].
    cbn [tmp with_tmp w3]. rewrite DownloadFacts.set_set. reflexivity. }
  set (w4 := with_tmp (Fs.set dir (Dir [("output.zip", File (content body));
                                         ("zip_extract", Dir site')]) (tmp w))
               (after events rest w)) in *.
  assert (Hlist : output_listing dir w4 = Some site').
  { unfold output_listing, w4. cbn [tmp with_tmp]. rewrite FsFacts.lookup_set_eq.
    reflexivity. }
  assert (Hmain : main w = (Ok tt, with_repo (fst (Shutil.copy_entries site' (repo w))) w4)).
  { rewrite TokenFacts.main_after_config.
    rewrite (PublishFacts.load_notion_config_run w members s vs b vb Hcfg Hs Hvs Hb Hvb).
    rewrite Htoken. cbn [not_token]. apply String.eqb_neq in Hne. rewrite Hne.
    unfold download_and_publish. unfold bind at 1. cbn [Json.getitem].
    rewrite JsonFacts.lookup_update_neq by discriminate.
    rewrite JsonFacts.lookup_update_eq. unfold ret at 1. cbn beta iota.
    rewrite JsonFacts.lookup_update_eq.
    unfold bind at 1. unfold ret at 1. cbn beta iota. cbn [as_str].
    unfold bind at 1. rewrite Hdownload.
    unfold bind at 1. rewrite Hrw.
    rewrite (PublishFacts.publish_run dir w4 site' Hlist).
    change (repo w4) with (repo w). rewrite Herr. reflexivity. }
  rewrite Hmain. cbn [fst snd]. split; [reflexivity|]. split; [reflexivity|].
  split; [|exact Hfiles].
  exists site'. split; [exact Hsite | reflexivity].
Qed.

Definition sample_run_world : world :=
  {| NOTION_TOKEN := Some "secret";
     notion_config :=
       Ok (JObj [("email", JStr "me@example.org");
                 ("space_id", JStr "{12345678-ABCD-ef01-1234-5678abcdEF01}");
                 ("block_id", JStr "12345678ABCDef0112345678abcdEF01")]);
     stdin := [];
     network := [accepted_response "t1";
                 status_response [task_entry "t1" "in_progress"];
                 status_response [task_entry "t1" "complete"];
                 zip_response sample_export];
     clock := "2024-01-01-00-00-00";
     tmp := [];
     repo := [("README.md", File "read me"); ("index.html", File "old page");
              ("assets", Dir [("stale.png", File "old image")])];
     trace := [] |}.

Lemma main_publishes_export_witness :
  let w := sample_run_world in
  let site := [("index.html",
                File (rewritten_text "My Page 0a1b"
                        (Str.universal_newlines sample_export_page)));
               ("assets", Dir [("a.png", File "png")])] in
  fst (main w) = Ok tt
  /\ network (snd (main w)) = []
  /\ (exists site',
        Permutation site' site
        /\ tmp (snd (main w))
           = [("export_12345678-abcd-ef01-1234-5678abcdef01_2024-01-01-00-00-00",
               Dir [("output.zip", File "PK"); ("zip_extract", Dir site')])])
  /\ forall path,
      file_at path (repo (snd (main w))) = overlay (file_at path site) (file_at path (repo w)).
Proof.
  intros w site.
  apply (main_publishes_export w "secret"
           [("email", JStr "me@example.org");
            ("space_id", JStr "{12345678-ABCD-ef01-1234-5678abcdEF01}");
            ("block_id", JStr "12345678ABCDef0112345678abcdEF01")]
           "{12345678-ABCD-ef01-1234-5678abcdEF01}" (hex_number 0 sample_digits)
           "12345678ABCDef0112345678abcdEF01" (hex_number 0 sample_digits)
           (accepted_response "t1") (JStr "t1")
           [status_response [task_entry "t1" "in_progress"]]
           (status_response [task_entry "t1" "complete"]) (zip_response sample_export) []
           "https://files/t1" "My Page 0a1b" sample_export_page
           [("a.png", File "png")]).
  - reflexivity.
  - discriminate.
  - reflexivity.
  - reflexivity.
  - vm_compute. reflexivity.
  - reflexivity.
  - vm_compute. reflexivity.
  - reflexivity.
  - apply enqueued_accepted_response.
  - repeat constructor. apply in_progress_task_entry. discriminate.
  - apply complete_task_entry.
  - reflexivity.
  - reflexivity.
  - reflexivity.
  - reflexivity.
  - reflexivity.
  - reflexivity.
  - vm_compute. reflexivity.
  - reflexivity.
  - reflexivity.
  - reflexivity.
Defined.

(** ** A directory of the run that exists already *)

Module GuardFacts.
Import Effects Frames.

Section Guard.
Variables (block_id : string) (w0 : world).
Hypothesis Hthere : Fs.lookup (run_dir block_id (clock w0)) (tmp w0) <> None.

(** The clock and the temporary directory are those of [w0]. *)
Let I (w : world) : Prop := tmp w = tmp w0 /\ clock w = clock w0.

Let quiet (e : event) : Prop := forall u, e <> Get u.

(** From a world that satisfies [I], the computation raises, keeps [I], and
    fetches nothing. *)
Definition stops {A} (c : M world A) : Prop :=
  forall w, I w ->
    (exists e, fst (c w) = Raise e)
    /\ I (snd (c w))
    /\ exists events, trace (snd (c w)) = (trace w ++ events)%list /\ Forall quiet events.

Lemma stops_bind {A B} (c : M world A) (k : A -> M world B) :
  stable I c -> emits quiet c -> (forall a, stops (k a)) -> stops (bind c k).
Proof.
  intros Hs He Hk w Hw. unfold bind.
  specialize (Hs w Hw). destruct (He w) as (ev1 & Ht1 & Hq1).
  destruct (c w) as [[a|e] w1]; cbn [fst snd] in *.
  - destruct (Hk a w1 Hs) as (Hraise & HI & ev2 & Ht2 & Hq2).
    split; [exact Hraise|]. split; [exact HI|].
    exists (ev1 ++ ev2)%list. rewrite Ht2, Ht1, app_assoc.
    split; [reflexivity | now apply Forall_app].
  - split; [now exists e|]. split; [exact Hs|]. now exists ev1.
Qed.

Lemma stops_mkdir {B} (k : world -> unit -> M world B) :
  stops (bind get (fun w => bind (in_tmp (mkdir (run_dir block_id (clock w)))) (k w))).
Proof.
  intros w [Htmp Hclock]. unfold in_tmp, mkdir. unfold bind, get. cbn beta iota.
  rewrite Htmp, Hclock.
  destruct (Fs.lookup (run_dir block_id (clock w0)) (tmp w0)) as [x|]; [|contradiction].
  unfold raise. cbn [fst snd].
  split; [eexists; reflexivity|]. split; [now split|].
  exists []. split; [|constructor]. cbn. now rewrite app_nil_r.
Qed.

Lemma stops_download_page token space_id :
  stops (download_page token space_id block_id).
Proof.
  assert (Ht : forall t w, I w -> I (with_trace t w)) by (intros t w H; exact H).
  assert (Hn : forall n w, I w -> I (with_network n w)) by (intros n w H; exact H).
  assert (Hprint : forall text values, quiet (Print text values)) by (intros t v u; discriminate).
  assert (Hpost : forall path body,
             path = "enqueueTask" \/ path = "getTasks" ->
             quiet (Post (NOTION_API_ROOT ++ "/" ++ path) body [("token_v2", token)]))
    by (intros p b _ u; discriminate).
  assert (Hsleep : quiet (Sleep wait_time)) by (intros u; discriminate).
  unfold download_page.
  apply stops_bind;
    [now apply stable_launch_export_block_task
    | now apply emits_launch_export_block_task |].
  intros task_id.
  apply stops_bind;
    [now apply stable_wait_for_completion | now apply emits_wait_for_completion |].
  intros export_link.
  apply stops_bind; [now apply stable_log | now apply emits_print |].
  intros _. apply stops_mkdir.
Qed.

End Guard.

End GuardFacts.

(** X11.  [download_page] never writes into a directory of the run that
    exists already (a second run for the same block within the second):
    whatever the service answers, it raises, since it cannot get past
    [mkdir]; it leaves the temporary directory as it was, and it fetches
    nothing. *)
Theorem download_page_existing_directory token space_id block_id w :
  Fs.lookup (run_dir block_id (clock w)) (tmp w) <> None ->
  (exists e, fst (download_page token space_id block_id w) = Raise e)
  /\ tmp (snd (download_page token space_id block_id w)) = tmp w
  /\ exists events,
      trace (snd (download_page token space_id block_id w)) = (trace w ++ events)%list
      /\ downloads events = [].
Proof.
  intros Hthere.
  destruct (GuardFacts.stops_download_page block_id w Hthere token space_id w
              (conj eq_refl eq_refl)) as (Hraise & [Htmp _] & events & Htrace & Hquiet).
  split; [exact Hraise|]. split; [exact Htmp|].
  exists events. split; [exact Htrace|]. now apply DownloadFacts.downloads_none.
Qed.

Lemma download_page_existing_directory_witness :
  let w := with_tmp [("export_block_2024-01-01-00-00-00", Dir [])]
             (sample_world [accepted_response "t1";
                            status_response [task_entry "t1" "complete"];
                            zip_response sample_export]) in
  (exists e, fst (download_page "secret" "space" "block" w) = Raise e)
  /\ tmp (snd (download_page "secret" "space" "block" w)) = tmp w
  /\ exists events,
      trace (snd (download_page "secret" "space" "block" w)) = (trace w ++ events)%list
      /\ downloads events = [].
Proof.
  intros w. apply (download_page_existing_directory "secret" "space" "block" w).
  discriminate.
Defined.

(** ** The canonical text of a UUID is read back as the same UUID *)

Module RoundTrip.
Import Str StrFacts UuidFacts.

(** What holds of the sixteen digits, checked on each. *)
Definition value_checks (n : nat) : bool :=
  is_hex (Uuid.hex_digit_lower (Z.of_nat n))
  && match Uuid.hex_value (Uuid.hex_digit_lower (Z.of_nat n)) with
     | Some d => Z.eqb d (Z.of_nat n)
     | None => false
     end
  && Ascii.eqb (lower_char (Uuid.hex_digit_lower (Z.of_nat n)))
       (Uuid.hex_digit_lower (Z.of_nat n)).

Lemma value_checks_all n : n < 16 -> value_checks n = true.
Proof.
  intros H. do 16 (destruct n as [|n]; [reflexivity|]). lia.
Qed.

Lemma digit_written d :
  (0 <= d < 16)%Z ->
  is_hex (Uuid.hex_digit_lower d) = true
  /\ Uuid.hex_value (Uuid.hex_digit_lower d) = Some d
  /\ lower_char (Uuid.hex_digit_lower d) = Uuid.hex_digit_lower d.
Proof.
  intros Hd. pose proof (value_checks_all (Z.to_nat d) ltac:(lia)) as H.
  unfold value_checks in H. rewrite Z2Nat.id in H by lia.
  apply andb_true_iff in H as [H H3]. apply andb_true_iff in H as [H1 H2].
  split; [exact H1|]. split.
  - destruct (Uuid.hex_value (Uuid.hex_digit_lower d)) as [e|]; [|discriminate].
    apply Z.eqb_eq in H2. now subst e.
  - now apply Ascii.eqb_eq.
Qed.

Lemma length_hex_digits n v : String.length (Uuid.hex_digits n v) = n.
Proof.
  revert v. induction n as [|n IH]; intros v; cbn [Uuid.hex_digits]; [reflexivity|].
  rewrite length_append, IH. cbn. lia.
Qed.

Lemma hex_digits_hex n v : all_chars is_hex (Uuid.hex_digits n v) = true.
Proof.
  revert v. induction n as [|n IH]; intros v; cbn [Uuid.hex_digits]; [reflexivity|].
  rewrite all_chars_append, IH. cbn [all_chars andb].
  destruct (digit_written (v mod 16)%Z) as (H & _); [apply Z.mod_pos_bound; lia|].
  now rewrite H.
Qed.

Lemma hex_digits_lower n v : lower (Uuid.hex_digits n v) = Uuid.hex_digits n v.
Proof.
  revert v. induction n as [|n IH]; intros v; cbn [Uuid.hex_digits]; [reflexivity|].
  assert (Happ : forall a b, lower (a ++ b) = lower a ++ lower b).
  { intros a b. induction a as [|c a IHa]; cbn; [reflexivity | now rewrite IHa]. }
  rewrite Happ, IH. cbn [lower].
  destruct (digit_written (v mod 16)%Z) as (_ & _ & H); [apply Z.mod_pos_bound; lia|].
  now rewrite H.
Qed.

Lemma hex_number_append acc a b :
  hex_number acc (a ++ b) = hex_number (hex_number acc a) b.
Proof. revert acc. induction a as [|c a IH]; intros acc; cbn; auto. Qed.

(** Reading back the [n] low digits of [v]. *)
Lemma hex_number_digits n :
  forall v acc, (0 <= v)%Z ->
    hex_number acc (Uuid.hex_digits n v) = (acc * 16 ^ Z.of_nat n + v mod 16 ^ Z.of_nat n)%Z.
Proof.
  induction n as [|n IH]; intros v acc Hv.
  - cbn [Uuid.hex_digits hex_number]. change (16 ^ Z.of_nat 0)%Z with 1%Z.
    rewrite Z.mod_1_r. lia.
  - cbn [Uuid.hex_digits]. rewrite hex_number_append.
    rewrite IH by (apply Z.div_pos; lia).
    cbn [hex_number].
    destruct (digit_written (v mod 16)%Z) as (_ & -> & _); [apply Z.mod_pos_bound; lia|].
    rewrite Nat2Z.inj_succ, Z.pow_succ_r by lia.
    assert (Hp : (0 < 16 ^ Z.of_nat n)%Z) by (apply Z.pow_pos_nonneg; lia).
    rewrite (Z.rem_mul_r v 16 (16 ^ Z.of_nat n)) by lia. lia.
Qed.

Lemma take_drop n s : take n s ++ drop n s = s.
Proof.
  revert s. induction n as [|n IH]; intros [|c s]; cbn; try reflexivity.
  now rewrite IH.
Qed.

Lemma drop_drop n m s : drop n (drop m s) = drop (m + n) s.
Proof.
  revert s. induction m as [|m IH]; intros s; [reflexivity|].
  destruct s as [|c s]; [destruct n; reflexivity|]. cbn [drop Nat.add]. apply IH.
Qed.

Lemma hyphenated_refl h : hyphenated h h.
Proof. induction h; constructor; assumption. Qed.

Lemma hyphenated_app a a' b b' :
  hyphenated a a' -> hyphenated b b' -> hyphenated (a ++ b) (a' ++ b').
Proof. induction 1; cbn; intros Hb; try constructor; auto. Qed.

(** The hyphens of [str] are put into the digits, nothing else. *)
Lemma hyphenated_hyphenate h : hyphenated h (Uuid.hyphenate h).
Proof.
  unfold Uuid.hyphenate.
  assert (Hsplit : h = take 8 h ++ take 4 (drop 8 h) ++ take 4 (drop 12 h)
                       ++ take 4 (drop 16 h) ++ drop 20 h).
  { assert (E : forall n m, drop n h = take m (drop n h) ++ drop (n + m) h).
    { intros n m. now rewrite <- drop_drop, take_drop. }
    rewrite <- (take_drop 8 h) at 1. f_equal.
    rewrite (E 8 4) at 1. f_equal. cbn [Nat.add].
    rewrite (E 12 4) at 1. f_equal. cbn [Nat.add].
    rewrite (E 16 4) at 1. reflexivity. }
  rewrite Hsplit at 1.
  repeat (apply hyphenated_app; [apply hyphenated_refl|]; try apply hyphenated_hyphen).
  apply hyphenated_refl.
Qed.

(** A textual form of the digits [h] is read as the number of [h]. *)
Lemma UUID_of_form h s :
  hex32 h -> uuid_form h s -> Uuid.UUID s = Ok (hex_number 0 h).
Proof.
  intros [Hlen Hh] Hs.
  destruct (replace_urn_uuid h s Hh Hs) as (d & Hd & Hnorm).
  pose proof (hex_number_bound h Hh 0%Z ltac:(lia)) as Hb.
  rewrite Hlen in Hb. change ((0 + 1) * 16 ^ Z.of_nat 32)%Z with (2 ^ 128)%Z in Hb.
  unfold Uuid.UUID. rewrite Hnorm, (replace_hyphens h d Hd Hh), Hlen.
  cbn [Nat.eqb negb].
  rewrite int16_hex; [|intros ->; discriminate|exact Hh].
  destruct (Z.leb_spec 0 (hex_number 0 h)); [|lia].
  destruct (Z.ltb_spec (hex_number 0 h) (2 ^ 128)); [reflexivity|lia].
Qed.

(** What [UUID] returns is a 128-bit number. *)
Lemma UUID_range s v : Uuid.UUID s = Ok v -> (0 <= v < 2 ^ 128)%Z.
Proof.
  unfold Uuid.UUID.
  destruct (negb _); [discriminate|].
  destruct (Uuid.int16 _) as [int|e]; [|discriminate].
  destruct (Z.leb_spec 0 int); cbn [andb]; [|discriminate].
  destruct (Z.ltb_spec int (2 ^ 128)); [|discriminate].
  intros E. inversion E. subst. lia.
Qed.

Lemma str_read_back v : (0 <= v < 2 ^ 128)%Z -> Uuid.UUID (Uuid.str v) = Ok v.
Proof.
  intros Hv. unfold Uuid.str. rewrite format_032x_width by exact Hv.
  rewrite (UUID_of_form (Uuid.hex_digits 32 v)).
  - f_equal. rewrite hex_number_digits by lia.
    change (16 ^ Z.of_nat 32)%Z with (2 ^ 128)%Z. rewrite Z.mod_small by exact Hv. lia.
  - split; [apply length_hex_digits | apply hex_digits_hex].
  - apply form_bare, hyphenated_hyphenate.
Qed.

Lemma length_hyphenate h : String.length h = 32 -> String.length (Uuid.hyphenate h) = 36.
Proof.
  intros H. unfold Uuid.hyphenate.
  repeat (rewrite length_append; cbn [String.length]).
  rewrite !DirFacts.length_take.
  assert (Hd : forall n, String.length (drop n h) = String.length h - n).
  { intros n. pose proof (take_drop n h) as E. apply (f_equal String.length) in E.
    rewrite length_append, DirFacts.length_take in E. lia. }
  rewrite !Hd, H. reflexivity.
Qed.

End RoundTrip.

(** X12.  The text [str(uuid.UUID(x))] that [load_notion_config] stores is
    a fixed point: whatever text [x] was accepted, the stored text has
    thirty-six characters, lower-case digits with hyphens put in, and it is
    accepted again and stored as it is. *)
Theorem canonical_uuid_fixed_point (x t : string) (w w' : world) :
  canonical_uuid (JStr x) w = (Ok t, w') ->
  canonical_uuid (JStr t) w = (Ok t, w)
  /\ String.length t = 36
  /\ exists h, hex32 h /\ lower h = h /\ hyphenated h t.
Proof.
  unfold canonical_uuid at 1.
  destruct (Uuid.UUID x) as [v|e] eqn:Hx; [|discriminate].
  intros H. inversion H. subst w' t. clear H.
  pose proof (RoundTrip.UUID_range x v Hx) as Hv.
  split; [|split].
  - unfold canonical_uuid. now rewrite (RoundTrip.str_read_back v Hv).
  - unfold Uuid.str. rewrite UuidFacts.format_032x_width by exact Hv.
    apply RoundTrip.length_hyphenate, RoundTrip.length_hex_digits.
  - exists (Uuid.hex_digits 32 v). split; [|split].
    + split; [apply RoundTrip.length_hex_digits | apply RoundTrip.hex_digits_hex].
    + apply RoundTrip.hex_digits_lower.
    + unfold Uuid.str. rewrite UuidFacts.format_032x_width by exact Hv.
      apply RoundTrip.hyphenated_hyphenate.
Qed.

Lemma canonical_uuid_fixed_point_witness :
  let w := sample_world [] in
  let t := "12345678-abcd-ef01-1234-5678abcdef01" in
  canonical_uuid (JStr t) w = (Ok t, w)
  /\ String.length t = 36
  /\ exists h, hex32 h /\ lower h = h /\ hyphenated h t.
Proof.
  intros w t.
  apply (canonical_uuid_fixed_point "urn:uuid:12345678ABCDef0112345678abcdEF01" t w w).
  vm_compute. reflexivity.
Defined.

(** ** A configuration that is rejected *)

(** X13.  The configuration is loaded and both ids are checked before
    anything else happens: when [load_notion_config] raises, with or without
    a token, [main] raises the same exception and has done nothing to the
    outside, no request, no print, no prompt, and no change to a file. *)
Theorem main_rejected_config (w : world) (e : exn) :
  fst (load_notion_config w) = Raise e -> main w = (Raise e, w).
Proof.
  intros H. rewrite TokenFacts.main_after_config.
  destruct (load_notion_config w) as [[config|e'] w0]; cbn [fst] in H; [discriminate|].
  now inversion H.
Qed.

Lemma main_rejected_config_witness :
  let w := {| NOTION_TOKEN := Some "secret";
              notion_config :=
                Ok (JObj [("email", JStr "me@example.org");
                          ("space_id", JStr "12345678ABCDef0112345678abcdEF01");
                          ("block_id", JStr "12345678-ABCD-ef01-1234-5678abcdEF0")]);
              stdin := ["123456"]; network := [accepted_response "t1"];
              clock := "2024-01-01-00-00-00"; tmp := []; repo := []; trace := [] |} in
  main w = (Raise ValueError, w).
Proof.
  intros w. apply (main_rejected_config w ValueError). vm_compute. reflexivity.
Defined.

(** ** Status responses the loop is not prepared for *)

Module MalformedFacts.
Import PollFacts.

(** The filter stops at the first entry whose test raises. *)
Lemma filter_raises task_id before bad after_it e (w : world) :
  Forall (fun x => carries_id task_id x <> None) before ->
  has_id task_id bad w = (Raise e, w) ->
  Json.filter (has_id task_id) (before ++ bad :: after_it) w = (Raise e, w).
Proof.
  intros Hbefore Hbad. induction Hbefore as [|x before Hx _ IH].
  - cbn [app Json.filter]. unfold bind at 1. now rewrite Hbad.
  - cbn [app Json.filter]. unfold bind at 1.
    unfold has_id at 1. unfold carries_id in Hx.
    destruct x as [| | | | |members]; try congruence.
    cbn [Json.getitem]. destruct (Json.lookup "id" members) as [id|]; [|congruence].
    unfold bind at 1. cbn [ret]. unfold bind at 1. now rewrite IH.
Qed.

Lemma is_complete_not_dict members v (w : world) :
  Json.lookup "status" members = Some v ->
  (forall status, v <> JObj status) ->
  is_complete (JObj members) w = (Raise TypeError, w).
Proof.
  intros Hs Hv. unfold is_complete, bind. cbn [Json.contains ret].
  rewrite contains_key_lookup, Hs. cbn [Json.getitem]. rewrite Hs. cbn [ret].
  destruct v; try reflexivity. now destruct (Hv members0).
Qed.

End MalformedFacts.

(** X14.  The whole batch of a status response is examined before the
    first match is taken: an entry without [id] anywhere in it makes
    [get_user_task_status] raise [KeyError], also when an entry with the
    target id comes before it. *)
Theorem get_user_task_status_entry_without_id
    token task_id w r rest before members after_it :
  network w = r :: rest ->
  answers_with r (before ++ JObj members :: after_it)%list ->
  Forall (fun x => carries_id task_id x <> None) before ->
  Json.lookup "id" members = None ->
  get_user_task_status token task_id w
  = (Raise (KeyError "id"),
     after (poll_events token task_id (before ++ JObj members :: after_it)) rest w).
Proof.
  intros Hn Hr Hbefore Hid.
  rewrite (PollFacts.get_user_task_status_run _ _ _ _ _ _ Hn Hr).
  unfold bind. rewrite (MalformedFacts.filter_raises task_id before _ after_it (KeyError "id"));
    [reflexivity | exact Hbefore |].
  unfold has_id, bind. cbn [Json.getitem]. now rewrite Hid.
Qed.

Lemma get_user_task_status_entry_without_id_witness :
  let entries := [task_entry "t1" "complete"; JObj [("error", JStr "gone")]] in
  let w := sample_world [status_response entries] in
  get_user_task_status "secret" (JStr "t1") w
  = (Raise (KeyError "id"), after (poll_events "secret" (JStr "t1") entries) [] w).
Proof.
  intros entries w.
  apply (get_user_task_status_entry_without_id "secret" (JStr "t1") w
           (status_response entries) [] [task_entry "t1" "complete"]
           [("error", JStr "gone")] []).
  - reflexivity.
  - apply answers_with_status_response.
  - repeat constructor. discriminate.
  - reflexivity.
Defined.

(** X15.  A status that is present but is no dict (a [null], say) ends the
    loop with [TypeError] at the test of the status type, on the turn that
    meets it: no further poll, no sleep. *)
Theorem wait_until_complete_status_not_dict
    token task_id w r rest entries members v :
  network w = r :: rest ->
  answers_with r entries ->
  first_with_id task_id entries (JObj members) ->
  Json.lookup "status" members = Some v ->
  (forall status, v <> JObj status) ->
  wait_until_complete token task_id w
  = (Raise TypeError, after (poll_events token task_id entries) rest w).
Proof.
  intros Hn Hr Hf Hs Hv.
  rewrite PollFacts.wait_until_complete_unfold.
  assert (Hpoll : poll_once token task_id w
                  = (Raise TypeError, after (poll_events token task_id entries) rest w)).
  { unfold poll_once. unfold bind at 1.
    rewrite (PollFacts.get_user_task_status_first _ _ _ _ _ _ _ Hn Hr Hf).
    unfold bind at 1. now rewrite (MalformedFacts.is_complete_not_dict members v _ Hs Hv). }
  now rewrite Hpoll.
Qed.

Lemma wait_until_complete_status_not_dict_witness :
  let entries := [JObj [("id", JStr "t1"); ("status", JNull)]] in
  let w := sample_world [status_response entries; status_response entries] in
  wait_until_complete "secret" (JStr "t1") w
  = (Raise TypeError,
     after (poll_events "secret" (JStr "t1") entries) [status_response entries] w).
Proof.
  intros entries w.
  apply (wait_until_complete_status_not_dict "secret" (JStr "t1") w
           (status_response entries) [status_response entries] entries
           [("id", JStr "t1"); ("status", JNull)] JNull).
  - reflexivity.
  - apply answers_with_status_response.
  - exists [], []. repeat split; constructor.
  - reflexivity.
  - discriminate.
Defined.

(** X16.  A task reported complete without [exportURL] ends the wait all the
    same: [wait_for_completion] prints that the export is finished, prints
    the status, and raises [KeyError] where the link is read; nothing has
    been created or fetched by then. *)
Theorem wait_for_completion_without_link
    token task_id w r rest entries members status :
  network w = r :: rest ->
  answers_with r entries ->
  first_with_id task_id entries (JObj members) ->
  Json.lookup "status" members = Some (JObj status) ->
  Json.lookup "type" status = Some (JStr "complete") ->
  Json.lookup "exportURL" status = None ->
  wait_for_completion token task_id w
  = (Raise (KeyError "exportURL"),
     after (poll_events token task_id entries
            ++ [Print "Export task is finished" []; Print "{task_status}" [JObj members]])
       rest w).
Proof.
  intros Hn Hr Hf Hs Ht Hu.
  assert (Htype : status_type (JObj members) (JStr "complete")) by (now exists members, status).
  pose proof (PollFacts.wait_until_complete_break token _ _ _ _ _ _ Hn Hr Hf Htype) as Hw.
  unfold wait_for_completion. unfold bind at 1. rewrite Hw.
  unfold print, bind, log. cbn [Json.getitem]. rewrite Hs. cbn [ret Json.getitem].
  rewrite Hu. unfold raise. f_equal.
  apply PollFacts.world_eq; cbn; try reflexivity.
  rewrite <- !app_assoc. reflexivity.
Qed.

Lemma wait_for_completion_without_link_witness :
  let entry := [("id", JStr "t1"); ("status", JObj [("type", JStr "complete")])] in
  let w := sample_world [status_response [JObj entry]] in
  wait_for_completion "secret" (JStr "t1") w
  = (Raise (KeyError "exportURL"),
     after (poll_events "secret" (JStr "t1") [JObj entry]
            ++ [Print "Export task is finished" []; Print "{task_status}" [JObj entry]])
       [] w).
Proof.
  intros entry w.
  apply (wait_for_completion_without_link "secret" (JStr "t1") w
           (status_response [JObj entry]) [] [JObj entry] entry [("type", JStr "complete")]).
  - reflexivity.
  - apply answers_with_status_response.
  - exists [], []. repeat split; constructor.
  - reflexivity.
  - reflexivity.
  - reflexivity.
Defined.

(** ** The log-in from beginning to end *)

Module LoginFacts.
Import PollFacts.

Lemma cookie_run name jar v (w0 w : world) :
  fst (cookie name jar w0) = Ok v -> cookie name jar w = (Ok v, w).
Proof.
  induction jar as [|[k x] jar IH]; cbn -[String.eqb]; [discriminate|].
  destruct (String.eqb k name); [|exact IH].
  cbn. now intros [= ->].
Qed.

Lemma ask_otp_run email w first rest body state csrf :
  network w = first :: rest ->
  ok first = true ->
  json first = Some (JObj body) ->
  Json.lookup "csrfState" body = Some state ->
  fst (cookie "csrf" (cookies first) w) = Ok csrf ->
  ask_otp email w
  = (Ok {| csrf_state := state; csrf_cookie := csrf |},
     after [Post (NOTION_API_ROOT ++ "/sendTemporaryPassword")
              (JObj [("email", email); ("disableLoginLink", JBool false);
                     ("native", JBool false); ("isSignup", JBool false)]) []]
       rest w).
Proof.
  intros Hn Hok Hjson Hstate Hcookie.
  unfold ask_otp, requests_post, raise_for_status, response_json.
  unfold bind at 1 2. unfold log at 1, next_response. cbn [network with_trace].
  rewrite Hn. unfold bind at 1. rewrite Hok. unfold ret at 1.
  unfold bind at 1. rewrite Hjson. unfold ret at 1.
  unfold bind at 1. cbn [Json.getitem]. rewrite Hstate. unfold ret at 1.
  unfold bind at 1. erewrite cookie_run by exact Hcookie. reflexivity.
Qed.

Lemma get_token_run values otp (w0 w : world) second rest token :
  network w = second :: rest ->
  ok second = true ->
  fst (cookie "token_v2" (cookies second) w0) = Ok token ->
  get_token values otp w
  = (Ok token,
     after [Post (NOTION_API_ROOT ++ "/loginWithEmail")
              (JObj [("state", csrf_state values); ("password", JStr otp)])
              [("csrf", csrf_cookie values)]]
       rest w).
Proof.
  intros Hn Hok Hcookie.
  unfold get_token, requests_post, raise_for_status.
  unfold bind at 1 2. unfold log at 1, next_response. cbn [network with_trace].
  rewrite Hn. unfold bind at 1. rewrite Hok. unfold ret at 1.
  erewrite cookie_run by exact Hcookie. reflexivity.
Qed.

End LoginFacts.

(** X17.  A whole log-in.  Without a token, when the service answers the
    first request with a [csrfState] and a [csrf] cookie and the second with
    a [token_v2] cookie, [main] returns normally having done exactly this:
    posted the e-mail address of the configuration to
    [sendTemporaryPassword] without cookies, printed a notice, prompted for
    the password, posted the state of the first answer and the line typed to
    [loginWithEmail] with the [csrf] cookie of the first answer, and printed
    the token.  The token is not stored and nothing is exported. *)
Theorem main_logs_in w members s vs b vb email first second rest body state csrf
    otp lines token :
  not_token (NOTION_TOKEN w) = true ->
  notion_config w = Ok (JObj members) ->
  Json.lookup "space_id" members = Some (JStr s) -> Uuid.UUID s = Ok vs ->
  Json.lookup "block_id" members = Some (JStr b) -> Uuid.UUID b = Ok vb ->
  Json.lookup "email" members = Some email ->
  network w = first :: second :: rest ->
  ok first = true ->
  json first = Some (JObj body) ->
  Json.lookup "csrfState" body = Some state ->
  fst (cookie "csrf" (cookies first) w) = Ok csrf ->
  stdin w = otp :: lines ->
  ok second = true ->
  fst (cookie "token_v2" (cookies second) w) = Ok token ->
  exists notice advice,
    main w
    = (Ok tt,
       with_stdin lines
         (after [Post (NOTION_API_ROOT ++ "/sendTemporaryPassword")
                   (JObj [("email", email); ("disableLoginLink", JBool false);
                          ("native", JBool false); ("isSignup", JBool false)]) [];
                 Print notice [email];
                 Input "Temporary password: ";
                 Post (NOTION_API_ROOT ++ "/loginWithEmail")
                   (JObj [("state", state); ("password", JStr otp)]) [("csrf", csrf)];
                 Print advice [JStr token]]
            rest w)).
Proof.
  intros Htoken Hcfg Hs Hvs Hb Hvb Hemail Hn Hok1 Hjson Hstate Hcsrf Hin Hok2 Htok.
  eexists _, _.
  rewrite TokenFacts.main_after_config.
  rewrite (PublishFacts.load_notion_config_run w members s vs b vb Hcfg Hs Hvs Hb Hvb).
  rewrite Htoken. unfold obtain_token.
  assert (Hmail : forall w' : world,
             Json.getitem
               (JObj (Json.update "block_id" (JStr (Uuid.str vb))
                        (Json.update "space_id" (JStr (Uuid.str vs)) members))) "email" w'
             = (Ok email, w')).
  { intros w'. cbn [Json.getitem].
    rewrite !JsonFacts.lookup_update_neq by discriminate. now rewrite Hemail. }
  unfold bind at 1. rewrite Hmail.
  unfold bind at 1.
  rewrite (LoginFacts.ask_otp_run email w first (second :: rest) body state csrf
             Hn Hok1 Hjson Hstate Hcsrf).
  unfold bind at 1. rewrite Hmail.
  unfold bind at 1. unfold print at 1, log at 1.
  unfold bind at 1. unfold input, bind at 1, log at 1.
  cbn [stdin with_trace with_network after]. rewrite Hin.
  unfold bind at 1.
  erewrite LoginFacts.get_token_run; [| reflexivity | exact Hok2 | exact Htok].
  unfold print, log, bind, ret. f_equal.
  apply PollFacts.world_eq; cbn; try reflexivity.
  rewrite <- !app_assoc. reflexivity.
Qed.

Lemma main_logs_in_witness :
  let w := sample_login_world None in
  exists notice advice,
    main w
    = (Ok tt,
       with_stdin []
         (after [Post (NOTION_API_ROOT ++ "/sendTemporaryPassword")
                   (JObj [("email", JStr "me@example.org"); ("disableLoginLink", JBool false);
                          ("native", JBool false); ("isSignup", JBool false)]) [];
                 Print notice [JStr "me@example.org"];
                 Input "Temporary password: ";
                 Post (NOTION_API_ROOT ++ "/loginWithEmail")
                   (JObj [("state", JStr "state"); ("password", JStr "123456")])
                   [("csrf", "cookie")];
                 Print advice [JStr "token"]]
            [] w)).
Proof.
  intros w.
  apply (main_logs_in w
           [("email", JStr "me@example.org");
            ("space_id", JStr "{12345678-ABCD-ef01-1234-5678abcdEF01}");
            ("block_id", JStr "12345678ABCDef0112345678abcdEF01")]
           "{12345678-ABCD-ef01-1234-5678abcdEF01}" (hex_number 0 sample_digits)
           "12345678ABCDef0112345678abcdEF01" (hex_number 0 sample_digits)
           (JStr "me@example.org")
           {| ok := true; json := Some (JObj [("csrfState", JStr "state")]);
              cookies := [("csrf", "cookie")]; content := ""; archive := None |}
           {| ok := true; json := None; cookies := [("token_v2", "token")];
              content := ""; archive := None |}
           [] [("csrfState", JStr "state")] (JStr "state") "cookie" "123456" [] "token").
  - reflexivity.
  - reflexivity.
  - reflexivity.
  - vm_compute. reflexivity.
  - reflexivity.
  - vm_compute. reflexivity.
  - reflexivity.
  - reflexivity.
  - reflexivity.
  - reflexivity.
  - reflexivity.
  - reflexivity.
  - reflexivity.
  - reflexivity.
  - reflexivity.
Defined.

(** ** Publishing when something cannot be copied *)

Module PartialFacts.
Import FsFacts ShutilFacts.

Lemma copytree_leaves src dst :
  snd (Shutil.copytree src dst) = fst (Shutil.copy_entries src dst).
Proof.
  unfold Shutil.copytree. now destruct (Shutil.copy_entries src dst) as [dst' [|e errors]].
Qed.

Lemma copy_file name text dst :
  (forall inner, Fs.lookup name dst <> Some (Dir inner)) ->
  Fs.lookup name (fst (Shutil.copy_entry name (File text) dst)) = Some (File text).
Proof.
  intros Hdst. cbn [Shutil.copy_entry].
  destruct (Fs.lookup name dst) as [[t|inner]|] eqn:E; cbn [fst];
    try apply lookup_set_eq.
  now destruct (Hdst inner).
Qed.

(** Each file of the source gets copied, whatever becomes of the entries
    copied before and after it. *)
Lemma copy_entries_file src name text :
  distinct (Fs.names src) = true ->
  In (name, File text) src ->
  forall dst,
    (forall inner, Fs.lookup name dst <> Some (Dir inner)) ->
    Fs.lookup name (fst (Shutil.copy_entries src dst)) = Some (File text).
Proof.
  induction src as [|[n y] rest IH]; intros Hd Hin dst Hdst; [destruct Hin|].
  apply distinct_cons in Hd as [Hfresh Hd].
  rewrite copy_entries_cons.
  pose proof (copy_entry_frame n y dst name) as Hframe.
  pose proof (copy_entries_frame rest (fst (Shutil.copy_entry n y dst)) name) as Hrest.
  specialize (IH Hd).
  destruct Hin as [Hhere | Hin].
  - inversion Hhere. subst n y.
    pose proof (copy_file name text dst Hdst) as Hcopy.
    destruct (Shutil.copy_entry name (File text) dst) as [dst1 errors1]. cbn [fst] in *.
    destruct (Shutil.copy_entries rest dst1) as [dst2 errors2]. cbn [fst] in *.
    rewrite Hrest by exact Hfresh. exact Hcopy.
  - assert (Hne : name <> n).
    { intros E. apply Hfresh. subst n. apply (in_map fst) in Hin. exact Hin. }
    specialize (IH Hin (fst (Shutil.copy_entry n y dst))).
    destruct (Shutil.copy_entry n y dst) as [dst1 errors1]. cbn [fst] in *.
    destruct (Shutil.copy_entries rest dst1) as [dst2 errors2]. cbn [fst] in *.
    apply IH. intros inner. rewrite (Hframe Hne). apply Hdst.
Qed.

End PartialFacts.

(** X18.  [copytree] does not stop at the first entry it cannot copy: a
    file of the site is published under its name, unless the deployment
    directory has a directory of that name, whatever becomes of the other
    entries, also when [publish] ends by raising [shutil.Error] for them.
    A deployment can so be left with the new page and without its assets. *)
Theorem publish_copies_each_file (w : world) (tmp_dir : string) (src : directory)
    (name text : string) :
  output_listing tmp_dir w = Some src ->
  distinct (Fs.names src) = true ->
  In (name, File text) src ->
  (forall inner, Fs.lookup name (repo w) <> Some (Dir inner)) ->
  Fs.lookup name (repo (snd (publish tmp_dir w))) = Some (File text).
Proof.
  intros Hsrc Hd Hin Hdst.
  rewrite (PublishFacts.publish_run tmp_dir w src Hsrc). cbn [snd repo with_repo].
  now apply PartialFacts.copy_entries_file.
Qed.

Lemma publish_copies_each_file_witness :
  let w := sample_publish_world [("assets", File "not a directory");
                                 ("index.html", File "old page")] in
  fst (publish "run" w) = Raise (ShutilError [(["assets"], FileExistsError)])
  /\ Fs.lookup "index.html" (repo (snd (publish "run" w))) = Some (File "new page").
Proof.
  intros w. split; [reflexivity|].
  apply (publish_copies_each_file w "run" sample_site "index.html" "new page").
  - reflexivity.
  - reflexivity.
  - now left.
  - intros inner. discriminate.
Defined.

(** ** Downloads that are not the archive of a page *)

(** X19.  The status of the download is not looked at, and what was fetched
    is kept: when the export is reported complete with a link that is a
    plain [http] or [https] URL, the name of the run's directory is the name
    of one entry, which does not exist yet, and the body of the download is
    no zip archive (an error page, say), [download_page] raises [BadZipFile]
    after the export was enqueued, awaited and fetched once, and the run's
    directory stays behind in the temporary directory with the body as
    [output.zip]. *)
Theorem download_page_not_a_zip token space_id block_id w
    accepted task_id waiting done body rest url :
  network w = accepted :: (waiting ++ done :: body :: rest)%list ->
  enqueued accepted task_id ->
  Forall (in_progress_response task_id) waiting ->
  complete_response task_id done (JStr url) ->
  Url.plain url = true ->
  archive body = None ->
  Fs.entry_name (run_dir block_id (clock w)) = true ->
  Fs.lookup (run_dir block_id (clock w)) (tmp w) = None ->
  exists events,
    download_page token space_id block_id w
    = (Raise BadZipFile,
       with_tmp (Fs.set (run_dir block_id (clock w))
                   (Dir [("output.zip", File (content body))]) (tmp w))
         (after events rest w))
    /\ downloads events = [url].
Proof.
  intros Hn Haccepted Hwaiting Hdone Hplain Harchive Hentry Hfree.
  destruct (DownloadFacts.download_page_through token space_id block_id w accepted task_id
              waiting done body rest url Hn Haccepted Hwaiting Hdone Hplain Hfree)
    as (events & Hrun & _ & _ & Hget).
  exists events. split; [|exact Hget].
  rewrite Hrun. unfold DownloadFacts.outcome, DownloadFacts.unpacked. now rewrite Harchive.
Qed.

Lemma download_page_not_a_zip_witness :
  let page := {| ok := false; json := None; cookies := []; content := "<h1>Not Found</h1>";
                 archive := None |} in
  let w := sample_world [accepted_response "t1";
                         status_response [task_entry "t1" "complete"]; page] in
  exists events,
    download_page "secret" "space" "block" w
    = (Raise BadZipFile,
       with_tmp [("export_block_2024-01-01-00-00-00",
                  Dir [("output.zip", File "<h1>Not Found</h1>")])]
         (after events [] w))
    /\ downloads events = ["https://files/t1"].
Proof.
  intros page w.
  apply (download_page_not_a_zip "secret" "space" "block" w (accepted_response "t1")
           (JStr "t1") [] (status_response [task_entry "t1" "complete"]) page []
           "https://files/t1").
  - reflexivity.
  - apply enqueued_accepted_response.
  - constructor.
  - apply complete_task_entry.
  - reflexivity.
  - reflexivity.
  - reflexivity.
  - reflexivity.
Defined.

Module LayoutFacts.

Lemma rewrite_html_asserts d :
  List.length (filter (Str.endswith ".html") (Fs.names d)) <> 1 ->
  rewrite_html d = (Raise AssertionError, d).
Proof.
  intros H. unfold rewrite_html, Fs.glob_html, bind, get, ret. cbn beta iota.
  destruct (Nat.eqb_spec (List.length (filter (Str.endswith ".html") (Fs.names d))) 1)
    as [E|E]; [contradiction | reflexivity].
Qed.

(** [rewrite_html] on what [download_page] has unpacked, when that is not
    one page. *)
Lemma rewrite_output_asserts dir w body members :
  archive body = Some members ->
  List.length (filter (Str.endswith ".html") (Fs.names members)) <> 1 ->
  Fs.lookup dir (tmp w) = Some (Dir (DownloadFacts.unpacked body)) ->
  rewrite_output dir w = (Raise AssertionError, w).
Proof.
  intros Harchive Hlayout Hdir. unfold DownloadFacts.unpacked in Hdir.
  rewrite Harchive in Hdir. destruct members as [|m members].
  - unfold rewrite_output, output_listing, bind, get. cbn beta iota. rewrite Hdir.
    reflexivity.
  - rewrite (PublishFacts.rewrite_output_run dir w _ _ _ _ Hdir
               (rewrite_html_asserts _ Hlayout)).
    f_equal. apply PollFacts.world_eq; try reflexivity. cbn [tmp with_tmp].
    clear - Hdir. revert Hdir. generalize (Dir [("output.zip", File (content body));
                                                ("zip_extract", Dir (m :: members))]).
    intros x. induction (tmp w) as [|[n y] d IH]; cbn -[String.eqb]; [discriminate|].
    destruct (String.eqb n dir); [now intros [= ->] | intros H; now rewrite IH].
Qed.

End LayoutFacts.

(** X20.  Nothing is published unless the archive holds exactly one page:
    when the export is reported complete with a link that is a plain [http]
    or [https] URL, the name of the run's directory is the name of one
    entry, which does not exist yet, and at its top the archive has no entry
    matching [*.html], or several, or has no member at all, [main] raises at
    the assertion of [rewrite_html] after the download, the deployment
    directory is as it was, and what was unpacked stays behind in the
    temporary directory as it was unpacked. *)
Theorem main_layout_error w token members s vs b vb
    accepted task_id waiting done body rest url export :
  let dir := run_dir (Uuid.str vb) (clock w) in
  NOTION_TOKEN w = Some token -> token <> "" ->
  notion_config w = Ok (JObj members) ->
  Json.lookup "space_id" members = Some (JStr s) -> Uuid.UUID s = Ok vs ->
  Json.lookup "block_id" members = Some (JStr b) -> Uuid.UUID b = Ok vb ->
  network w = accepted :: (waiting ++ done :: body :: rest)%list ->
  enqueued accepted task_id ->
  Forall (in_progress_response task_id) waiting ->
  complete_response task_id done (JStr url) ->
  Url.plain url = true ->
  archive body = Some export ->
  List.length (filter (Str.endswith ".html") (Fs.names export)) <> 1 ->
  Fs.entry_name dir = true ->
  Fs.lookup dir (tmp w) = None ->
  fst (main w) = Raise AssertionError
  /\ repo (snd (main w)) = repo w
  /\ tmp (snd (main w))
     = Fs.set dir (Dir (("output.zip", File (content body))
                        :: match export with
                           | [] => []
                           | _ => [("zip_extract", Dir export)]
                           end)) (tmp w).
Proof.
  intros dir Htoken Hne Hcfg Hs Hvs Hb Hvb Hn Haccepted Hwaiting Hdone Hplain Harchive
    Hlayout Hentry Hfree.
  destruct (DownloadFacts.download_page_through token (Uuid.str vs) (Uuid.str vb) w accepted
              task_id waiting done body rest url Hn Haccepted Hwaiting Hdone Hplain Hfree)
    as (events & Hdownload & _).
  fold dir in Hdownload.
  set (w3 := with_tmp (Fs.set dir (Dir (DownloadFacts.unpacked body)) (tmp w))
               (after events rest w)) in *.
  assert (Hrw : rewrite_output dir w3 = (Raise AssertionError, w3)).
  { apply (LayoutFacts.rewrite_output_asserts dir w3 body export Harchive Hlayout).
    apply FsFacts.lookup_set_eq. }
  assert (Hmain : main w = (Raise AssertionError, w3)).
  { rewrite TokenFacts.main_after_config.
    rewrite (PublishFacts.load_notion_config_run w members s vs b vb Hcfg Hs Hvs Hb Hvb).
    rewrite Htoken. cbn [not_token]. apply String.eqb_neq in Hne. rewrite Hne.
    unfold download_and_publish. unfold bind at 1. cbn [Json.getitem].
    rewrite JsonFacts.lookup_update_neq by discriminate.
    rewrite JsonFacts.lookup_update_eq. unfold ret at 1. cbn beta iota.
    rewrite JsonFacts.lookup_update_eq.
    unfold bind at 1. unfold ret at 1. cbn beta iota. cbn [as_str].
    unfold bind at 1. rewrite Hdownload.
    unfold DownloadFacts.outcome. rewrite Harchive.
    unfold bind at 1. now rewrite Hrw. }
  rewrite Hmain. cbn [fst snd]. split; [reflexivity|]. split; [reflexivity|].
  unfold w3. cbn [tmp with_tmp]. unfold DownloadFacts.unpacked. rewrite Harchive.
  now destruct export.
Qed.

Lemma main_layout_error_witness :
  let export := [("a.html", File "a"); ("b.html", File "b")] in
  let w := {| NOTION_TOKEN := Some "secret";
              notion_config := notion_config sample_run_world;
              stdin := [];
              network := [accepted_response "t1";
                          status_response [task_entry "t1" "complete"];
                          zip_response export];
              clock := "2024-01-01-00-00-00"; tmp := [];
              repo := [("index.html", File "old page")]; trace := [] |} in
  fst (main w) = Raise AssertionError
  /\ repo (snd (main w)) = repo w
  /\ tmp (snd (main w))
     = [("export_12345678-abcd-ef01-1234-5678abcdef01_2024-01-01-00-00-00",
         Dir [("output.zip", File "PK"); ("zip_extract", Dir export)])].
Proof.
  intros export w.
  apply (main_layout_error w "secret"
           [("email", JStr "me@example.org");
            ("space_id", JStr "{12345678-ABCD-ef01-1234-5678abcdEF01}");
            ("block_id", JStr "12345678ABCDef0112345678abcdEF01")]
           "{12345678-ABCD-ef01-1234-5678abcdEF01}" (hex_number 0 sample_digits)
           "12345678ABCDef0112345678abcdEF01" (hex_number 0 sample_digits)
           (accepted_response "t1") (JStr "t1") []
           (status_response [task_entry "t1" "complete"]) (zip_response export) []
           "https://files/t1" export).
  - reflexivity.
  - discriminate.
  - reflexivity.
  - reflexivity.
  - vm_compute. reflexivity.
  - reflexivity.
  - vm_compute. reflexivity.
  - reflexivity.
  - apply enqueued_accepted_response.
  - constructor.
  - apply complete_task_entry.
  - reflexivity.
  - reflexivity.
  - simpl. lia.
  - vm_compute. reflexivity.
  - reflexivity.
Defined.

(** ** rewrite_html on its own result *)

Module TextFacts.
Import Str UuidFacts.

(** Texts of ASCII characters, and texts without a carriage return. *)
Definition ascii_text (s : string) : bool := all_chars (in_range 0 127) s.

Definition no_cr (s : string) : bool := all_chars (fun c => negb (Ascii.eqb c "013")) s.

(** An ASCII byte is a character of its own: the decoder takes it between
    two characters only. *)
Lemma step_ascii st c st' :
  in_range 0 127 c = true -> Utf8.step st c = Some st' -> st = Utf8.Start /\ st' = Utf8.Start.
Proof.
  destruct c as [b0 b1 b2 b3 b4 b5 b6 [|]].
  - destruct b0, b1, b2, b3, b4, b5, b6; discriminate.
  - intros _.
    destruct st; destruct b0, b1, b2, b3, b4, b5, b6; vm_compute; intros H;
      try discriminate H; injection H as <-; split; reflexivity.
Qed.

Lemma step_start_ascii c : in_range 0 127 c = true -> Utf8.step Utf8.Start c = Some Utf8.Start.
Proof. intros H. cbn [Utf8.step]. now rewrite H. Qed.

Lemma run_append st a b :
  Utf8.run st (a ++ b)
  = match Utf8.run st a with Some st' => Utf8.run st' b | None => None end.
Proof.
  revert st. induction a as [|c a IH]; intros st; cbn [append Utf8.run]; [reflexivity|].
  destruct (Utf8.step st c); [apply IH | reflexivity].
Qed.

Lemma valid_run s : Utf8.valid s = true <-> Utf8.run Utf8.Start s = Some Utf8.Start.
Proof.
  unfold Utf8.valid. destruct (Utf8.run Utf8.Start s) as [[]|]; split; congruence.
Qed.

Lemma valid_append a b :
  Utf8.valid a = true -> Utf8.valid b = true -> Utf8.valid (a ++ b) = true.
Proof.
  rewrite !valid_run, run_append. now intros -> ->.
Qed.

Lemma run_ascii a b :
  ascii_text a = true -> Utf8.run Utf8.Start (a ++ b) = Utf8.run Utf8.Start b.
Proof.
  induction a as [|c a IH]; cbn [append ascii_text all_chars Utf8.run]; [reflexivity|].
  intros H. apply andb_true_iff in H as [Hc Ha].
  rewrite (step_start_ascii c Hc). now apply IH.
Qed.

Lemma valid_ascii a : ascii_text a = true -> Utf8.valid a = true.
Proof.
  intros H. apply valid_run. rewrite <- (StrFacts.append_nil_r a).
  now rewrite run_ascii.
Qed.

(** An ASCII text within a UTF-8 text lies between two UTF-8 texts. *)
Lemma valid_around p old rest :
  old <> "" -> ascii_text old = true ->
  Utf8.valid (p ++ old ++ rest) = true -> Utf8.valid p = true /\ Utf8.valid rest = true.
Proof.
  destruct old as [|c old]; [easy|]. intros _ Hold.
  cbn [ascii_text all_chars] in Hold. apply andb_true_iff in Hold as [Hc Hold].
  rewrite !valid_run, run_append.
  destruct (Utf8.run Utf8.Start p) as [st|]; [|discriminate].
  cbn [append Utf8.run]. destruct (Utf8.step st c) as [st'|] eqn:Hstep; [|discriminate].
  destruct (step_ascii st c st' Hc Hstep) as [-> ->].
  now rewrite run_ascii.
Qed.

Lemma replaced_valid old new s s' :
  replaced_all old new s s' ->
  old <> "" -> ascii_text old = true -> Utf8.valid new = true ->
  Utf8.valid s = true -> Utf8.valid s' = true.
Proof.
  intros H Hne Hold Hnew. induction H as [s _ | p rest rest' _ _ IH]; [easy|].
  intros Hs. destruct (valid_around p old rest Hne Hold Hs) as [Hp Hrest].
  apply valid_append; [exact Hp|]. apply valid_append; [exact Hnew | now apply IH].
Qed.

Lemma replaced_no_cr old new s s' :
  replaced_all old new s s' ->
  no_cr new = true -> no_cr s = true -> no_cr s' = true.
Proof.
  intros H Hnew. unfold no_cr in *.
  induction H as [s _ | p rest rest' _ _ IH]; [easy|].
  rewrite !all_chars_append. intros Hs.
  apply andb_true_iff in Hs as [Hp Hs]. apply andb_true_iff in Hs as [_ Hrest].
  now rewrite Hp, Hnew, IH.
Qed.

Lemma quote_ascii s : ascii_text (quote s) = true.
Proof.
  unfold ascii_text. induction s as [|c s IH]; [reflexivity|].
  cbn [quote]. rewrite all_chars_append, IH, andb_true_r.
  destruct c as [[] [] [] [] [] [] [] []]; reflexivity.
Qed.

(** Reading the line endings keeps a UTF-8 text one, and leaves no carriage
    return; a text without one is read as it is. *)
Lemma newlines_run s : forall st after_cr,
  Utf8.run st s = Some Utf8.Start -> Utf8.run st (newlines_from after_cr s) = Some Utf8.Start.
Proof.
  induction s as [|c s IH]; intros st after_cr; cbn [newlines_from Utf8.run]; [easy|].
  destruct (Utf8.step st c) as [st'|] eqn:Hstep; [|discriminate]. intros Hrun.
  destruct (Ascii.eqb_spec c "013") as [->|_].
  - destruct (step_ascii st "013" st' eq_refl Hstep) as [-> ->].
    cbn [Utf8.run]. change (Utf8.step Utf8.Start "010") with (Some Utf8.Start).
    now apply IH.
  - destruct (Ascii.eqb_spec c "010") as [->|_]; cbn [andb].
    + destruct (step_ascii st "010" st' eq_refl Hstep) as [-> ->].
      destruct after_cr; [now apply IH|].
      cbn [Utf8.run]. change (Utf8.step Utf8.Start "010") with (Some Utf8.Start).
      now apply IH.
    + cbn [Utf8.run]. rewrite Hstep. now apply IH.
Qed.

Lemma newlines_valid s : Utf8.valid s = true -> Utf8.valid (universal_newlines s) = true.
Proof. rewrite !valid_run. apply newlines_run. Qed.

Lemma newlines_from_no_cr s : forall after_cr, no_cr (newlines_from after_cr s) = true.
Proof.
  unfold no_cr.
  induction s as [|c s IH]; intros after_cr; cbn [newlines_from all_chars]; [reflexivity|].
  destruct (Ascii.eqb_spec c "013") as [->|Hc].
  - cbn [all_chars]. now rewrite IH.
  - destruct (Ascii.eqb c "010" && after_cr); [apply IH|].
    cbn [all_chars]. rewrite IH.
    destruct (Ascii.eqb_spec c "013"); [contradiction | reflexivity].
Qed.

Lemma newlines_no_cr s : no_cr (universal_newlines s) = true.
Proof. apply newlines_from_no_cr. Qed.

Lemma newlines_fixed s : no_cr s = true -> universal_newlines s = s.
Proof.
  unfold universal_newlines, no_cr.
  induction s as [|c s IH]; cbn [newlines_from all_chars]; [reflexivity|].
  intros H. apply andb_true_iff in H as [Hc Hs].
  destruct (Ascii.eqb c "013"); [discriminate|].
  rewrite andb_false_r. now rewrite IH.
Qed.

(** What [rewrite_html] writes for a page with a name is UTF-8 when the page
    was, and has no carriage return when the page had none. *)
Lemma rewritten_valid name text :
  name <> "" -> Utf8.valid text = true -> Utf8.valid (rewritten_text name text) = true.
Proof.
  intros Hname Htext. unfold rewritten_text. cbv zeta.
  apply valid_append; [apply valid_append|]; try reflexivity.
  refine (replaced_valid (quote name) "assets" text _ _ _ _ eq_refl Htext).
  - apply StrFacts.replace_spec. now apply RewriteFacts.quote_nonempty.
  - now apply RewriteFacts.quote_nonempty.
  - apply quote_ascii.
Qed.

Lemma rewritten_no_cr name text :
  name <> "" -> no_cr text = true -> no_cr (rewritten_text name text) = true.
Proof.
  intros Hname Htext. unfold rewritten_text. cbv zeta. unfold no_cr.
  rewrite !all_chars_append.
  change (all_chars _ stylesheet_tag) with true.
  change (all_chars _ favicon_tags) with true. rewrite !andb_true_r.
  refine (replaced_no_cr (quote name) "assets" text _ _ eq_refl Htext).
  apply StrFacts.replace_spec. now apply RewriteFacts.quote_nonempty.
Qed.

(** The text a run has written is read back as it is. *)
Lemma rewritten_read_back name text :
  name <> "" -> Utf8.valid text = true ->
  let written := rewritten_text name (universal_newlines text) in
  Utf8.valid written = true /\ universal_newlines written = written.
Proof.
  intros Hname Htext written. split.
  - apply rewritten_valid; [exact Hname | now apply newlines_valid].
  - apply newlines_fixed, rewritten_no_cr; [exact Hname | apply newlines_no_cr].
Qed.

End TextFacts.

Module AgainFacts.
Import DirFacts.

Lemma names_set_listed name x y d :
  Fs.lookup name d = Some y -> Fs.names (Fs.set name x d) = Fs.names d.
Proof.
  unfold Fs.names. induction d as [|[n z] d IH]; cbn -[String.eqb]; [discriminate|].
  destruct (String.eqb n name); [reflexivity|]. intros H. cbn. now rewrite IH.
Qed.

Lemma filter_set_rejected (p : string -> bool) name x d :
  p name = false -> filter p (Fs.names (Fs.set name x d)) = filter p (Fs.names d).
Proof.
  unfold Fs.names. intros Hp. induction d as [|[n z] d IH]; cbn -[String.eqb].
  - now rewrite Hp.
  - destruct (String.eqb n name); cbn; [reflexivity|]. now rewrite IH.
Qed.

Lemma filter_set_first (p : string -> bool) name x d :
  filter p (Fs.names d) = [] -> p name = true ->
  filter p (Fs.names (Fs.set name x d)) = [name].
Proof.
  unfold Fs.names. intros Hnone Hp. induction d as [|[n z] d IH]; cbn -[String.eqb].
  - now rewrite Hp.
  - cbn in Hnone. destruct (p n) eqn:Hn; [discriminate|].
    destruct (String.eqb_spec n name) as [E|_]; [congruence|].
    cbn. rewrite Hn. now apply IH.
Qed.

Lemma filter_remove_rejected (p : string -> bool) name d :
  p name = false -> filter p (Fs.names (Fs.remove name d)) = filter p (Fs.names d).
Proof.
  unfold Fs.names. intros Hp. induction d as [|[n z] d IH]; cbn -[String.eqb]; [reflexivity|].
  destruct (String.eqb_spec n name) as [->|_]; cbn.
  - now rewrite Hp.
  - now rewrite IH.
Qed.

Lemma filter_remove (p : string -> bool) name d :
  filter p (Fs.names (Fs.remove name d))
  = filter (fun n => negb (String.eqb n name)) (filter p (Fs.names d)).
Proof.
  unfold Fs.names. induction d as [|[n z] d IH]; cbn -[String.eqb]; [reflexivity|].
  destruct (String.eqb n name) eqn:E; cbn -[String.eqb].
  - destruct (p n); cbn -[String.eqb]; [rewrite E|]; exact IH.
  - destruct (p n); cbn -[String.eqb]; [rewrite E; cbn|]; now rewrite IH.
Qed.

Lemma filter_remove_only (p : string -> bool) name d :
  filter p (Fs.names d) = [name] -> filter p (Fs.names (Fs.remove name d)) = [].
Proof.
  intros H. rewrite filter_remove, H. cbn -[String.eqb]. now rewrite String.eqb_refl.
Qed.

(** After the first rename, the page is the one match of the pattern. *)
Lemma page_renamed_listing d page text new renamed :
  filter (Str.endswith ".html") (Fs.names d) = [page] ->
  Fs.lookup page d = Some (File text) ->
  Fs.rename page "index.html" (Fs.set page (File new) d) = (Ok tt, renamed) ->
  filter (Str.endswith ".html") (Fs.names renamed) = ["index.html"].
Proof.
  intros Hglob Hpage. set (written := Fs.set page _ d).
  assert (Hnames : filter (Str.endswith ".html") (Fs.names written) = [page]).
  { unfold written. now rewrite (names_set_listed _ _ _ _ Hpage). }
  assert (Hw : Fs.lookup page written = Some (File new)).
  { unfold written. now rewrite lookup_set, String.eqb_refl. }
  pose proof (page_is_html d page Hglob) as Hhtml.
  destruct (String.eqb_spec page "index.html") as [Hi|Hi].
  - rewrite Hi in Hw |- *.
    rewrite (rename_same "index.html" written _ eq_refl Hw).
    intros [= <-]. now rewrite Hnames, Hi.
  - rewrite (rename_moves page "index.html" written _ (html_not_dot _ Hhtml) Hw Hi).
    + intros [= <-]. apply filter_set_first; [|reflexivity].
      now apply filter_remove_only.
    + unfold written. rewrite lookup_set.
      destruct (String.eqb_spec page "index.html"); [contradiction|].
      apply (no_other_html d page Hglob); [reflexivity | congruence].
Qed.

(** What a run of [rewrite_html] that returns has gone through. *)
Lemma rewrite_html_returned d d' :
  rewrite_html d = (Ok tt, d') ->
  exists page text renamed,
    filter (Str.endswith ".html") (Fs.names d) = [page]
    /\ Fs.lookup page d = Some (File text)
    /\ Utf8.valid text = true
    /\ Fs.rename page "index.html"
         (Fs.set page (File (rewritten_text (Str.slice_to_minus 5 page)
                               (Str.universal_newlines text))) d)
       = (Ok tt, renamed)
    /\ Fs.rename (Str.slice_to_minus 5 page) "assets" renamed = (Ok tt, d').
Proof.
  intros Hrun.
  destruct (filter (Str.endswith ".html") (Fs.names d)) as [|page [|other more]] eqn:Hglob.
  - unfold rewrite_html, Fs.glob_html, bind, get, ret in Hrun. cbn beta iota in Hrun.
    rewrite Hglob in Hrun. discriminate.
  - destruct (Fs.lookup page d) as [[text|entries]|] eqn:Hpage.
    + exists page, text.
      destruct (Utf8.valid text) eqn:Htext;
        [destruct (Utf8.valid (Str.slice_to_minus 5 page)) eqn:Hname|].
      * rewrite (rewrite_html_written d page text Hglob Hpage Htext Hname) in Hrun.
        unfold bind in Hrun.
        destruct (Fs.rename page "index.html" _) as [[[]|e] renamed] eqn:Hrename;
          [|discriminate].
        exists renamed. auto.
      * unfold rewrite_html, Fs.glob_html, Fs.read_text, encodable, bind, get, ret in Hrun.
        cbn beta iota in Hrun. rewrite Hglob in Hrun.
        cbn [List.length Nat.eqb assert Fs.item0 ret] in Hrun. unfold ret in Hrun.
        cbn beta iota in Hrun. rewrite Hpage in Hrun. cbn beta iota in Hrun.
        rewrite Htext in Hrun. cbn beta iota in Hrun. rewrite Hname in Hrun.
        discriminate.
      * unfold rewrite_html, Fs.glob_html, Fs.read_text, encodable, bind, get, ret in Hrun.
        cbn beta iota in Hrun. rewrite Hglob in Hrun.
        cbn [List.length Nat.eqb assert Fs.item0 ret] in Hrun. unfold ret in Hrun.
        cbn beta iota in Hrun. rewrite Hpage in Hrun. cbn beta iota in Hrun.
        rewrite Htext in Hrun. discriminate.
    + unfold rewrite_html, Fs.glob_html, Fs.read_text, bind, get, ret in Hrun.
      cbn beta iota in Hrun. rewrite Hglob in Hrun. cbn in Hrun. rewrite Hpage in Hrun.
      discriminate.
    + unfold rewrite_html, Fs.glob_html, Fs.read_text, bind, get, ret in Hrun.
      cbn beta iota in Hrun. rewrite Hglob in Hrun. cbn in Hrun. rewrite Hpage in Hrun.
      discriminate.
  - unfold rewrite_html, Fs.glob_html, bind, get, ret in Hrun. cbn beta iota in Hrun.
    rewrite Hglob in Hrun. discriminate.
Qed.

(** A rename that returns, taken apart. *)
Lemma rename_returned src dst d d' :
  Fs.rename src dst d = (Ok tt, d') ->
  exists x,
    Fs.lookup src d = Some x
    /\ Fs.dot_name src = false
    /\ (src = dst /\ d' = d \/ src <> dst /\ d' = Fs.set dst x (Fs.remove src d)).
Proof.
  unfold Fs.rename, bind, get. cbn beta iota.
  destruct (Fs.dot_name src); [discriminate|].
  destruct (Fs.lookup src d) as [x|]; [|discriminate].
  intros H. exists x. split; [reflexivity|]. split; [reflexivity|].
  destruct (String.eqb_spec src dst) as [E|E].
  - left. split; [exact E|]. now inversion H.
  - right. split; [exact E|].
    destruct x as [t|entries], (Fs.lookup dst d) as [[t'|[|e es]]|];
      try discriminate; now inversion H.
Qed.

End AgainFacts.

(** X21.  [rewrite_html] cannot be run twice: on the directory a run that
    returned has left, with no entry called [index], a second run raises.
    Either the page itself was renamed to [assets] by the first run and the
    assertion fails; or the page is read as a page called [index], is
    written back with [index] replaced by [assets] and the tags appended
    once more, and the run ends with [FileNotFoundError] at the rename of
    the directory [index]. *)
Theorem rewrite_html_not_twice (d d' : directory) :
  rewrite_html d = (Ok tt, d') ->
  Fs.lookup "index" d' = None ->
  rewrite_html d' = (Raise AssertionError, d')
  \/ exists text d'',
       Fs.lookup "index.html" d' = Some (File text)
       /\ rewrite_html d' = (Raise (OSError FileNotFoundError), d'')
       /\ forall key,
           Fs.lookup key d''
           = if String.eqb key "index.html" then Some (File (rewritten_text "index" text))
             else Fs.lookup key d'.
Proof.
  intros Hrun Hindex.
  destruct (AgainFacts.rewrite_html_returned d d' Hrun)
    as (page & text & renamed & Hglob & Hpage & Htext & Hr1 & Hr2).
  pose proof (AgainFacts.page_renamed_listing d page text _ renamed Hglob Hpage Hr1) as Hlist.
  destruct (DirFacts.page_renamed d page text Hglob) as (renamed' & Hr1' & Hlookup).
  rewrite Hr1 in Hr1'. injection Hr1' as <-.
  set (name := Str.slice_to_minus 5 page) in *.
  set (text' := rewritten_text name (Str.universal_newlines text)) in *.
  destruct (AgainFacts.rename_returned _ _ _ _ Hr2) as (x & Hx & Hdot & Hmoved).
  assert (Hname : name <> "") by (intros E; rewrite E in Hdot; discriminate).
  destruct (TextFacts.rewritten_read_back name text Hname Htext) as [Hvalid Hread].
  fold text' in Hvalid, Hread.
  assert (Hagain : forall site,
             filter (Str.endswith ".html") (Fs.names site) = ["index.html"] ->
             Fs.lookup "index.html" site = Some (File text') ->
             Fs.lookup "index" site = None ->
             exists text d'',
               Fs.lookup "index.html" site = Some (File text)
               /\ rewrite_html site = (Raise (OSError FileNotFoundError), d'')
               /\ forall key,
                   Fs.lookup key d''
                   = if String.eqb key "index.html"
                     then Some (File (rewritten_text "index" text))
                     else Fs.lookup key site).
  { intros site Hsite Hfile Hnone.
    destruct (DirFacts.rewrite_html_stranded site "index.html" text' Hsite Hfile Hvalid
                eq_refl Hnone eq_refl ltac:(discriminate)) as (d'' & Hfail & Hkeys).
    exists text', d''. split; [exact Hfile|]. split; [exact Hfail|].
    intros key. rewrite Hkeys, Hread. cbn -[String.eqb rewritten_text].
    now destruct (String.eqb key "index.html"). }
  assert (Hfile : Fs.lookup "index.html" renamed = Some (File text')).
  { now rewrite Hlookup. }
  destruct Hmoved as [[_ ->] | [Hne ->]].
  - right. now apply Hagain.
  - destruct (Str.endswith ".html" name) eqn:Hhtml.
    + left. apply LayoutFacts.rewrite_html_asserts.
      assert (Hindexed : name = "index.html")
        by (eapply DirFacts.only_match; eassumption).
      rewrite AgainFacts.filter_set_rejected by reflexivity.
      rewrite Hindexed, (AgainFacts.filter_remove_only _ _ _ Hlist). cbn. lia.
    + right. apply Hagain.
      * rewrite AgainFacts.filter_set_rejected by reflexivity.
        now rewrite AgainFacts.filter_remove_rejected.
      * rewrite DirFacts.lookup_set, DirFacts.lookup_remove.
        change (String.eqb "assets" "index.html") with false. cbn iota.
        destruct (String.eqb_spec name "index.html") as [E|_]; [|exact Hfile].
        rewrite E in Hhtml. discriminate.
      * exact Hindex.
Qed.

Lemma rewrite_html_not_twice_witness :
  let d := [("My Page 0a1b.html", File "<p>index</p>"); ("My Page 0a1b", Dir [])] in
  let d' := [("index.html", File (rewritten_text "My Page 0a1b" "<p>index</p>"));
             ("assets", Dir [])] in
  rewrite_html d' = (Raise AssertionError, d')
  \/ exists text d'',
       Fs.lookup "index.html" d' = Some (File text)
       /\ rewrite_html d' = (Raise (OSError FileNotFoundError), d'')
       /\ forall key,
           Fs.lookup key d''
           = if String.eqb key "index.html" then Some (File (rewritten_text "index" text))
             else Fs.lookup key d'.
Proof.
  intros d d'. apply (rewrite_html_not_twice d d'); reflexivity.
Defined.

(** ** When the client fetches *)

Module FetchFacts.
Import Effects.

Definition quiet (e : event) : Prop := forall u, e <> Get u.

Definition silent (e : event) : Prop := False.

Lemma silent_trace {A} (c : M world A) w : emits silent c -> trace (snd (c w)) = trace w.
Proof.
  intros H. destruct (H w) as (events & Ht & Hs).
  destruct Hs as [|e events []]. now rewrite app_nil_r in Ht.
Qed.

(** The computation ends with at most one fetch, and fetches nothing
    before. *)
Definition fetches_last {A} (c : M world A) : Prop :=
  forall w, exists before fetched,
    trace (snd (c w)) = (trace w ++ before ++ map Get fetched)%list
    /\ Forall quiet before
    /\ List.length fetched <= 1.

Lemma fetches_last_bind {A B} (c : M world A) (k : A -> M world B) :
  emits quiet c -> (forall a, fetches_last (k a)) -> fetches_last (bind c k).
Proof.
  intros Hc Hk w. unfold bind. destruct (Hc w) as (ev1 & Ht1 & Hq1).
  destruct (c w) as [[a|e] w1]; cbn [snd] in *.
  - destruct (Hk a w1) as (before & fetched & Ht2 & Hq2 & Hlen).
    exists (ev1 ++ before)%list, fetched. rewrite Ht2, Ht1, <- !app_assoc.
    split; [reflexivity|]. split; [now apply Forall_app | exact Hlen].
  - exists ev1, []. cbn. rewrite app_nil_r. auto.
Qed.

Lemma fetches_last_requests_get {B} url (k : response -> M world B) :
  (forall r, emits silent (k r)) -> fetches_last (bind (requests_get url) k).
Proof.
  intros Hk w. destruct url as [| | |u| |];
    try solve [exists [], []; cbn; rewrite app_nil_r; repeat split; auto].
  cbn [requests_get]. destruct (Url.prepare u);
    [|exists [], []; cbn; rewrite app_nil_r; repeat split; auto].
  unfold bind, log, next_response. cbn [network with_trace].
  destruct (network w) as [|r rest].
  - exists [], [u]. cbn. repeat split; auto.
  - exists [], [u]. rewrite (silent_trace (k r) _ (Hk r)). cbn. repeat split; auto.
Qed.

Lemma quiet_print text values : quiet (Print text values).
Proof. intros u. discriminate. Qed.

Lemma quiet_post url body sent : quiet (Post url body sent).
Proof. intros u. discriminate. Qed.

Lemma quiet_sleep seconds : quiet (Sleep seconds).
Proof. intros u. discriminate. Qed.

(** A wait that returns has printed that the export is finished. *)
Lemma wait_for_completion_finished token task_id w :
  exists events,
    trace (snd (wait_for_completion token task_id w)) = (trace w ++ events)%list
    /\ Forall quiet events
    /\ (forall link, fst (wait_for_completion token task_id w) = Ok link ->
                     In (Print "Export task is finished" []) events).
Proof.
  destruct (emits_wait_until_complete quiet quiet_print token
              (fun path body _ => quiet_post _ body _) (quiet_sleep _) task_id w)
    as (events & Ht & Hq).
  unfold wait_for_completion, bind.
  destruct (wait_until_complete token task_id w) as [[task_status|e] w1]; cbn [snd] in Ht.
  - exists (events ++ [Print "Export task is finished" [];
                       Print "{task_status}" [task_status]])%list.
    split; [|split].
    + unfold print, log. cbn [trace with_trace].
      assert (Hpure : forall (v : JSON) key (w' : world),
                 trace (snd (bind (Json.getitem v key)
                               (fun status => Json.getitem status "exportURL") w'))
                 = trace w').
      { intros v key w'. unfold bind.
        pose proof (MainFacts.getitem_pure v key w') as H1.
        destruct (Json.getitem v key w') as [[x|e] w2]; cbn [snd] in *; subst w2;
          [|reflexivity].
        now rewrite (MainFacts.getitem_pure x "exportURL" w'). }
      unfold bind in Hpure. rewrite Hpure. cbn [trace with_trace].
      now rewrite Ht, <- !app_assoc.
    + apply Forall_app. split; [exact Hq|]. repeat constructor; apply quiet_print.
    + intros _ _. apply in_or_app. right. now left.
  - exists events. cbn [fst snd]. split; [exact Ht|]. split; [exact Hq|]. discriminate.
Qed.

End FetchFacts.

(** X22.  Whatever the service answers, [download_page] fetches at most
    once, as the last thing it does to the outside, and only after it has
    printed that the export is finished: nothing is downloaded for an export
    that was rejected, that failed, or that was never reported complete. *)
Theorem download_page_fetches_last token space_id block_id w :
  exists before fetched,
    trace (snd (download_page token space_id block_id w))
    = (trace w ++ before ++ map Get fetched)%list
    /\ downloads before = []
    /\ (fetched = []
        \/ List.length fetched = 1 /\ In (Print "Export task is finished" []) before).
Proof.
  unfold download_page.
  destruct (Effects.emits_launch_export_block_task FetchFacts.quiet FetchFacts.quiet_print
              token (fun path body _ => FetchFacts.quiet_post _ body _) space_id block_id w)
    as (ev1 & Ht1 & Hq1).
  unfold bind at 1.
  destruct (launch_export_block_task token space_id block_id w) as [[task_id|e] w1];
    cbn [snd] in Ht1.
  2:{ exists ev1, []. cbn. rewrite app_nil_r.
      split; [exact Ht1|]. split; [now apply DownloadFacts.downloads_none | now left]. }
  destruct (FetchFacts.wait_for_completion_finished token task_id w1)
    as (ev2 & Ht2 & Hq2 & Hfinished).
  unfold bind at 1.
  destruct (wait_for_completion token task_id w1) as [[link|e] w2]; cbn [fst snd] in *.
  2:{ exists (ev1 ++ ev2)%list, []. cbn. rewrite Ht2, Ht1, app_nil_r, <- app_assoc.
      split; [reflexivity|].
      split; [apply DownloadFacts.downloads_none; now apply Forall_app | now left]. }
  assert (Hrest : FetchFacts.fetches_last
            (bind (print "Downloading zip export from {export_link}" [link])
               (fun _ =>
                bind get (fun w0 =>
                let tmp_dir := "export_" ++ block_id ++ "_" ++ clock w0 in
                bind (in_tmp (mkdir tmp_dir)) (fun _ =>
                bind (print "Downloading to: {export_file_name}"
                        [JStr (tmp_dir ++ "/output.zip")]) (fun _ =>
                bind (requests_get link) (fun response =>
                bind (in_tmp (in_subdir tmp_dir
                                (Fs.write_bytes "output.zip" (content response)))) (fun _ =>
                bind (in_tmp (in_subdir tmp_dir (extractall response "zip_extract")))
                  (fun _ => ret tmp_dir))))))))).
  { apply FetchFacts.fetches_last_bind;
      [apply Effects.emits_print, FetchFacts.quiet_print|]. intros _.
    apply FetchFacts.fetches_last_bind; [apply Effects.emits_get|]. intros w0.
    apply FetchFacts.fetches_last_bind; [apply Effects.emits_in_tmp|]. intros _.
    apply FetchFacts.fetches_last_bind;
      [apply Effects.emits_print, FetchFacts.quiet_print|]. intros _.
    apply FetchFacts.fetches_last_requests_get. intros r.
    apply Effects.emits_bind; [apply Effects.emits_in_tmp|]. intros _.
    apply Effects.emits_bind; [apply Effects.emits_in_tmp|]. intros _.
    apply Effects.emits_ret. }
  destruct (Hrest w2) as (pre & fetched & Ht3 & Hq3 & Hlen).
  exists (ev1 ++ ev2 ++ pre)%list, fetched.
  split; [|split].
  - refine (eq_trans Ht3 _). rewrite Ht2, Ht1, <- !app_assoc. reflexivity.
  - apply DownloadFacts.downloads_none. repeat (apply Forall_app; split); assumption.
  - destruct fetched as [|u [|u' more]]; [now left | right | cbn in Hlen; lia].
    split; [reflexivity|].
    apply in_or_app. right. apply in_or_app. left. now apply (Hfinished link).
Qed.

(** ** What reaches the deployment directory *)

Module SafetyFacts.

Lemma repo_download_page token space_id block_id w :
  repo (snd (download_page token space_id block_id w)) = repo w.
Proof.
  set (I := fun w' : world => repo w' = repo w /\ clock w' = clock w).
  assert (HI : I (snd (download_page token space_id block_id w))).
  { apply (Frames.stable_download_page I) with (now := clock w).
    - intros t w0 H. exact H.
    - intros n w0 H. exact H.
    - intros w0 H. apply H.
    - intros w0 d H _. exact H.
    - now split. }
  apply HI.
Qed.

Lemma output_listing_inv dir w export :
  output_listing dir w = Some export ->
  exists run, Fs.lookup dir (tmp w) = Some (Dir run)
              /\ Fs.lookup "zip_extract" run = Some (Dir export).
Proof.
  unfold output_listing.
  destruct (Fs.lookup dir (tmp w)) as [[t|run]|]; try discriminate.
  destruct (Fs.lookup "zip_extract" run) as [[t|d]|] eqn:E; try discriminate.
  intros [= ->]. now exists run.
Qed.

(** [rewrite_html(output_dir)] leaves the deployment directory alone, and
    when it returns, the output directory holds what [rewrite_html] made of
    its entries. *)
Lemma rewrite_output_returned dir w :
  repo (snd (rewrite_output dir w)) = repo w
  /\ (fst (rewrite_output dir w) = Ok tt ->
      exists export site,
        rewrite_html export = (Ok tt, site)
        /\ output_listing dir (snd (rewrite_output dir w)) = Some site).
Proof.
  unfold rewrite_output, bind, get. cbn beta iota.
  destruct (output_listing dir w) as [export|] eqn:Hlist.
  - destruct (output_listing_inv dir w export Hlist) as (run & Hdir & Hextract).
    unfold in_tmp, in_subdir. rewrite Hdir, Hextract.
    destruct (rewrite_html export) as [[[]|e] site] eqn:Hrun; cbn [fst snd repo with_tmp].
    + split; [reflexivity|]. intros _. exists export, site. split; [exact Hrun|].
      unfold output_listing. cbn [tmp with_tmp].
      now rewrite !FsFacts.lookup_set_eq.
    + split; [reflexivity | discriminate].
  - split; [reflexivity|]. cbn. discriminate.
Qed.

End SafetyFacts.

(** X23.  Only a rewritten site is ever published.  Whatever the
    environment, the configuration and the service, [main] either leaves the
    deployment directory as it was, or what it has copied over it is a tree
    that [rewrite_html] returned normally, the tree the output directory of
    the run holds at the end. *)
Theorem main_publishes_only_rewritten (w : world) :
  repo (snd (main w)) = repo w
  \/ exists dir export site,
       rewrite_html export = (Ok tt, site)
       /\ output_listing dir (snd (main w)) = Some site
       /\ repo (snd (main w)) = fst (Shutil.copy_entries site (repo w)).
Proof.
  rewrite TokenFacts.main_after_config.
  destruct (load_notion_config w) as [[config|e] w0]; [|now left].
  destruct (not_token (NOTION_TOKEN w)).
  { left. destruct (MainFacts.logs_in_only_obtain_token config w) as (_ & Hrepo & _).
    exact Hrepo. }
  set (token := match NOTION_TOKEN w with Some t => t | None => "" end).
  unfold download_and_publish, bind.
  pose proof (MainFacts.getitem_pure config "space_id" w) as H1.
  destruct (Json.getitem config "space_id" w) as [[space_id|e] w1]; cbn [snd] in *;
    subst w1; [|now left].
  pose proof (MainFacts.getitem_pure config "block_id" w) as H2.
  destruct (Json.getitem config "block_id" w) as [[block_id|e] w2]; cbn [snd] in *;
    subst w2; [|now left].
  pose proof (SafetyFacts.repo_download_page token (as_str space_id) (as_str block_id) w)
    as Hdownload.
  destruct (download_page token (as_str space_id) (as_str block_id) w) as [[dir|e] w3];
    cbn [snd] in *; [|now left].
  destruct (SafetyFacts.rewrite_output_returned dir w3) as [Hkept Hsite].
  destruct (rewrite_output dir w3) as [[[]|e] w4]; cbn [fst snd] in *;
    [|left; congruence].
  destruct (Hsite eq_refl) as (export & site & Hrun & Hlist).
  right. exists dir, export, site. split; [exact Hrun|].
  rewrite (PublishFacts.publish_run dir w4 site Hlist). cbn [snd repo with_repo].
  split; [exact Hlist | congruence].
Qed.
